(** * jpeg-segments: a shallow embedding of [exiferino.py] and [jpegdata.py]

    The development follows the Python sources function by function.
    Python values are modelled as follows:

    - [bytes] objects are lists of [Byte.byte];
    - [str] objects are lists of Unicode code points (integers);
    - [int] is [Z] (Python integers are unbounded);
    - a binary file handle is the file's content together with a
      position; [read], [seek] and [tell] act on the position;
    - [print] appends a line to [stdout];
    - [sys.exit()] and run-time errors are outcomes of a small
      state-and-exception monad;
    - the metadata dictionary is a [gmap] from [str] keys to 4-tuples;
    - the sub-IFD [deque] is a list (append at the back, popleft at the
      front). *)

From Stdlib Require Import ZArith NArith Lia.
From Stdlib Require Import Strings.String Strings.Ascii Strings.Byte.
From stdpp Require Import gmap list sorting.

Local Open Scope Z_scope.

(** ** Python data *)

Abbreviation byte := Byte.byte.
Abbreviation bytes := (list Byte.byte).

(** A Python [str]: a sequence of code points. *)
Abbreviation str := (list Z).

#[global] Instance byte_eq_decision : EqDecision byte := Byte.byte_eq_dec.

(** The integer value of a byte (what indexing a [bytes] object gives). *)
Definition byte_val (b : byte) : Z := Z.of_N (Byte.to_N b).

(** [lit "abc"]: the [str] literal ['abc']; [blit "abc"]: the [bytes]
    literal [b'abc'] (printable ASCII only). *)
Definition lit (s : string) : str :=
  map (fun a => Z.of_N (N_of_ascii a)) (list_ascii_of_string s).

Definition blit (s : string) : bytes := list_byte_of_string s.

(** The values that flow through the extractor: [None], integers,
    strings and byte strings. *)
Inductive pyval : Type :=
| VNone
| VInt (z : Z)
| VStr (s : str)
| VBytes (b : bytes).

#[global] Instance pyval_eq_decision : EqDecision pyval.
Proof. solve_decision. Defined.

(** *** Number formatting *)

Definition digit_char (d : Z) : Z :=
  if d <? 10 then 48 + d else 87 + d.   (* '0'..'9', 'a'..'f' *)

(** Digits of a non-negative number in the given base, most significant
    first; [fuel] bounds the number of digits. *)
Fixpoint digits_of (base : Z) (fuel : nat) (n : Z) (acc : str) : str :=
  match fuel with
  | O => acc
  | S fuel' =>
      let acc' := digit_char (n mod base) :: acc in
      if n / base =? 0 then acc' else digits_of base fuel' (n / base) acc'
  end.

(** [str(n)] for an [int]. *)
Definition str_of_int (n : Z) : str :=
  if n <? 0
  then 45 :: digits_of 10 (S (Z.to_nat (Z.log2 (- n)))) (- n) []
  else digits_of 10 (S (Z.to_nat (Z.log2 n))) n [].

(** ['{:02x}'.format(c)] for a byte. *)
Definition hex02 (b : byte) : str :=
  [digit_char (byte_val b / 16); digit_char (byte_val b mod 16)].

(** [repr] of a [bytes] object, which is also its [str()]. *)
Definition bytes_quote (bs : bytes) : Z :=
  if bool_decide (x27 ∈ bs) && negb (bool_decide (x22 ∈ bs))
  then 34 else 39.

Definition repr_byte (quote : Z) (b : byte) : str :=
  let c := byte_val b in
  if (c =? quote) || (c =? 92) then [92; c]
  else if c =? 9 then [92; 116]
  else if c =? 10 then [92; 110]
  else if c =? 13 then [92; 114]
  else if (c <? 32) || (127 <=? c) then [92; 120] ++ hex02 b
  else [c].

Definition repr_bytes (bs : bytes) : str :=
  let q := bytes_quote bs in
  [98; q] ++ concat (map (repr_byte q) bs) ++ [q].

(** [str(v)]. *)
Definition py_str (v : pyval) : str :=
  match v with
  | VNone => lit "None"
  | VInt z => str_of_int z
  | VStr s => s
  | VBytes b => repr_bytes b
  end.

(** ** The [struct] module: fixed-width unsigned integers *)

(** The byte order character of a [struct] format: ['<'] or ['>']. *)
Inductive byteorder : Type := LittleEndian | BigEndian.

(** Format codes ['B'], ['H'] and ['I']. *)
Inductive fmt : Type := FmtB | FmtH | FmtI.

Definition fmt_size (f : fmt) : nat :=
  match f with FmtB => 1%nat | FmtH => 2%nat | FmtI => 4%nat end.

Fixpoint le_uint (bs : bytes) : Z :=
  match bs with
  | [] => 0
  | b :: rest => byte_val b + 256 * le_uint rest
  end.

Definition be_uint (bs : bytes) : Z := le_uint (rev bs).

(** [struct.unpack(order + code, bs)[0]]; [None] stands for
    [struct.error] (the buffer has the wrong size). *)
Definition struct_unpack (o : byteorder) (f : fmt) (bs : bytes) : option Z :=
  if bool_decide (length bs = fmt_size f)
  then Some (match o with
             | LittleEndian => le_uint bs
             | BigEndian => be_uint bs
             end)
  else None.

(** ** Effects: file handle, standard output, exceptions *)

(** The exceptions that the modelled code can raise; [SystemExit] is
    what [sys.exit()] raises. *)
Inductive exn : Type :=
| SystemExit
| TypeError
| ValueError
| IndexError
| OSError
| StructError
| UnicodeDecodeError
| ParseError.

(** How a call ends: it returns, it raises, or the model's loop budget
    ran out before the call ended. *)
Inductive outcome (A : Type) : Type :=
| Ret (a : A)
| Raise (e : exn)
| OutOfFuel.

Arguments Ret {A} a.
Arguments Raise {A} e.
Arguments OutOfFuel {A}.

(** Ghost events recorded by the Exif reader, used to state in which
    order directories are read and the sub-IFD queue is used. *)
Inductive event : Type :=
| EvReadIfd (offset : Z)     (* read_ifd called for the IFD at this offset *)
| EvAppend (v : pyval)       (* subifd_queue.append(v) *)
| EvNext (v : pyval)         (* read_ifd returned v *)
| EvPopleft (v : pyval).     (* subifd_queue.popleft() gave v *)

#[global] Instance event_eq_decision : EqDecision event.
Proof. solve_decision. Defined.

(** A metadata value: [(tagdata, tagno, datatype, numvals)]. *)
Abbreviation metarec := (pyval * pyval * pyval * pyval)%type.

Record state : Type := mkState {
  fdata : bytes;                 (* content of the open file *)
  fpos : Z;                      (* position of the file handle *)
  stdout : list str;             (* lines printed so far *)
  meta_dict : gmap str metarec;  (* the dictionary built by readmeta *)
  subifd_queue : list pyval;     (* the deque of read_app1_exif *)
  trace : list event             (* ghost: events so far *)
}.

Definition M (A : Type) : Type := state -> outcome A * state.

Definition ret {A} (a : A) : M A := fun st => (Ret a, st).

Definition bind {A B} (m : M A) (k : A -> M B) : M B :=
  fun st =>
    match m st with
    | (Ret a, st') => k a st'
    | (Raise e, st') => (Raise e, st')
    | (OutOfFuel, st') => (OutOfFuel, st')
    end.

Definition raise {A} (e : exn) : M A := fun st => (Raise e, st).

Definition out_of_fuel {A} : M A := fun st => (OutOfFuel, st).

Notation "'let*' x ':=' m 'in' k" := (bind m (fun x => k))
  (at level 10, x name, m at level 100, k at level 200).

Notation "m ';;;' k" := (bind m (fun _ => k))
  (at level 100, k at level 200, right associativity).

Definition set_fpos (p : Z) (st : state) : state :=
  mkState (fdata st) p (stdout st) (meta_dict st) (subifd_queue st) (trace st).

Definition set_stdout (o : list str) (st : state) : state :=
  mkState (fdata st) (fpos st) o (meta_dict st) (subifd_queue st) (trace st).

Definition set_meta_dict (m : gmap str metarec) (st : state) : state :=
  mkState (fdata st) (fpos st) (stdout st) m (subifd_queue st) (trace st).

Definition set_subifd_queue (q : list pyval) (st : state) : state :=
  mkState (fdata st) (fpos st) (stdout st) (meta_dict st) q (trace st).

Definition set_trace (t : list event) (st : state) : state :=
  mkState (fdata st) (fpos st) (stdout st) (meta_dict st) (subifd_queue st) t.

(** [print(line)]. *)
Definition print (line : str) : M unit :=
  fun st => (Ret tt, set_stdout (stdout st ++ [line]) st).

(** Ghost: record an event. *)
Definition emit (e : event) : M unit :=
  fun st => (Ret tt, set_trace (trace st ++ [e]) st).

(** [bs[lo:lo+n]] for non-negative [lo] and [n]. *)
Definition slice (bs : bytes) (lo n : Z) : bytes :=
  take (Z.to_nat n) (drop (Z.to_nat lo) bs).

(** [filehandle.read(n)] on a buffered binary file: up to [n] bytes from
    the current position (fewer only at the end of the file), everything
    up to the end of the file for [n = -1], [ValueError] for other
    negative sizes.  The position moves past the bytes read. *)
Definition read (n : Z) : M bytes :=
  fun st =>
    if n <? -1 then (Raise ValueError, st)
    else
      let rest := drop (Z.to_nat (fpos st)) (fdata st) in
      let bs := if n <? 0 then rest else take (Z.to_nat n) rest in
      (Ret bs, set_fpos (fpos st + Z.of_nat (length bs)) st).

(** [filehandle.tell()]. *)
Definition tell : M Z := fun st => (Ret (fpos st), st).

(** [filehandle.seek(offset, 0)]: a negative position is an [OSError];
    a position past the end of the file is allowed. *)
Definition seek_set (offset : Z) : M unit :=
  fun st =>
    if offset <? 0 then (Raise OSError, st)
    else (Ret tt, set_fpos offset st).

(** [filehandle.seek(offset, 1)]: relative to the current position. *)
Definition seek_cur (offset : Z) : M unit :=
  fun st =>
    if fpos st + offset <? 0 then (Raise OSError, st)
    else (Ret tt, set_fpos (fpos st + offset) st).

(** [meta_dict[key] = value]. *)
Definition dict_set (key : str) (value : metarec) : M unit :=
  fun st => (Ret tt, set_meta_dict (<[key := value]> (meta_dict st)) st).

(** [subifd_queue.append(v)]. *)
Definition queue_append (v : pyval) : M unit :=
  fun st =>
    (Ret tt,
     set_trace (trace st ++ [EvAppend v])
       (set_subifd_queue (subifd_queue st ++ [v]) st)).

(** ** [class ExifDecoder] *)

(** The object's only attribute is [byteorder]. *)
Definition b_II : bytes := [x49; x49].
Definition b_MM : bytes := [x4d; x4d].

(** [ExifDecoder.set_byteorder(bytealign, filename)].  [filename] stands
    for the content of the named file when a name is given: the method
    then takes the two bytes at offset 12 of that file as [bytealign]. *)
Definition set_byteorder (bytealign : pyval) (filename : option bytes)
  : M byteorder :=
  let bytealign :=
    match filename with
    | Some content => VBytes (take 2 (drop 12 content))
    | None => bytealign
    end in
  (if bool_decide (bytealign ∈ [VBytes b_II; VBytes b_MM])
   then ret tt
   else print (lit "WARNING: invalid endian setting in ExifDecoder - "
               ++ py_str bytealign)) ;;;
  ret (if bool_decide (bytealign = VBytes b_II)
       then LittleEndian else BigEndian).

(** [ExifDecoder(endian)]: little-endian unless [endian] is given. *)
Definition ExifDecoder (endian : pyval) : M byteorder :=
  if bool_decide (endian ≠ VNone)
  then set_byteorder endian None
  else ret LittleEndian.

(** [ExifDecoder.decode_bytes(byte_string)]; the last branch prints and
    falls off the end of the method, which returns [None]. *)
Definition decode_bytes (self : byteorder) (byte_string : bytes) : M pyval :=
  if bool_decide (length byte_string = 0%nat) then ret (VInt 0)
  else if bool_decide (length byte_string = 2%nat) then
    match struct_unpack self FmtH byte_string with
    | Some v => ret (VInt v)
    | None => raise StructError
    end
  else if bool_decide (length byte_string = 4%nat) then
    match struct_unpack self FmtI byte_string with
    | Some v => ret (VInt v)
    | None => raise StructError
    end
  else
    print (lit "Invalid byte string passed to ExifDecoder: "
           ++ repr_bytes byte_string) ;;;
    ret VNone.

(** ** [jpegdata.py] *)

(** The value of [seginfo]: a dictionary with the keys [name],
    [has_data] and [has_meta]. *)
Record segment_info : Type := SegInfo {
  name : str;
  has_data : bool;
  has_meta : bool
}.

(** The table [segdata], in the order of the source. *)
Definition segdata : list (bytes * segment_info) :=
  [ ([xff; x01], SegInfo (lit "ff01") false false);
    ([xff; xe0], SegInfo (lit "APP0") true true);
    ([xff; xe1], SegInfo (lit "APP1") true true);
    ([xff; xe2], SegInfo (lit "APP2") true true);
    ([xff; xe3], SegInfo (lit "APP3") true true);
    ([xff; xe4], SegInfo (lit "APP4") true true);
    ([xff; xe5], SegInfo (lit "APP5") true true);
    ([xff; xe6], SegInfo (lit "APP6") true true);
    ([xff; xe7], SegInfo (lit "APP7") true true);
    ([xff; xe8], SegInfo (lit "APP8") true true);
    ([xff; xe9], SegInfo (lit "APP9") true true);
    ([xff; xea], SegInfo (lit "APP10") true true);
    ([xff; xeb], SegInfo (lit "APP11") true true);
    ([xff; xec], SegInfo (lit "APP12") true true);
    ([xff; xed], SegInfo (lit "APP13") true true);
    ([xff; xee], SegInfo (lit "APP14") true true);
    ([xff; xef], SegInfo (lit "APP15") true true);
    ([xff; xfe], SegInfo (lit "COM") true false);
    ([xff; xc4], SegInfo (lit "DHT") true false);
    ([xff; xdb], SegInfo (lit "DQT") true false);
    ([xff; xdd], SegInfo (lit "DRI") true false);
    ([xff; xd9], SegInfo (lit "EOI") false false);
    ([xff; xd0], SegInfo (lit "RST0") false false);
    ([xff; xd1], SegInfo (lit "RST1") false false);
    ([xff; xd2], SegInfo (lit "RST2") false false);
    ([xff; xd3], SegInfo (lit "RST3") false false);
    ([xff; xd4], SegInfo (lit "RST4") false false);
    ([xff; xd5], SegInfo (lit "RST5") false false);
    ([xff; xd6], SegInfo (lit "RST6") false false);
    ([xff; xd7], SegInfo (lit "RST7") false false);
    ([xff; xc0], SegInfo (lit "SOF0") true false);
    ([xff; xc2], SegInfo (lit "SOF2") true false);
    ([xff; xd8], SegInfo (lit "SOI") false false);
    ([xff; xda], SegInfo (lit "SOS") true false) ].

(** [d[key]] for a dictionary written as a list of items with distinct
    keys. *)
Fixpoint assoc {V} (key : bytes) (d : list (bytes * V)) : option V :=
  match d with
  | [] => None
  | (k, v) :: d' => if bool_decide (k = key) then Some v else assoc key d'
  end.

(** [seginfo(segment_marker)]. *)
Definition seginfo (segment_marker : bytes) : segment_info :=
  match assoc segment_marker segdata with
  | Some info => info
  | None =>
      let hexname := concat (map hex02 segment_marker) in
      SegInfo (hexname ++ lit "?") false false
  end.

(** ** [exiferino.py]: values and directories *)

Section Exif.

(** The content of [tagnames_exif23.json], which is data outside the
    sources: a dictionary from the decimal tag number to the tag name. *)
Variable EXIF_TAGS : gmap str str.

(** [exiftag(tagno)] of [jpegdata.py]. *)
Definition exiftag (tagno : pyval) : str :=
  let tagno_str := py_str tagno in
  match EXIF_TAGS !! tagno_str with
  | Some tagname => tagname
  | None => tagno_str ++ lit "?"
  end.

(** [stored_bytes[0]]. *)
Definition first_byte (stored_bytes : bytes) : M Z :=
  match stored_bytes with
  | [] => raise IndexError
  | b :: _ => ret (byte_val b)
  end.

(** [str(numerator) + '/' + str(denominator)] of two decoded longs. *)
Definition rational_tostring (stored_bytes : bytes) (decoder : byteorder)
  : M pyval :=
  let* numerator := decode_bytes decoder (slice stored_bytes 0 4) in
  let* denominator := decode_bytes decoder (slice stored_bytes 4 4) in
  ret (VStr (py_str numerator ++ lit "/" ++ py_str denominator)).

(** [exifdata_tostring(stored_bytes, datatype, decoder)]. *)
Definition exifdata_tostring (stored_bytes : bytes) (datatype : pyval)
    (decoder : byteorder) : M pyval :=
  match datatype with
  | VInt 1 =>
      match struct_unpack LittleEndian FmtB stored_bytes with
      | Some v => ret (VStr (str_of_int v))
      | None => raise StructError
      end
  | VInt 2 =>
      let mask := 127 in
      ret (VStr (map (fun b => Z.land (byte_val b) mask) stored_bytes))
  | VInt 3 =>
      let* v := decode_bytes decoder (slice stored_bytes 0 2) in
      ret (VStr (py_str v))
  | VInt 4 =>
      let* v := decode_bytes decoder (slice stored_bytes 0 4) in
      ret (VStr (py_str v))
  | VInt 5 => rational_tostring stored_bytes decoder
  | VInt 6 =>
      (* struct.unpack_from('b', <int>): the buffer is not bytes-like *)
      let* _ := first_byte stored_bytes in
      raise TypeError
  | VInt 7 =>
      let* b := first_byte stored_bytes in
      ret (VInt b)
  | VInt 8 =>
      let* v := decode_bytes decoder (slice stored_bytes 0 2) in
      ret (VStr (py_str v))
  | VInt 9 =>
      let* v := decode_bytes decoder (slice stored_bytes 0 4) in
      ret (VStr (py_str v))
  | VInt 10 => rational_tostring stored_bytes decoder
  | _ => ret (VStr (repr_bytes stored_bytes))
  end.

(** The tags whose value is the offset of an Exif-specific IFD. *)
Definition subifd_tags : list pyval := [VInt 34665; VInt 34853; VInt 40965].

(** The body of the [for] loop of [read_ifd]: one directory entry. *)
Definition read_ifd_entry (decoder : byteorder) : M unit :=
  let* b_tag := read 2 in
  let* exif_tag_no := decode_bytes decoder b_tag in
  let* b_type := read 2 in
  let* data_type := decode_bytes decoder b_type in
  let* b_count := read 4 in
  let* number_of_values := decode_bytes decoder b_count in
  let* tagdata := read 4 in
  if bool_decide (exif_tag_no ∈ subifd_tags) then
    let* offset := decode_bytes decoder tagdata in
    queue_append offset
  else
    let tagname := exiftag exif_tag_no in
    let dict_key := lit "Exif|" ++ tagname in
    let* tagvalue := exifdata_tostring tagdata data_type decoder in
    dict_set dict_key
      (tagvalue, VStr (py_str exif_tag_no), data_type, number_of_values).

(** [for _ in range(n): body]. *)
Fixpoint for_range (n : nat) (body : M unit) : M unit :=
  match n with
  | O => ret tt
  | S n' => body ;;; for_range n' body
  end.

(** [range(v)] needs an integer; a negative one gives no iteration. *)
Definition range_count (v : pyval) : M nat :=
  match v with
  | VInt z => ret (Z.to_nat z)
  | _ => raise TypeError
  end.

(** [read_ifd(filehandle, byte_order, meta_dict, subifd_queue)]. *)
Definition read_ifd (byte_order : pyval) : M pyval :=
  let* decoder := ExifDecoder byte_order in
  let* b_entries := read 2 in
  let* directory_entries := decode_bytes decoder b_entries in
  let* n := range_count directory_entries in
  for_range n (read_ifd_entry decoder) ;;;
  let* b_next := read 4 in
  decode_bytes decoder b_next.

(** ** Header checks *)

Definition known_markertypes : list str :=
  [lit "SOI"; lit "APP0"; lit "APP1"; lit "APP2"; lit "APP3"; lit "APP12";
   lit "APP13"; lit "APP14"].

(** One arm of the [elif] chain of [verify_marker]:
    [markertype == mt and marker != expected]. *)
Definition mismatch (markertype mt : str) (marker expected : bytes) : bool :=
  bool_decide (markertype = mt) && bool_decide (marker ≠ expected).

Definition not_found (mt : str) (marker : bytes) : str :=
  lit "ERROR: " ++ mt ++ lit " expected but not found." ++ repr_bytes marker.

(** [verify_marker(filehandle, markertype)]. *)
Definition verify_marker (markertype : str) : M unit :=
  let* marker := read 2 in
  (if bool_decide (markertype ∈ known_markertypes) then ret tt
   else
     print (lit "Unknown marker type passed to verify_marker(): "
            ++ markertype) ;;;
     raise SystemExit) ;;;
  if mismatch markertype (lit "SOI") marker [xff; xd8] then
    print (not_found (lit "SOI") marker) ;;;
    raise SystemExit
  else if mismatch markertype (lit "APP0") marker [xff; xe0] then
    print (not_found (lit "APP0") marker)
  else if mismatch markertype (lit "APP1") marker [xff; xe1] then
    print (not_found (lit "APP1") marker)
  else if mismatch markertype (lit "APP2") marker [xff; xe2] then
    print (not_found (lit "APP2") marker)
  else if mismatch markertype (lit "APP3") marker [xff; xe3] then
    print (not_found (lit "APP3") marker)
  else if mismatch markertype (lit "APP12") marker [xff; xec] then
    print (not_found (lit "APP12") marker)
  else if mismatch markertype (lit "APP13") marker [xff; xed] then
    print (not_found (lit "APP13") marker)
  else if mismatch markertype (lit "APP14") marker [xff; xee] then
    print (not_found (lit "APP14") marker)
  else ret tt.

Definition b_Exif00 : bytes := blit "Exif" ++ [x00; x00].

(** [verify_exifheader(filehandle)]. *)
Definition verify_exifheader : M unit :=
  let* exif_header := read 6 in
  if bool_decide (exif_header ≠ b_Exif00) then
    print (lit "INVALID Exif header: " ++ repr_bytes exif_header) ;;;
    raise SystemExit
  else ret tt.

(** [verify_tiffheader(filehandle)]. *)
Definition verify_tiffheader : M (Z * pyval * pyval) :=
  let* tiff_header := tell in
  let* byte_alignment := read 2 in
  let* testdecoder := ExifDecoder (VBytes byte_alignment) in
  let* b_sample := read 2 in
  let* sample_encoding := decode_bytes testdecoder b_sample in
  (if bool_decide (sample_encoding ≠ VInt 42) then
     print (lit "Sample encoded value: INCORRECT " ++ py_str sample_encoding) ;;;
     raise SystemExit
   else ret tt) ;;;
  let* b_ifd0 := read 4 in
  let* ifd0 := decode_bytes testdecoder b_ifd0 in
  ret (tiff_header, VBytes byte_alignment, ifd0).

(** ** [read_app1_exif]: the IFD chains of an Exif segment *)

(** The integer that [offset_ifd > 0] and [tiff_header + offset_ifd]
    work on: with [None] (or a string) the comparison is a
    [TypeError]. *)
Definition int_operand (v : pyval) : M Z :=
  match v with
  | VInt z => ret z
  | _ => raise TypeError
  end.

(** [while offset_ifd > 0: seek(tiff_header + offset_ifd);
    offset_ifd = read_ifd(...)].  The source has this loop twice, for
    the main chain and for the chain of a dequeued offset.  [fuel]
    bounds the number of iterations. *)
Fixpoint follow_chain (fuel : nat) (tiff_header : Z) (byte_order : pyval)
    (offset_ifd : pyval) : M unit :=
  let* o := int_operand offset_ifd in
  if 0 <? o then
    match fuel with
    | O => out_of_fuel
    | S fuel' =>
        emit (EvReadIfd o) ;;;
        seek_set (tiff_header + o) ;;;
        let* next := read_ifd byte_order in
        emit (EvNext next) ;;;
        follow_chain fuel' tiff_header byte_order next
    end
  else ret tt.

(** [while len(subifd_queue) > 0: offset_ifd = subifd_queue.popleft();
    <follow the chain>]. *)
Fixpoint drain_queue (fuel : nat) (tiff_header : Z) (byte_order : pyval)
  : M unit :=
  fun st =>
    match subifd_queue st with
    | [] => (Ret tt, st)
    | offset_ifd :: rest =>
        match fuel with
        | O => (OutOfFuel, st)
        | S fuel' =>
            (emit (EvPopleft offset_ifd) ;;;
             follow_chain fuel' tiff_header byte_order offset_ifd ;;;
             drain_queue fuel' tiff_header byte_order)
              (set_subifd_queue rest st)
        end
    end.

(** [read_app1_exif(imagefile, seg_offset, meta_dict)]; every loop may
    run [fuel] times. *)
Definition read_app1_exif (fuel : nat) (seg_offset : Z) : M unit :=
  (fun st => (Ret tt, set_subifd_queue [] st)) ;;;   (* deque() *)
  seek_set seg_offset ;;;
  verify_marker (lit "APP1") ;;;
  let* _ := read 2 in
  verify_exifheader ;;;
  let* hdr := verify_tiffheader in
  let '(tiff_header, byte_order, offset_ifd0) := hdr in
  follow_chain fuel tiff_header byte_order offset_ifd0 ;;;
  drain_queue fuel tiff_header byte_order.

End Exif.

(** ** [segment_map]: the segment scanner *)

Definition no_payload_markers : list bytes :=
  [ [xff; x01]; [xff; xd0]; [xff; xd1]; [xff; xd2]; [xff; xd3]; [xff; xd4];
    [xff; xd5]; [xff; xd6]; [xff; xd7]; [xff; xd8]; [xff; xd9] ].

Definition b_xap : bytes := blit "http://ns.adobe.com/xap/1.0/" ++ [x00].
Definition b_xmpext : bytes :=
  blit "http://ns.adobe.com/xmp/extension/" ++ [x00].

(** The [if]/[elif] chain on the APP1 identification string. *)
Definition app1_kind (id_str : bytes) : str :=
  if bool_decide (take 6 id_str = b_Exif00) then lit "APP1-Exif"
  else if bool_decide (take 29 id_str = b_xap) then lit "APP1-XMP"
  else if bool_decide (take 35 id_str = b_xmpext) then lit "APP1-XMPext"
  else lit "APP1-unknown".

(** The [while True] loop of [segment_map]; [fuel] bounds the number of
    iterations. *)
Fixpoint segment_loop (fuel : nat) (segments : list (str * Z))
  : M (list (str * Z)) :=
  match fuel with
  | O => out_of_fuel
  | S fuel' =>
      let* seg_mark := read 2 in
      if bool_decide (length seg_mark < 2)%nat then ret segments
      else
        let seg_id := name (seginfo seg_mark) in
        let* segments :=
          (if bool_decide (seg_id = lit "APP1") then
             let* filepos := tell in
             let* _ := read 2 in
             let* id_str := read 35 in
             let segments := segments ++ [(app1_kind id_str, filepos - 2)] in
             seek_set filepos ;;;
             ret segments
           else
             let* p := tell in
             ret (segments ++ [(seg_id, p - 2)])) in
        if bool_decide (seg_id = lit "EOI") || bool_decide (seg_id = lit "SOS")
        then ret segments
        else if bool_decide (seg_mark ∈ no_payload_markers)
        then segment_loop fuel' segments
        else
          let* dsbytes := read 2 in
          if bool_decide (length dsbytes < 2)%nat then ret segments
          else
            match struct_unpack BigEndian FmtH dsbytes with
            | Some datasize =>
                seek_cur (datasize - 2) ;;;
                segment_loop fuel' segments
            | None => raise StructError
            end
  end.

(** [segment_map(filehandle)].  Every iteration of the loop moves the
    position forward by at least two bytes and the loop ends when fewer
    than two bytes are left, so the length of the file bounds the number
    of iterations ([segment_map_terminates] below). *)
Definition segment_map : M (list (str * Z)) :=
  fun st => (seek_set 2 ;;; segment_loop (S (length (fdata st))) []) st.

(** ** [read_app1_xmp]: the XMP extractor *)

(** [bs.decode('utf8')]: strict UTF-8 (shortest forms only, no
    surrogates, nothing above U+10FFFF); [None] stands for
    [UnicodeDecodeError]. *)
Definition in_range (lo hi c : Z) : bool := (lo <=? c) && (c <=? hi).

Fixpoint utf8_decode (bs : bytes) : option str :=
  match bs with
  | [] => Some []
  | b0 :: r0 =>
      let c0 := byte_val b0 in
      if c0 <? 128 then cons c0 <$> utf8_decode r0
      else
        match r0 with
        | [] => None
        | b1 :: r1 =>
            let c1 := byte_val b1 in
            if in_range 194 223 c0 then
              if in_range 128 191 c1
              then cons ((c0 - 192) * 64 + (c1 - 128)) <$> utf8_decode r1
              else None
            else
              match r1 with
              | [] => None
              | b2 :: r2 =>
                  let c2 := byte_val b2 in
                  if in_range 224 239 c0 then
                    if in_range (if c0 =? 224 then 160 else 128)
                                (if c0 =? 237 then 159 else 191) c1
                       && in_range 128 191 c2
                    then cons ((c0 - 224) * 4096 + (c1 - 128) * 64
                               + (c2 - 128)) <$> utf8_decode r2
                    else None
                  else
                    match r2 with
                    | [] => None
                    | b3 :: r3 =>
                        let c3 := byte_val b3 in
                        if in_range 240 244 c0
                           && in_range (if c0 =? 240 then 144 else 128)
                                       (if c0 =? 244 then 143 else 191) c1
                           && in_range 128 191 c2 && in_range 128 191 c3
                        then cons ((c0 - 240) * 262144 + (c1 - 128) * 4096
                                   + (c2 - 128) * 64 + (c3 - 128))
                               <$> utf8_decode r3
                        else None
                    end
              end
        end
  end.

(** The regular expression [<\?xpacket end=['"]w['"]\?>] with [re.I]:
    literal characters compared ignoring case, and the class of the two
    quote characters. *)
Inductive atom : Type :=
| Ch (c : Z)
| Quote.

(** Lower case, for the code points whose lower case is an ASCII letter
    of the pattern: the capital letters and the Kelvin sign U+212A. *)
Definition fold_case (ch : Z) : Z :=
  if in_range 65 90 ch then ch + 32
  else if ch =? 8490 then 107
  else ch.

Definition atom_match (a : atom) (ch : Z) : bool :=
  match a with
  | Ch c => fold_case ch =? c
  | Quote => (ch =? 39) || (ch =? 34)
  end.

Definition closing_tag_re : list atom :=
  map Ch (lit "<?xpacket end=") ++ [Quote; Ch 119; Quote] ++ map Ch (lit "?>").

Fixpoint match_here (re : list atom) (s : str) : bool :=
  match re, s with
  | [], _ => true
  | a :: re', ch :: s' => atom_match a ch && match_here re' s'
  | _ :: _, [] => false
  end.

(** [re.search(re, s).span()[0]], counting from [i]: the start of the
    leftmost match, if any. *)
Fixpoint re_search (re : list atom) (s : str) (i : Z) : option Z :=
  if match_here re s then Some i
  else
    match s with
    | [] => None
    | _ :: s' => re_search re s' (i + 1)
    end.

(** An element of the tree built by [xml.etree.ElementTree]: its tag
    (in the form [{namespace}name] for a qualified name), its text
    ([None] when the element has no text) and its children. *)
#[local] Unset Elimination Schemes.
Inductive Element : Type :=
| Elem (tag : str) (text : option str) (children : list Element).
#[local] Set Elimination Schemes.

Definition tag (e : Element) : str := let 'Elem t _ _ := e in t.
Definition text (e : Element) : option str := let 'Elem _ x _ := e in x.

(** [element.iter()]: the element and its descendants in document
    order. *)
Fixpoint iter (e : Element) : list Element :=
  match e with
  | Elem _ _ children => e :: concat (map iter children)
  end.

(** [str.isspace] for one code point, and [str.strip()]. *)
Definition isspace (c : Z) : bool :=
  in_range 9 13 c || in_range 28 32 c || (c =? 133) || (c =? 160)
  || (c =? 5760) || in_range 8192 8202 c || (c =? 8232) || (c =? 8233)
  || (c =? 8239) || (c =? 8287) || (c =? 12288).

Fixpoint lstrip (s : str) : str :=
  match s with
  | [] => []
  | c :: s' => if isspace c then lstrip s' else s
  end.

Definition strip (s : str) : str := rev (lstrip (rev (lstrip s))).

(** The regular expression [{(?P<ns>.+)}(?P<tag>.+)], where [.] is any
    character except a newline and [+] is greedy. *)
Fixpoint dot_run (s : str) : str :=
  match s with
  | [] => []
  | c :: s' => if c =? 10 then [] else c :: dot_run s'
  end.

(** A match that starts at an opening brace followed by [run] (which has
    no newline): the group [ns] ends before the last closing brace that
    leaves it and the group [tag] at least one character. *)
Fixpoint split_ns_tag (n : nat) (run : str) : option (str * str) :=
  match n with
  | O => None
  | S n' =>
      if bool_decide (run !! n = Some 125) && bool_decide (S n < length run)%nat
      then Some (take n run, drop (S n) run)
      else split_ns_tag n' run
  end.

Fixpoint search_ns_tag (s : str) : option (str * str) :=
  match s with
  | [] => None
  | c :: s' =>
      match (if c =? 123
             then split_ns_tag (length (dot_run s')) (dot_run s')
             else None) with
      | Some groups => Some groups
      | None => search_ns_tag s'
      end
  end.

(** [xmpns_tagtype(xmp_namespace)]. *)
Definition xmpns_tagtype (xmp_namespace : str) : str :=
  if bool_decide (xmp_namespace = lit "http://www.w3.org/1999/02/22-rdf-syntax-ns#")
  then lit "XMP-RDF"
  else if bool_decide (xmp_namespace = lit "http://ns.adobe.com/tiff/1.0/")
  then lit "XMP-tiff"
  else if bool_decide (xmp_namespace = lit "http://ns.adobe.com/xap/1.0/")
  then lit "XMP-xap"
  else if bool_decide (xmp_namespace = lit "http://ns.adobe.com/exif/1.0/")
  then lit "XMP-exif"
  else if bool_decide (xmp_namespace = lit "http://ns.adobe.com/xap/1.0/mm/")
  then lit "XMP-xap"
  else if bool_decide (xmp_namespace = lit "http://purl.org/dc/elements/1.1/")
  then lit "XMP-dcore"
  else if bool_decide (xmp_namespace = lit "http://ns.adobe.com/photoshop/1.0/")
  then lit "Photoshop"
  else xmp_namespace.

(** [None] or a string, as a value. *)
Definition opt_str (x : option str) : pyval :=
  match x with
  | Some s => VStr s
  | None => VNone
  end.

(** The body of the [for child in ...] loop of [read_app1_xmp]. *)
Definition xmp_child (child : Element) : M unit :=
  let tag_value := opt_str (text child) in
  if bool_decide (strip (py_str tag_value) = []) then ret tt   (* continue *)
  else
    match search_ns_tag (tag child) with
    | Some (xmp_ns, tagname) =>
        dict_set (xmpns_tagtype xmp_ns ++ lit "|" ++ tagname)
          (tag_value, VStr [], VStr [], VInt 1)
    | None => ret tt
    end.

(** [for x in xs: body(x)]. *)
Fixpoint for_each {A} (xs : list A) (body : A -> M unit) : M unit :=
  match xs with
  | [] => ret tt
  | x :: xs' => body x ;;; for_each xs' body
  end.

Section Xmp.

(** [xml.etree.ElementTree.fromstring]: the XML parser of the standard
    library, which is outside the sources; [None] stands for its
    [ParseError]. *)
Variable fromstring : str -> option Element.

(** [read_app1_xmp(imagefile, seg_offset, meta_dict)]. *)
Definition read_app1_xmp (seg_offset : Z) : M unit :=
  seek_set seg_offset ;;;
  verify_marker (lit "APP1") ;;;
  let* b_size := read 2 in
  match struct_unpack BigEndian FmtH b_size with
  | None => raise StructError
  | Some datasize =>
      let* _ := read 29 in
      let payload_size := datasize - 29 - 2 in
      let* app1_payload := read payload_size in
      match utf8_decode app1_payload with
      | None => raise UnicodeDecodeError
      | Some payload_text =>
          match re_search closing_tag_re payload_text 0 with
          | None =>
              print (lit "ERROR: no closing tag found for XMP packet in APP1 segment!")
          | Some start =>
              let closing_tag_pos := start + 2 in
              let xmp_packet :=
                if closing_tag_pos =? 0 then []
                else take (Z.to_nat (closing_tag_pos + 19)) app1_payload in
              match utf8_decode xmp_packet with
              | None => raise UnicodeDecodeError
              | Some xml =>
                  match fromstring xml with
                  | None => raise ParseError
                  | Some root => for_each (iter root) xmp_child
                  end
              end
          end
      end
  end.

End Xmp.

(** ** The other segment readers of [exiferino.py] *)

Definition b_JFIF0 : bytes := blit "JFIF" ++ [x00].
Definition b_JFXX0 : bytes := blit "JFXX" ++ [x00].

(** [verify_jfifheader(filehandle)]. *)
Definition verify_jfifheader : M bytes :=
  let* jfif_header := read 5 in
  if bool_decide (jfif_header ∈ [b_JFIF0; b_JFXX0]) then ret jfif_header
  else
    print (lit "INVALID JFIF header: " ++ repr_bytes jfif_header) ;;;
    raise SystemExit.

(** [struct.unpack('B', bytestr)[0]]. *)
Definition unpack_B (bytestr : bytes) : M Z :=
  match struct_unpack LittleEndian FmtB bytestr with
  | Some v => ret v
  | None => raise StructError
  end.

(** A record of a segment that is not an Exif IFD: the last three
    fields are ['', '', 1]. *)
Definition plain_record (tagdata : pyval) : metarec :=
  (tagdata, VStr [], VStr [], VInt 1).

(** [read_app0_jfif(imagefile, seg_offset, meta_dict)]. *)
Definition read_app0_jfif (seg_offset : Z) : M unit :=
  seek_set seg_offset ;;;
  verify_marker (lit "APP0") ;;;
  let* _ := read 2 in
  let* jfifheader := verify_jfifheader in
  dict_set (lit "JFIF|Identifier") (plain_record (VBytes jfifheader)) ;;;
  let* _ := read 7 in
  let* xthumb_bytestr := read 1 in
  let* xthumb_int := unpack_B xthumb_bytestr in
  dict_set (lit "JFIF|Xthumbnail")
    (plain_record (VStr (str_of_int xthumb_int))) ;;;
  let* ythumb_bytestr := read 1 in
  let* ythumb_int := unpack_B ythumb_bytestr in
  dict_set (lit "JFIF|Ythumbnail")
    (plain_record (VStr (str_of_int ythumb_int))).

(** ['offset = {0}'.format(seg_offset)]. *)
Definition offset_text (seg_offset : Z) : pyval :=
  VStr (lit "offset = " ++ str_of_int seg_offset).

(** [read_app1_xmpext(imagefile, seg_offset, meta_dict)]. *)
Definition read_app1_xmpext (seg_offset : Z) : M unit :=
  seek_set seg_offset ;;;
  verify_marker (lit "APP1") ;;;
  let* _ := read 2 in
  let* _ := read 35 in
  dict_set (lit "XMP-extended|///ToDo") (plain_record (offset_text seg_offset)).

(** [read_app12(imagefile, seg_offset, meta_dict)]. *)
Definition read_app12 (seg_offset : Z) : M unit :=
  seek_set seg_offset ;;;
  verify_marker (lit "APP12") ;;;
  dict_set (lit "APP12|///ToDo") (plain_record (offset_text seg_offset)).

(** [read_app13(imagefile, seg_offset, meta_dict)]. *)
Definition read_app13 (seg_offset : Z) : M unit :=
  seek_set seg_offset ;;;
  verify_marker (lit "APP13") ;;;
  dict_set (lit "APP13|///ToDo") (plain_record (offset_text seg_offset)).

(** ** [readmeta] *)

(** [open(jpg_file, 'rb')]: the handle is on the content of the named
    file, at position 0.  Opening itself (a missing file) is outside the
    model. *)
Definition open_rb (content : bytes) : M unit :=
  fun st =>
    (Ret tt,
     mkState content 0 (stdout st) (meta_dict st) (subifd_queue st) (trace st)).

Section Readmeta.

Variable EXIF_TAGS : gmap str str.
Variable fromstring : str -> option Element.

(** The body of the loop of [readmeta]: one [if] for APP0, then an
    [if]/[elif] chain for the other segments. *)
Definition readmeta_segment (fuel : nat) (segment : str * Z) : M unit :=
  let '(segmark, seg_offset) := segment in
  (if bool_decide (segmark = lit "APP0") then read_app0_jfif seg_offset
   else ret tt) ;;;
  if bool_decide (segmark = lit "APP1-Exif")
  then read_app1_exif EXIF_TAGS fuel seg_offset
  else if bool_decide (segmark = lit "APP1-XMP")
  then read_app1_xmp fromstring seg_offset
  else if bool_decide (segmark = lit "APP1-XMPext")
  then read_app1_xmpext seg_offset
  else if bool_decide (segmark = lit "APP12")
  then read_app12 seg_offset
  else if bool_decide (segmark = lit "APP13")
  then read_app13 seg_offset
  else ret tt.

(** [readmeta(jpg_file)]; [jpg_file] stands for the content of the
    named file, and [fuel] bounds the loops of [read_app1_exif]. *)
Definition readmeta (fuel : nat) (jpg_file : bytes) : M (gmap str metarec) :=
  (fun st => (Ret tt, set_meta_dict ∅ st)) ;;;   (* metadata_list = {} *)
  open_rb jpg_file ;;;
  let* segment_list := segment_map in
  for_each segment_list (readmeta_segment fuel) ;;;
  fun st => (Ret (meta_dict st), st).

End Readmeta.

(** ** [jpegsegments.py] *)

(** The dictionary that [segment_read] returns. *)
Record segdict : Type := SegDict {
  sd_offset : Z;
  sd_segmark : bytes;
  sd_payload : option bytes;
  sd_next_segment : option Z;
  sd_segtype : str;
  sd_has_data : bool;
  sd_has_meta : bool
}.

(** [segment_read(filehandle)]. *)
Definition segment_read : M segdict :=
  let* offset := tell in
  let* segmark := read 2 in
  let segtype_info := seginfo segmark in
  let segdict := fun payload next_segment =>
    SegDict offset segmark payload next_segment (name segtype_info)
      (has_data segtype_info) (has_meta segtype_info) in
  if bool_decide (name segtype_info ∈ [lit "SOS"; lit "EOI"])
  then ret (segdict None None)
  else if negb (has_data segtype_info)
  then ret (segdict None (Some (offset + 2)))
  else
    let* datasize_bytes := read 2 in
    match struct_unpack BigEndian FmtH datasize_bytes with
    | None => raise StructError
    | Some datasize =>
        if has_meta segtype_info then
          let* payload := read (datasize - 2) in
          let* next := tell in
          ret (segdict (Some payload) (Some next))
        else
          seek_cur (datasize - 2) ;;;
          let* next := tell in
          ret (segdict None (Some next))
    end.

(** [if nextseg:] for [None] or an integer. *)
Definition truthy (v : option Z) : bool :=
  match v with
  | Some z => negb (z =? 0)
  | None => false
  end.

(** The [while True] loop of [segment_list]; [fuel] bounds the number
    of iterations. *)
Fixpoint segment_list_loop (fuel : nat) (seg_list : list segdict)
  : M (list segdict) :=
  match fuel with
  | O => out_of_fuel
  | S fuel' =>
      let* seg := segment_read in
      let seg_list := seg_list ++ [seg] in
      let nextseg := sd_next_segment seg in
      if truthy nextseg then
        match nextseg with
        | Some pos => seek_set pos ;;; segment_list_loop fuel' seg_list
        | None => ret seg_list
        end
      else ret seg_list
  end.

(** [segment_list(filename)]; [filename] stands for the content of the
    named file. *)
Definition segment_list (fuel : nat) (filename : bytes) : M (list segdict) :=
  open_rb filename ;;;
  segment_list_loop fuel [].

(** * Vocabulary of the specification *)

(** The definitions below are not part of the program: they name the
    values, states and files that the properties talk about. *)

(** The unsigned 16-bit and 32-bit values of two and four bytes. *)
Definition uint16 (o : byteorder) (b0 b1 : byte) : Z :=
  match o with
  | LittleEndian => byte_val b0 + 256 * byte_val b1
  | BigEndian => 256 * byte_val b0 + byte_val b1
  end.

Definition uint32 (o : byteorder) (b0 b1 b2 b3 : byte) : Z :=
  match o with
  | LittleEndian =>
      byte_val b0 + 256 * byte_val b1 + 65536 * byte_val b2
      + 16777216 * byte_val b3
  | BigEndian =>
      16777216 * byte_val b0 + 65536 * byte_val b1 + 256 * byte_val b2
      + byte_val b3
  end.

Definition invalid_byte_string (bs : bytes) : str :=
  lit "Invalid byte string passed to ExifDecoder: " ++ repr_bytes bs.

Definition empty_state (content : bytes) : state :=
  mkState content 0 [] ∅ [] [].

Definition invalid_endian (bytealign : bytes) : str :=
  lit "WARNING: invalid endian setting in ExifDecoder - "
  ++ repr_bytes bytealign.

(** The bytes that [read(n)] returns in a state. *)
Definition peek (n : nat) (st : state) : bytes :=
  take n (drop (Z.to_nat (fpos st)) (fdata st)).

(** The marker types other than SOI that [verify_marker] knows, with the
    marker each one expects. *)
Definition app_markers : list (str * bytes) :=
  [ (lit "APP0", [xff; xe0]); (lit "APP1", [xff; xe1]);
    (lit "APP2", [xff; xe2]); (lit "APP3", [xff; xe3]);
    (lit "APP12", [xff; xec]); (lit "APP13", [xff; xed]);
    (lit "APP14", [xff; xee]) ].

(** The name recorded for the segment whose marker [mark] was read at
    the position of [st]. *)
Definition seg_kind (st : state) (mark : bytes) : str :=
  if bool_decide (name (seginfo mark) = lit "APP1")
  then app1_kind (peek 35 (set_fpos (fpos st + 4) st))
  else name (seginfo mark).

(** One iteration of the loop of [segment_map], in closed form. *)
Definition segment_step (fuel : nat) (segs : list (str * Z)) (st : state)
  : outcome (list (str * Z)) * state :=
  let mark := peek 2 st in
  let st2 := set_fpos (fpos st + 2) st in
  if bool_decide (length mark < 2)%nat
  then (Ret segs, set_fpos (fpos st + Z.of_nat (length mark)) st)
  else
    let segs' := segs ++ [(seg_kind st mark, fpos st)] in
    if bool_decide (name (seginfo mark) = lit "EOI")
       || bool_decide (name (seginfo mark) = lit "SOS")
    then (Ret segs', st2)
    else if bool_decide (mark ∈ no_payload_markers)
    then segment_loop fuel segs' st2
    else
      let ds := peek 2 st2 in
      if bool_decide (length ds < 2)%nat
      then (Ret segs', set_fpos (fpos st + 2 + Z.of_nat (length ds)) st)
      else segment_loop fuel segs' (set_fpos (fpos st + 2 + be_uint ds) st).

(** A minimal JPEG: SOI, an APP0 segment with a JFIF header, SOS and
    EOI. *)
Definition minimal_jpeg : bytes :=
  [xff; xd8]
  ++ [xff; xe0; x00; x10] ++ blit "JFIF"
     ++ [x00; x01; x01; x00; x00; x48; x00; x48; x00; x00]
  ++ [xff; xda; x00; x02]
  ++ [xff; xd9].

(** A file with one APP1 segment of each kind, and what the scanner
    returns for it. *)
Definition app1_jpeg : bytes :=
  [xff; xd8]
  ++ [xff; xe1; x00; x08] ++ b_Exif00
  ++ [xff; xe1; x00; x1f] ++ b_xap
  ++ [xff; xe1; x00; x25] ++ b_xmpext
  ++ [xff; xe1; x00; x04; x41; x42]
  ++ [xff; xd9].

Definition app1_segments : list (str * Z) :=
  [(lit "APP1-Exif", 2); (lit "APP1-XMP", 12); (lit "APP1-XMPext", 45);
   (lit "APP1-unknown", 84); (lit "EOI", 90)].

(** The rest of the file from the current position. *)
Definition remaining (st : state) : bytes :=
  drop (Z.to_nat (fpos st)) (fdata st).

(** The unsigned value of a byte string under a byte order. *)
Definition uint (o : byteorder) (bs : bytes) : Z :=
  match o with
  | LittleEndian => le_uint bs
  | BigEndian => be_uint bs
  end.

(** A directory entry as it lies in the file: 2 bytes of tag, 2 bytes
    of type, 4 bytes of count and 4 bytes of value. *)
Record ifd_entry : Type := IfdEntry {
  e_tag : bytes;
  e_type : bytes;
  e_count : bytes;
  e_value : bytes
}.

Definition entry_wf (e : ifd_entry) : Prop :=
  length (e_tag e) = 2%nat /\ length (e_type e) = 2%nat
  /\ length (e_count e) = 4%nat /\ length (e_value e) = 4%nat.

Definition entry_bytes (e : ifd_entry) : bytes :=
  e_tag e ++ e_type e ++ e_count e ++ e_value e.

(** The entry's tag is one of the three sub-IFD pointer tags. *)
Definition is_pointer (o : byteorder) (e : ifd_entry) : Prop :=
  uint o (e_tag e) ∈ [34665; 34853; 40965].

#[global] Instance is_pointer_dec o e : Decision (is_pointer o e).
Proof. unfold is_pointer. apply _. Defined.

(** The entry can be rendered: its type is neither BYTE nor SBYTE. *)
Definition renderable (o : byteorder) (e : ifd_entry) : Prop :=
  uint o (e_type e) ≠ 1 /\ uint o (e_type e) ≠ 6.

Section Records.

Variable EXIF_TAGS : gmap str str.

(** The key and the record that [read_ifd] writes for an entry whose
    value is rendered as [x]. *)
Definition entry_key (o : byteorder) (e : ifd_entry) : str :=
  lit "Exif|" ++ exiftag EXIF_TAGS (VInt (uint o (e_tag e))).

Definition entry_record (o : byteorder) (e : ifd_entry) (x : pyval) : metarec :=
  (x, VStr (str_of_int (uint o (e_tag e))), VInt (uint o (e_type e)),
   VInt (uint o (e_count e))).

(** The renderer gives [x] for the value of the entry, whatever the
    state, and leaves the state as it is. *)
Definition rendered (o : byteorder) (e : ifd_entry) (x : pyval) : Prop :=
  forall s,
    exifdata_tostring (e_value e) (VInt (uint o (e_type e))) o s = (Ret x, s).

Definition pointer_value (o : byteorder) (e : ifd_entry) : pyval :=
  VInt (uint o (e_value e)).

(** The records written for the entries [es] that are not pointers, one
    after the other, given the rendered values [xs]. *)
Definition write_records (o : byteorder) (es : list ifd_entry)
    (xs : list pyval) (m : gmap str metarec) : gmap str metarec :=
  foldl (fun m ex => <[entry_key o ex.1 := entry_record o ex.1 ex.2]> m)
    m (zip es xs).

End Records.

(** The byte order that a decoder gets from the byte-order mark of the
    TIFF header. *)
Definition order_of (bo : bytes) : byteorder :=
  if bool_decide (bo = b_II) then LittleEndian else BigEndian.

(** A directory with two entries in little-endian order: a pointer to
    the Exif IFD at offset 26 (tag 34665) and an Orientation entry
    (tag 274, type SHORT) with value 6; no next directory. *)
Definition sample_ifd : bytes :=
  [x02; x00]
  ++ [x69; x87; x04; x00; x01; x00; x00; x00; x1a; x00; x00; x00]
  ++ [x12; x01; x03; x00; x01; x00; x00; x00; x06; x00; x00; x00]
  ++ [x00; x00; x00; x00].

Definition sample_entries : list ifd_entry :=
  [ IfdEntry [x69; x87] [x04; x00] [x01; x00; x00; x00] [x1a; x00; x00; x00];
    IfdEntry [x12; x01] [x03; x00] [x01; x00; x00; x00] [x06; x00; x00; x00] ].

(** Whatever the outcome of [m], its final state is related by [R] to
    the initial one. *)
Definition preserves (R : state -> state -> Prop) {A} (m : M A) : Prop :=
  forall st, R st (snd (m st)).

(** The trace and the queue are as they were. *)
Definition untouched (st st' : state) : Prop :=
  trace st' = trace st /\ subifd_queue st' = subifd_queue st.

(** The same values were appended to the queue and recorded in the
    trace, and nothing else happened to them. *)
Definition appended (st st' : state) : Prop :=
  exists vs,
    trace st' = trace st ++ map EvAppend vs
    /\ subifd_queue st' = subifd_queue st ++ vs.

Abbreviation silent := (preserves untouched).
Abbreviation appending := (preserves appended).

(** Where the reader of an Exif segment is: between two calls of
    [read_ifd], with the offset [offset_ifd] to look at next, or inside
    a call.  [pending] holds the offsets appended to the queue and not
    yet taken from it, oldest first. *)
Inductive walker : Type :=
| Between (offset_ifd : pyval) (pending : list pyval)
| Reading (pending : list pyval).

(** A chain has ended when the offset to look at next is not positive. *)
Definition chain_ended (v : pyval) : bool :=
  match v with
  | VInt z => z <=? 0
  | _ => false
  end.

(** The events that may follow each other:
    - a directory is read only at the positive offset that the chain
      gives;
    - values are appended to the queue only while a directory is read;
    - a value is taken from the queue only when the current chain has
      ended, and it is the oldest pending value; its chain is then the
      current one. *)
Definition walker_step (w : walker) (e : event) : option walker :=
  match w, e with
  | Between (VInt o) pending, EvReadIfd o' =>
      if bool_decide (o' = o) && (0 <? o) then Some (Reading pending)
      else None
  | Reading pending, EvAppend v => Some (Reading (pending ++ [v]))
  | Reading pending, EvNext v => Some (Between v pending)
  | Between cur (oldest :: pending), EvPopleft v =>
      if chain_ended cur && bool_decide (v = oldest)
      then Some (Between v pending)
      else None
  | _, _ => None
  end.

Fixpoint walker_run (w : walker) (t : list event) : option walker :=
  match t with
  | [] => Some w
  | e :: t' =>
      match walker_step w e with
      | Some w' => walker_run w' t'
      | None => None
      end
  end.

(** The events since [base] form a run of the automaton from [w0] that
    ends in [w]. *)
Definition walked (w0 : walker) (base : list event) (st : state) (w : walker)
  : Prop :=
  exists t, trace st = base ++ t /\ walker_run w0 t = Some w.

(** A command keeps the order when, started with an empty queue, the
    events that it adds to the trace form a run of the automaton from
    the start of some main chain, and a normal end leaves the last chain
    ended and nothing pending. *)
Definition keeps_order (m : M unit) : Prop :=
  forall st,
    subifd_queue st = [] ->
    exists ifd0 t w,
      trace (snd (m st)) = trace st ++ t
      /\ walker_run (Between ifd0 []) t = Some w
      /\ (fst (m st) = Ret tt ->
          exists cur, chain_ended cur = true /\ w = Between cur []).

(** An Exif segment whose IFD0 (at offset 8 of the TIFF header) points
    to an Exif IFD (at 38) and to a GPS IFD (at 56); the Exif IFD points
    to an Interoperability IFD (at 68); the GPS IFD has a second
    directory in its chain (at 62). *)
Definition exif_jpeg : bytes :=
  [xff; xd8; xff; xe1; x00; x54] ++ b_Exif00
  ++ [x49; x49; x2a; x00; x08; x00; x00; x00]
  ++ ([x02; x00]
      ++ [x69; x87; x04; x00; x01; x00; x00; x00; x26; x00; x00; x00]
      ++ [x25; x88; x04; x00; x01; x00; x00; x00; x38; x00; x00; x00]
      ++ [x00; x00; x00; x00])
  ++ ([x01; x00]
      ++ [x05; xa0; x04; x00; x01; x00; x00; x00; x44; x00; x00; x00]
      ++ [x00; x00; x00; x00])
  ++ ([x00; x00] ++ [x3e; x00; x00; x00])
  ++ ([x00; x00] ++ [x00; x00; x00; x00])
  ++ ([x00; x00] ++ [x00; x00; x00; x00]).

Definition dc_creator : str := lit "{http://purl.org/dc/elements/1.1/}creator".

(** The line that [read_app1_xmp] prints when it finds no closing tag. *)
Definition no_closing_tag : str :=
  lit "ERROR: no closing tag found for XMP packet in APP1 segment!".

(** An XMP segment whose packet is never closed. *)
Definition open_xmp_jpeg : bytes :=
  [xff; xd8; xff; xe1; x00; x24] ++ b_xap ++ blit "hello".

(** An XMP segment whose payload is the single byte [ff], which is not
    valid UTF-8. *)
Definition undecodable_xmp_jpeg : bytes :=
  [xff; xd8; xff; xe1; x00; x20] ++ b_xap ++ [xff].

(** A closing instruction is found in a payload. *)
Definition closing_tag_found (payload : bytes) : Prop :=
  exists payload_text start,
    utf8_decode payload = Some payload_text
    /\ re_search closing_tag_re payload_text 0 = Some start.

(** ** Vocabulary for the further properties *)

(** The names at which a scan stops. *)
Definition stop_names : list str := [lit "EOI"; lit "SOS"].

(** [scans st out]: what the loop of [segment_map] records from the
    position of [st] on, described without a loop budget.  The scan ends
    when fewer than two bytes are left, at a marker named SOS or EOI, or
    when the size of a segment is cut off; it goes on two bytes further
    after a marker without payload and [2 + size] bytes further after
    any other marker. *)
Inductive scans : state -> list (str * Z) -> Prop :=
| scans_eof st :
    (length (peek 2 st) < 2)%nat ->
    scans st []
| scans_stop st :
    length (peek 2 st) = 2%nat ->
    name (seginfo (peek 2 st)) ∈ stop_names ->
    scans st [(seg_kind st (peek 2 st), fpos st)]
| scans_bare st out :
    length (peek 2 st) = 2%nat ->
    name (seginfo (peek 2 st)) ∉ stop_names ->
    peek 2 st ∈ no_payload_markers ->
    scans (set_fpos (fpos st + 2) st) out ->
    scans st ((seg_kind st (peek 2 st), fpos st) :: out)
| scans_cut st :
    length (peek 2 st) = 2%nat ->
    name (seginfo (peek 2 st)) ∉ stop_names ->
    peek 2 st ∉ no_payload_markers ->
    (length (peek 2 (set_fpos (fpos st + 2) st)) < 2)%nat ->
    scans st [(seg_kind st (peek 2 st), fpos st)]
| scans_framed st out :
    length (peek 2 st) = 2%nat ->
    name (seginfo (peek 2 st)) ∉ stop_names ->
    peek 2 st ∉ no_payload_markers ->
    length (peek 2 (set_fpos (fpos st + 2) st)) = 2%nat ->
    scans (set_fpos
             (fpos st + 2 + be_uint (peek 2 (set_fpos (fpos st + 2) st))) st)
      out ->
    scans st ((seg_kind st (peek 2 st), fpos st) :: out).

(** A segment as it lies in a file: a marker alone, or a marker, the
    two bytes of the size and the body. *)
Inductive segment : Type :=
| Bare (marker : bytes)
| Framed (marker : bytes) (hi lo : byte) (body : bytes).

Definition segment_bytes (s : segment) : bytes :=
  match s with
  | Bare marker => marker
  | Framed marker hi lo body => marker ++ [hi; lo] ++ body
  end.

Definition segment_marker (s : segment) : bytes :=
  match s with
  | Bare marker => marker
  | Framed marker _ _ _ => marker
  end.

(** The segment is one that the scanner steps over: its marker has two
    bytes and is not SOS or EOI; a bare marker is one of the markers
    without payload, a framed one is not, and its size counts the two
    size bytes and the body. *)
Definition segment_wf (s : segment) : Prop :=
  length (segment_marker s) = 2%nat
  /\ (name (seginfo (segment_marker s)) ∉ stop_names)
  /\ match s with
     | Bare marker => marker ∈ no_payload_markers
     | Framed marker hi lo body =>
         (marker ∉ no_payload_markers)
         /\ uint16 BigEndian hi lo = Z.of_nat (length body) + 2
     end.

(** The name under which the scanner records a segment that is followed
    by the bytes [following]. *)
Definition segment_name (s : segment) (following : bytes) : str :=
  match s with
  | Bare marker => name (seginfo marker)
  | Framed marker _ _ body =>
      if bool_decide (marker = [xff; xe1])
      then app1_kind (take 35 (body ++ following))
      else name (seginfo marker)
  end.

(** The entries of the segments [segs] that start at [pos] and are
    followed by [tail]. *)
Fixpoint segment_entries (pos : Z) (segs : list segment) (tail : bytes)
  : list (str * Z) :=
  match segs with
  | [] => []
  | s :: segs' =>
      (segment_name s (concat (map segment_bytes segs') ++ tail), pos)
      :: segment_entries (pos + Z.of_nat (length (segment_bytes s))) segs' tail
  end.

(** What follows the segments: the end of the file (with at most one
    stray byte), or a marker named SOS or EOI and anything after it. *)
Definition tail_ok (tail : bytes) : Prop :=
  (length tail < 2)%nat
  \/ exists a b rest,
       tail = a :: b :: rest /\ name (seginfo [a; b]) ∈ stop_names.

Definition tail_entries (pos : Z) (tail : bytes) : list (str * Z) :=
  match tail with
  | a :: b :: _ => [(name (seginfo [a; b]), pos)]
  | _ => []
  end.

(** A file with a quantisation table, a restart marker, an APP1 segment
    with an Exif identifier, and SOS. *)
Definition sample_segments : list segment :=
  [ Framed [xff; xdb] x00 x04 [x01; x02];
    Bare [xff; xd0];
    Framed [xff; xe1] x00 x08 b_Exif00 ].

Definition sample_jpeg : bytes :=
  [xff; xd8] ++ concat (map segment_bytes sample_segments)
  ++ [xff; xda; x00; x02].

(** What [read_app1_exif] does from the TIFF header on: the header
    check, the main chain of directories and the queued sub-IFDs. *)
Definition exif_ifds (EXIF_TAGS : gmap str str) (fuel : nat) : M unit :=
  let* hdr := verify_tiffheader in
  let '(tiff_header, byte_order, offset_ifd0) := hdr in
  follow_chain EXIF_TAGS fuel tiff_header byte_order offset_ifd0 ;;;
  drain_queue EXIF_TAGS fuel tiff_header byte_order.

(** The names that the scanner gives to the APP1 segments. *)
Definition app1_kinds : list str :=
  [lit "APP1-Exif"; lit "APP1-XMP"; lit "APP1-XMPext"; lit "APP1-unknown"].

(** What [segment_map] says of an entry: its offset is past the SOI
    marker, the two bytes of a marker are there, and the name is the one
    that the marker and, for APP1, the identifier give. *)
Definition entry_of (data : bytes) (e : str * Z) : Prop :=
  let st := empty_state data in
  let at_e := set_fpos e.2 st in
  2 <= e.2
  /\ length (peek 2 at_e) = 2%nat
  /\ e.1 = seg_kind at_e (peek 2 at_e).

(** An APP1 segment with an Exif identifier and a TIFF header in the
    byte order [bo], with the sample [sample] and the offset [ifd0] of
    the first directory, followed by [rest]. *)
Definition exif_segment (bo sample ifd0 rest : bytes) : bytes :=
  [xff; xe1; x00; x10] ++ b_Exif00 ++ bo ++ sample ++ ifd0 ++ rest.

(** The three records that [read_app0_jfif] writes for the header [hdr]
    and the thumbnail sizes [x] and [y]. *)
Definition jfif_records (hdr : bytes) (x y : byte) (m : gmap str metarec)
  : gmap str metarec :=
  <[lit "JFIF|Ythumbnail" := plain_record (VStr (str_of_int (byte_val y)))]>
    (<[lit "JFIF|Xthumbnail" := plain_record (VStr (str_of_int (byte_val x)))]>
       (<[lit "JFIF|Identifier" := plain_record (VBytes hdr)]> m)).

Definition invalid_jfif (hdr : bytes) : str :=
  lit "INVALID JFIF header: " ++ repr_bytes hdr.

(** The names of the segments for which [readmeta] calls a reader, and
    the markers of these segments. *)
Definition dispatched : list str :=
  [lit "APP0"; lit "APP1-Exif"; lit "APP1-XMP"; lit "APP1-XMPext";
   lit "APP12"; lit "APP13"].

Definition metadata_markers : list bytes :=
  [[xff; xe0]; [xff; xe1]; [xff; xec]; [xff; xed]].

(** A segment that [readmeta] passes over. *)
Definition quiet (s : segment) : Prop :=
  segment_marker s ∉ metadata_markers.

(** The state of [readmeta] after [open]: an empty dictionary and the
    handle at the start of the file. *)
Definition opened (jpg_file : bytes) (st : state) : state :=
  mkState jpg_file 0 (stdout st) ∅ (subifd_queue st) (trace st).

(** Segments without metadata: a quantisation table and a restart
    marker; and a comment segment. *)
Definition quiet_segments : list segment :=
  [ Framed [xff; xdb] x00 x04 [x01; x02]; Bare [xff; xd0] ].

Definition comment_segment : segment := Framed [xff; xfe] x00 x03 [x41].

(** The readers that only leave a note, with the key of the note. *)
Definition placeholder_readers : list ((Z -> M unit) * str) :=
  [ (read_app1_xmpext, lit "XMP-extended|///ToDo");
    (read_app12, lit "APP12|///ToDo");
    (read_app13, lit "APP13|///ToDo") ].

(** The names at which [segment_read] ends the list. *)
Definition last_names : list str := [lit "SOS"; lit "EOI"].

(** The dictionary that [segment_read] builds for a segment that
    starts at [pos]. *)
Definition segment_dict (pos : Z) (s : segment) : segdict :=
  let info := seginfo (segment_marker s) in
  SegDict pos (segment_marker s)
    (match s with
     | Framed _ _ _ body => if has_meta info then Some body else None
     | Bare _ => None
     end)
    (Some (pos + Z.of_nat (length (segment_bytes s))))
    (name info) (has_data info) (has_meta info).

Fixpoint segment_dicts (pos : Z) (segs : list segment) : list segdict :=
  match segs with
  | [] => []
  | s :: segs' =>
      segment_dict pos s
      :: segment_dicts (pos + Z.of_nat (length (segment_bytes s))) segs'
  end.

(** The dictionary of the marker at which the list ends. *)
Definition stop_dict (pos : Z) (marker : bytes) : segdict :=
  let info := seginfo marker in
  SegDict pos marker None None (name info) (has_data info) (has_meta info).

(** A segment as [segment_read] steps over it: as for the scanner, and
    a segment with a size has a marker for which [seginfo] says so. *)
Definition segment_known (s : segment) : Prop :=
  segment_wf s
  /\ match s with
     | Bare marker => has_data (seginfo marker) = false
     | Framed marker _ _ _ => has_data (seginfo marker) = true
     end.

(** A file for [segment_list]: SOI, an APP0 segment with the body
    [AB], a quantisation table; EOI follows. *)
Definition listed_segments : list segment :=
  [ Bare [xff; xd8];
    Framed [xff; xe0] x00 x04 [x41; x42];
    Framed [xff; xdb] x00 x03 [x07] ].

(** The tag that the XML parser gives to an element with the name
    [name] in the namespace [ns]: [{ns}name]. *)
Definition qualified (ns name : str) : str := 123 :: ns ++ 125 :: name.

(** The record of an XMP element with the text [t]. *)
Definition xmp_record (t : str) : metarec := (VStr t, VStr [], VStr [], VInt 1).

Definition xap_ns : str := lit "http://ns.adobe.com/xap/1.0/".
Definition xap_mm_ns : str := lit "http://ns.adobe.com/xap/1.0/mm/".

(** * Properties *)

Arguments lit : simpl never.
Arguments blit : simpl never.
Arguments segment_loop : simpl never.

(** Decide the tests on lengths and literals that a proof meets. *)
Ltac bdec :=
  repeat first
    [ rewrite bool_decide_eq_true_2 by (simpl; first [lia | done])
    | rewrite bool_decide_eq_false_2 by (simpl; first [lia | done]) ].

(** ** Formatting examples *)

Example str_of_int_0 : str_of_int 0 = lit "0".
Proof. reflexivity. Qed.

Example str_of_int_65535 : str_of_int 65535 = lit "65535".
Proof. reflexivity. Qed.

Example str_of_int_neg : str_of_int (-120) = lit "-120".
Proof. reflexivity. Qed.

Example repr_bytes_ex :
  repr_bytes [x00; x41; x5c; xff; x0a] = lit "b'\x00A\\\xff\n'".
Proof. reflexivity. Qed.

(** ** The value decoder *)

Lemma byte_val_range (b : byte) : 0 <= byte_val b < 256.
Proof.
  unfold byte_val. pose proof (Byte.to_N_bounded b). lia.
Qed.

Lemma uint16_range o b0 b1 : 0 <= uint16 o b0 b1 < 65536.
Proof.
  pose proof (byte_val_range b0). pose proof (byte_val_range b1).
  destruct o; unfold uint16; lia.
Qed.

Lemma uint32_range o b0 b1 b2 b3 : 0 <= uint32 o b0 b1 b2 b3 < 4294967296.
Proof.
  pose proof (byte_val_range b0). pose proof (byte_val_range b1).
  pose proof (byte_val_range b2). pose proof (byte_val_range b3).
  destruct o; unfold uint32; lia.
Qed.

Lemma decode_bytes_empty o st : decode_bytes o [] st = (Ret (VInt 0), st).
Proof. reflexivity. Qed.

Lemma decode_bytes_2 o b0 b1 st :
  decode_bytes o [b0; b1] st = (Ret (VInt (uint16 o b0 b1)), st).
Proof.
  unfold decode_bytes, struct_unpack, be_uint. bdec.
  destruct o; simpl; unfold ret, uint16; do 3 f_equal; lia.
Qed.

Lemma decode_bytes_4 o b0 b1 b2 b3 st :
  decode_bytes o [b0; b1; b2; b3] st
  = (Ret (VInt (uint32 o b0 b1 b2 b3)), st).
Proof.
  unfold decode_bytes, struct_unpack, be_uint. bdec.
  destruct o; simpl; unfold ret, uint32; do 3 f_equal; lia.
Qed.

Lemma decode_bytes_other o bs st :
  length bs ≠ 0%nat -> length bs ≠ 2%nat -> length bs ≠ 4%nat ->
  decode_bytes o bs st
  = (Ret VNone, set_stdout (stdout st ++ [invalid_byte_string bs]) st).
Proof.
  intros H0 H2 H4. unfold decode_bytes.
  rewrite !bool_decide_eq_false_2 by assumption. reflexivity.
Qed.

(** C4: [decode_bytes] gives 0 for the empty byte string, the unsigned
    16-bit value of a 2-byte string and the unsigned 32-bit value of a
    4-byte string under the decoder's byte order; for any other length
    it prints the message "Invalid byte string passed to ExifDecoder"
    and gives [None], which is not an integer. *)
Theorem decode_bytes_contract (o : byteorder) (st : state) :
  decode_bytes o [] st = (Ret (VInt 0), st)
  /\ (forall b0 b1,
        decode_bytes o [b0; b1] st = (Ret (VInt (uint16 o b0 b1)), st)
        /\ 0 <= uint16 o b0 b1 < 2 ^ 16)
  /\ (forall b0 b1 b2 b3,
        decode_bytes o [b0; b1; b2; b3] st
        = (Ret (VInt (uint32 o b0 b1 b2 b3)), st)
        /\ 0 <= uint32 o b0 b1 b2 b3 < 2 ^ 32)
  /\ (forall bs,
        length bs ≠ 0%nat -> length bs ≠ 2%nat -> length bs ≠ 4%nat ->
        decode_bytes o bs st
        = (Ret VNone, set_stdout (stdout st ++ [invalid_byte_string bs]) st)
        /\ forall z, VNone ≠ VInt z).
Proof.
  split; [apply decode_bytes_empty|].
  split; [intros; split; [apply decode_bytes_2 | apply uint16_range]|].
  split; [intros; split; [apply decode_bytes_4 | apply uint32_range]|].
  intros bs H0 H2 H4. split; [by apply decode_bytes_other | discriminate].
Qed.

Lemma decode_bytes_contract_witness :
  decode_bytes BigEndian [x01; x02; x03] (empty_state [])
  = (Ret VNone,
     set_stdout [lit "Invalid byte string passed to ExifDecoder: b'\x01\x02\x03'"]
       (empty_state [])).
Proof.
  destruct (decode_bytes_contract BigEndian (empty_state []))
    as (_ & _ & _ & H).
  destruct (H [x01; x02; x03]) as [Heq _]; [cbn; lia ..|].
  exact Heq.
Defined.

(** ** The byte order of a decoder *)

Lemma set_byteorder_bytes (bytealign : bytes) (st : state) :
  set_byteorder (VBytes bytealign) None st
  = (Ret (if bool_decide (bytealign = b_II) then LittleEndian else BigEndian),
     if bool_decide (bytealign = b_II \/ bytealign = b_MM) then st
     else set_stdout (stdout st ++ [invalid_endian bytealign]) st).
Proof.
  unfold set_byteorder, bind.
  assert (Hin : VBytes bytealign ∈ [VBytes b_II; VBytes b_MM]
                <-> bytealign = b_II \/ bytealign = b_MM).
  { rewrite !elem_of_cons, elem_of_nil. split.
    - intros [H | [H | []]]; inversion H; auto.
    - intros [-> | ->]; auto. }
  assert (Heq : VBytes bytealign = VBytes b_II <-> bytealign = b_II).
  { split; [by inversion 1 | by intros ->]. }
  rewrite (bool_decide_ext _ _ Hin), (bool_decide_ext _ _ Heq).
  case_bool_decide; reflexivity.
Qed.

Lemma ExifDecoder_bytes (endian : bytes) (st : state) :
  ExifDecoder (VBytes endian) st = set_byteorder (VBytes endian) None st.
Proof. reflexivity. Qed.

(** C9: [set_byteorder] applied to a byte string always returns; it
    selects little-endian decoding exactly for [b'II'] and big-endian
    decoding for every other value; a value that is neither [b'II'] nor
    [b'MM'] only adds a warning line to the output, and a decoder built
    from such a value decodes big-endian. *)
Theorem set_byteorder_never_fails (bytealign : bytes) (st : state) :
  set_byteorder (VBytes bytealign) None st
  = (Ret (if bool_decide (bytealign = b_II) then LittleEndian else BigEndian),
     if bool_decide (bytealign = b_II \/ bytealign = b_MM) then st
     else set_stdout (stdout st ++ [invalid_endian bytealign]) st)
  /\ (bytealign ≠ b_II ->
      exists st',
        ExifDecoder (VBytes bytealign) st = (Ret BigEndian, st')
        /\ forall b0 b1 b2 b3 s,
            decode_bytes BigEndian [b0; b1] s
            = (Ret (VInt (256 * byte_val b0 + byte_val b1)), s)
            /\ decode_bytes BigEndian [b0; b1; b2; b3] s
               = (Ret (VInt (16777216 * byte_val b0 + 65536 * byte_val b1
                             + 256 * byte_val b2 + byte_val b3)), s)).
Proof.
  split; [apply set_byteorder_bytes|].
  intros Hne. eexists. split.
  - rewrite ExifDecoder_bytes, set_byteorder_bytes.
    rewrite (bool_decide_eq_false_2 _ Hne). reflexivity.
  - intros. split; [apply decode_bytes_2 | apply decode_bytes_4].
Qed.

Lemma set_byteorder_never_fails_witness :
  exists st',
    ExifDecoder (VBytes [x58; x59]) (empty_state []) = (Ret BigEndian, st')
    /\ stdout st'
       = [lit "WARNING: invalid endian setting in ExifDecoder - b'XY'"].
Proof.
  destruct (set_byteorder_never_fails [x58; x59] (empty_state []))
    as [Hset Hdec].
  destruct Hdec as (st' & Hinit & _); [discriminate|].
  exists st'. split; [exact Hinit|].
  rewrite ExifDecoder_bytes, Hset in Hinit.
  inversion Hinit. reflexivity.
Defined.

(** C5: the renderer shows SSHORT and SLONG values as unsigned numbers:
    the bytes [ff ff] of an SSHORT give "65535", not "-1", and the bytes
    [ff ff ff ff] of an SLONG give "4294967295", not "-1"; in big-endian
    order the bytes [80 00] of an SSHORT give "32768", not "-32768". *)
Theorem signed_types_rendered_unsigned (st : state) :
  exifdata_tostring [xff; xff; x00; x00] (VInt 8) LittleEndian st
  = (Ret (VStr (lit "65535")), st)
  /\ exifdata_tostring [xff; xff; xff; xff] (VInt 9) LittleEndian st
     = (Ret (VStr (lit "4294967295")), st)
  /\ exifdata_tostring [x80; x00; x00; x00] (VInt 8) BigEndian st
     = (Ret (VStr (lit "32768")), st)
  /\ exifdata_tostring [xff; xff; xff; xfe] (VInt 9) BigEndian st
     = (Ret (VStr (lit "4294967294")), st).
Proof. repeat split. Qed.

(** ** [verify_marker] *)

Lemma read_peek (n : Z) (st : state) :
  0 <= n ->
  read n st
  = (Ret (peek (Z.to_nat n) st),
     set_fpos (fpos st + Z.of_nat (length (peek (Z.to_nat n) st))) st).
Proof.
  intros Hn. unfold read, peek.
  destruct (n <? -1) eqn:E1; [lia|].
  destruct (n <? 0) eqn:E2; [lia|]. reflexivity.
Qed.

Lemma peek_length_full (n : nat) (st : state) :
  0 <= fpos st -> fpos st + Z.of_nat n <= Z.of_nat (length (fdata st)) ->
  length (peek n st) = n.
Proof.
  intros H0 H1. unfold peek. rewrite length_take, length_drop. lia.
Qed.

Lemma mismatch_other (mt mt' : str) (marker expected : bytes) :
  mt ≠ mt' -> mismatch mt mt' marker expected = false.
Proof.
  intros H. unfold mismatch. by rewrite (bool_decide_eq_false_2 _ H).
Qed.

Lemma mismatch_same (mt : str) (marker expected : bytes) :
  mismatch mt mt marker expected = negb (bool_decide (marker = expected)).
Proof.
  unfold mismatch. rewrite bool_decide_eq_true_2 by reflexivity.
  simpl. by rewrite bool_decide_not.
Qed.

Ltac lit_neq := vm_compute; discriminate.

Ltac run_chain :=
  repeat first
    [ rewrite mismatch_other by lit_neq
    | rewrite mismatch_same ].

Lemma verify_marker_app (mt : str) (expected : bytes) (st : state) :
  (mt, expected) ∈ app_markers ->
  let marker := peek 2 st in
  let st_read := set_fpos (fpos st + Z.of_nat (length marker)) st in
  verify_marker mt st
  = (Ret tt,
     if bool_decide (marker = expected) then st_read
     else set_stdout (stdout st ++ [not_found mt marker]) st_read).
Proof.
  intros Hin marker st_read. unfold verify_marker.
  unfold bind at 1. rewrite read_peek by lia.
  change (peek (Z.to_nat 2) st) with marker. fold st_read.
  unfold app_markers in Hin. rewrite !elem_of_cons, elem_of_nil in Hin.
  destruct Hin as [H|[H|[H|[H|[H|[H|[H|[]]]]]]]]; inversion H; subst mt expected;
    (rewrite bool_decide_eq_true_2 by (vm_compute; set_solver));
    unfold bind at 1; unfold ret at 1; run_chain;
    destruct (bool_decide _); reflexivity.
Qed.

Lemma verify_marker_unknown (mt : str) (st : state) :
  mt ∉ known_markertypes ->
  fst (verify_marker mt st) = Raise SystemExit.
Proof.
  intros Hnot. unfold verify_marker.
  unfold bind at 1. rewrite read_peek by lia.
  rewrite (bool_decide_eq_false_2 _ Hnot). reflexivity.
Qed.

Lemma verify_marker_soi (st : state) :
  fst (verify_marker (lit "SOI") st) = Raise SystemExit
  <-> peek 2 st ≠ [xff; xd8].
Proof.
  unfold verify_marker.
  unfold bind at 1. rewrite read_peek by lia.
  rewrite bool_decide_eq_true_2 by (vm_compute; set_solver).
  unfold bind at 1; unfold ret at 1. run_chain.
  case_bool_decide as Hm; simpl.
  - run_chain. simpl. split; [discriminate | tauto].
  - split; [by intros _ | reflexivity].
Qed.



(** ** The segment scanner *)

Lemma bind_Ret {A B} (m : M A) (k : A -> M B) (st st' : state) (a : A) :
  m st = (Ret a, st') -> bind m k st = k a st'.
Proof. intros H. unfold bind. by rewrite H. Qed.

Lemma le_uint_nonneg (bs : bytes) : 0 <= le_uint bs.
Proof.
  induction bs as [|b bs IH]; simpl; [lia|].
  pose proof (byte_val_range b). lia.
Qed.

Lemma be_uint_nonneg (bs : bytes) : 0 <= be_uint bs.
Proof. apply le_uint_nonneg. Qed.

Lemma peek_length_le (n : nat) (st : state) : (length (peek n st) <= n)%nat.
Proof. unfold peek. rewrite length_take. lia. Qed.

(** A short read means that the end of the file was reached. *)
Lemma peek_short_eof (n : nat) (st : state) :
  0 <= fpos st -> (length (peek n st) < n)%nat ->
  Z.of_nat (length (fdata st)) <= fpos st + Z.of_nat (length (peek n st)).
Proof.
  unfold peek. rewrite length_take, length_drop. lia.
Qed.

Lemma peek_past_eof (n : nat) (st : state) :
  Z.of_nat (length (fdata st)) <= fpos st -> peek n st = [].
Proof.
  intros H. unfold peek. rewrite drop_ge by lia. by rewrite take_nil.
Qed.

Lemma segment_loop_step (fuel : nat) (segs : list (str * Z)) (st : state) :
  0 <= fpos st ->
  segment_loop (S fuel) segs st = segment_step fuel segs st.
Proof.
  intros Hpos. unfold segment_step. 
  change (segment_loop (S fuel) segs) with
    (let* seg_mark := read 2 in
      if bool_decide (length seg_mark < 2)%nat then ret segs
      else
        let seg_id := name (seginfo seg_mark) in
        let* segments :=
          (if bool_decide (seg_id = lit "APP1") then
             let* filepos := tell in
             let* _ := read 2 in
             let* id_str := read 35 in
             let segments := segs ++ [(app1_kind id_str, filepos - 2)] in
             seek_set filepos ;;;
             ret segments
           else
             let* p := tell in
             ret (segs ++ [(seg_id, p - 2)])) in
        if bool_decide (seg_id = lit "EOI") || bool_decide (seg_id = lit "SOS")
        then ret segments
        else if bool_decide (seg_mark ∈ no_payload_markers)
        then segment_loop fuel segments
        else
          let* dsbytes := read 2 in
          if bool_decide (length dsbytes < 2)%nat then ret segments
          else
            match struct_unpack BigEndian FmtH dsbytes with
            | Some datasize =>
                seek_cur (datasize - 2) ;;;
                segment_loop fuel segments
            | None => raise StructError
            end).
  unfold bind at 1. rewrite read_peek by lia.
  change (Z.to_nat 2) with 2%nat.
  set (mark := peek 2 st).
  case_bool_decide as Hshort; [reflexivity|].
  assert (Hmark : length mark = 2%nat).
  { pose proof (peek_length_le 2 st). fold mark in H. lia. }
  rewrite Hmark. change (Z.of_nat 2) with 2.
  set (st2 := set_fpos (fpos st + 2) st).
  set (segs' := segs ++ [(seg_kind st mark, fpos st)]).
  assert (Hrec :
    (if bool_decide (name (seginfo mark) = lit "APP1") then
       let* filepos := tell in
       let* _ := read 2 in
       let* id_str := read 35 in
       let segments := segs ++ [(app1_kind id_str, filepos - 2)] in
       seek_set filepos ;;;
       ret segments
     else
       let* p := tell in
       ret (segs ++ [(name (seginfo mark), p - 2)])) st2
    = (Ret segs', st2)).
  { unfold segs', seg_kind. case_bool_decide as Happ1.
    - unfold bind at 1, tell at 1. unfold bind at 1.
      rewrite read_peek by lia. unfold bind at 1.
      rewrite read_peek by lia. change (Z.to_nat 2) with 2%nat.
      change (Z.to_nat 35) with 35%nat.
      set (sz := peek 2 st2).
      set (st3 := set_fpos (fpos st2 + Z.of_nat (length sz)) st2).
      assert (Hid : peek 35 st3 = peek 35 (set_fpos (fpos st + 4) st)).
      { destruct (decide (length sz < 2)%nat) as [Hlt | Hge].
        - pose proof (peek_short_eof 2 st2) as Heof. fold sz in Heof.
          rewrite !peek_past_eof; [reflexivity | simpl in *; lia ..].
        - pose proof (peek_length_le 2 st2) as Hle. fold sz in Hle.
          unfold st3. replace (length sz) with 2%nat by lia.
          unfold peek. simpl. do 3 f_equal. lia. }
      rewrite Hid. unfold bind, seek_set, ret. simpl.
      destruct (fpos st + 2 <? 0) eqn:E; [lia|].
      replace (fpos st + 2 - 2) with (fpos st) by lia. reflexivity.
    - unfold bind, tell, ret. simpl.
      replace (fpos st + 2 - 2) with (fpos st) by lia. reflexivity. }
  etrans; [eapply bind_Ret; exact Hrec|]. cbv beta. clear Hrec.
  destruct (bool_decide (name (seginfo mark) = lit "EOI")
            || bool_decide (name (seginfo mark) = lit "SOS")); [reflexivity|].
  destruct (bool_decide (mark ∈ no_payload_markers)); [reflexivity|].
  unfold bind at 1. rewrite read_peek by (simpl; lia).
  change (Z.to_nat 2) with 2%nat.
  set (ds := peek 2 st2).
  destruct (decide (length ds < 2)%nat) as [Hds | Hds];
    [by rewrite !bool_decide_eq_true_2 by exact Hds|].
  rewrite !bool_decide_eq_false_2 by exact Hds.
  assert (Hlen : length ds = 2%nat).
  { pose proof (peek_length_le 2 st2) as Hle. fold ds in Hle. lia. }
  unfold struct_unpack. rewrite bool_decide_eq_true_2 by exact Hlen.
  unfold bind, seek_cur. simpl.
  pose proof (be_uint_nonneg ds).
  destruct (_ <? 0) eqn:E; [lia|].
  f_equal. unfold set_fpos. simpl. f_equal. lia.
Qed.

(** Evaluate the tests of the goal that are closed terms. *)
Ltac bcomp :=
  repeat match goal with
    | |- context [bool_decide ?P] =>
        let b := eval vm_compute in (bool_decide P) in
        lazymatch b with
        | true => change (bool_decide P) with true
        | false => change (bool_decide P) with false
        end
    end.

(** The loop of [segment_map] returns within its budget: every
    iteration that does not end the loop moves the position forward by
    two bytes or more, and nothing in the loop raises. *)
Lemma segment_loop_terminates (fuel : nat) :
  forall segs st,
    0 <= fpos st -> (1 <= fuel)%nat ->
    Z.of_nat (length (fdata st)) - fpos st < Z.of_nat fuel ->
    exists out, fst (segment_loop fuel segs st) = Ret out.
Proof.
  induction fuel as [|fuel IH]; intros segs st Hpos Hfuel Hlen; [lia|].
  rewrite segment_loop_step by exact Hpos. unfold segment_step.
  destruct (decide (length (peek 2 st) < 2)%nat) as [Hshort | Hfull].
  { rewrite bool_decide_eq_true_2 by exact Hshort. by eexists. }
  rewrite bool_decide_eq_false_2 by exact Hfull.
  assert (Hroom : fpos st + 2 <= Z.of_nat (length (fdata st))).
  { unfold peek in Hfull. rewrite length_take, length_drop in Hfull. lia. }
  destruct (_ || _); [by eexists|].
  destruct (bool_decide (_ ∈ _)).
  { apply IH; simpl; lia. }
  destruct (bool_decide _); [by eexists|].
  pose proof (be_uint_nonneg (peek 2 (set_fpos (fpos st + 2) st))).
  apply IH; simpl; lia.
Qed.

Lemma segment_map_unfold (st : state) :
  segment_map st = segment_loop (S (length (fdata st))) [] (set_fpos 2 st).
Proof. reflexivity. Qed.

(** [segment_map] returns a list for every file. *)
Lemma segment_map_terminates (st : state) :
  exists segs, fst (segment_map st) = Ret segs.
Proof.
  rewrite segment_map_unfold.
  apply segment_loop_terminates; simpl; lia.
Qed.

(** More budget does not change a result. *)
Lemma segment_loop_more_fuel (fuel : nat) :
  forall segs st out st',
    0 <= fpos st ->
    segment_loop fuel segs st = (out, st') -> out ≠ OutOfFuel ->
    segment_loop (S fuel) segs st = (out, st').
Proof.
  induction fuel as [|fuel IH]; intros segs st out st' Hpos Hrun Hout.
  { simpl in Hrun. inversion Hrun. congruence. }
  rewrite segment_loop_step in Hrun by exact Hpos.
  rewrite segment_loop_step by exact Hpos.
  unfold segment_step in *.
  destruct (bool_decide (_ < _)%nat); [exact Hrun|].
  destruct (_ || _); [exact Hrun|].
  destruct (bool_decide (_ ∈ _)).
  { apply IH; [simpl; lia | exact Hrun | exact Hout]. }
  destruct (bool_decide _); [exact Hrun|].
  pose proof (be_uint_nonneg (peek 2 (set_fpos (fpos st + 2) st))).
  apply IH; [simpl; lia | exact Hrun | exact Hout].
Qed.

(** What holds of every recorded segment holds of the result. *)
Lemma segment_loop_invariant (P : str * Z -> Prop) (data : bytes)
    (HP : forall st, fdata st = data -> 0 <= fpos st ->
                     length (peek 2 st) = 2%nat ->
                     P (seg_kind st (peek 2 st), fpos st))
    (fuel : nat) :
  forall segs st out st',
    fdata st = data -> 0 <= fpos st -> Forall P segs ->
    segment_loop fuel segs st = (Ret out, st') -> Forall P out.
Proof.
  induction fuel as [|fuel IH]; intros segs st out st' Hdata Hpos Hsegs Hrun.
  { discriminate. }
  rewrite segment_loop_step in Hrun by exact Hpos. unfold segment_step in Hrun.
  destruct (decide (length (peek 2 st) < 2)%nat) as [Hshort | Hfull].
  { rewrite bool_decide_eq_true_2 in Hrun by exact Hshort.
    inversion Hrun; subst. exact Hsegs. }
  rewrite bool_decide_eq_false_2 in Hrun by exact Hfull.
  assert (Hlen : length (peek 2 st) = 2%nat).
  { pose proof (peek_length_le 2 st). lia. }
  assert (Hsegs' : Forall P (segs ++ [(seg_kind st (peek 2 st), fpos st)])).
  { apply Forall_app. split; [exact Hsegs|].
    apply Forall_cons. split; [by apply HP | apply Forall_nil_2]. }
  destruct (_ || _); [inversion Hrun; subst; exact Hsegs'|].
  destruct (bool_decide (_ ∈ _)).
  { eapply IH; [| | exact Hsegs' | exact Hrun]; simpl; [exact Hdata | lia]. }
  destruct (bool_decide _); [inversion Hrun; subst; exact Hsegs'|].
  pose proof (be_uint_nonneg (peek 2 (set_fpos (fpos st + 2) st))).
  eapply IH; [| | exact Hsegs' | exact Hrun]; simpl; [exact Hdata | lia].
Qed.

Lemma peek_at (n : nat) (st : state) (before found after : bytes) :
  fdata st = before ++ found ++ after ->
  fpos st = Z.of_nat (length before) ->
  length found = n ->
  peek n st = found.
Proof.
  intros Hdata Hpos Hlen. unfold peek. rewrite Hdata, Hpos, Nat2Z.id.
  rewrite drop_app_length. rewrite <- Hlen. apply take_app_length.
Qed.

(** C1 (as the code has it): on a file made of SOI, an APP0 segment of
    any declared length with its payload, and SOS followed by anything
    (EOI included), the scanner returns exactly [APP0, SOS] with their
    offsets: the scan starts after the SOI marker, which is not
    recorded; the SOS segment is recorded and nothing after it. *)
Theorem segment_map_minimal (hi lo : byte) (payload rest : bytes) (st : state) :
  fdata st = [xff; xd8] ++ [xff; xe0; hi; lo] ++ payload ++ [xff; xda] ++ rest ->
  Z.of_nat (length payload) + 2 = uint16 BigEndian hi lo ->
  fst (segment_map st)
  = Ret [(lit "APP0", 2); (lit "SOS", 4 + uint16 BigEndian hi lo)].
Proof.
  intros Hdata Hlen. rewrite segment_map_unfold.
  set (st2 := set_fpos 2 st).
  assert (Hmark : peek 2 st2 = [xff; xe0]).
  { apply (peek_at 2 st2 [xff; xd8] [xff; xe0]
             ([hi; lo] ++ payload ++ [xff; xda] ++ rest)); done. }
  assert (Hsize : peek 2 (set_fpos (fpos st2 + 2) st2) = [hi; lo]).
  { apply (peek_at 2 _ [xff; xd8; xff; xe0] [hi; lo]
             (payload ++ [xff; xda] ++ rest)); done. }
  assert (Hfuel : exists fuel, length (fdata st) = S fuel).
  { rewrite Hdata. simpl. eauto. }
  destruct Hfuel as [fuel ->].
  rewrite segment_loop_step by (simpl; lia). unfold segment_step.
  rewrite Hsize, Hmark. unfold seg_kind. bcomp. cbn [orb].
  assert (Hbe : be_uint [hi; lo] = uint16 BigEndian hi lo).
  { unfold be_uint, uint16. simpl. lia. }
  rewrite Hbe. set (L := uint16 BigEndian hi lo) in *.
  set (st3 := set_fpos (fpos st2 + 2 + L) st2).
  assert (Hsos : peek 2 st3 = [xff; xda]).
  { apply (peek_at 2 st3 ([xff; xd8; xff; xe0; hi; lo] ++ payload)
             [xff; xda] rest).
    - simpl. rewrite Hdata. reflexivity.
    - simpl. lia.
    - reflexivity. }
  rewrite segment_loop_step by (pose proof (uint16_range BigEndian hi lo); simpl; lia).
  unfold segment_step. rewrite Hsos. unfold seg_kind. bcomp. cbn [orb].
  simpl. replace (2 + 2 + L) with (4 + L) by lia. reflexivity.
Qed.

Lemma segment_map_minimal_witness :
  fst (segment_map (empty_state minimal_jpeg))
  = Ret [(lit "APP0", 2); (lit "SOS", 4 + 16)].
Proof.
  apply (segment_map_minimal x00 x10
           (blit "JFIF" ++ [x00; x01; x01; x00; x00; x48; x00; x48; x00; x00])
           [x00; x02; xff; xd9] (empty_state minimal_jpeg)).
  - reflexivity.
  - reflexivity.
Defined.

(** C1 as stated fails: on the minimal JPEG the scanner does not return
    the three segments [SOI, APP0, SOS]. *)
Lemma segment_map_minimal_counterexample :
  ~ exists segs,
      fst (segment_map (empty_state minimal_jpeg)) = Ret segs
      /\ map fst segs = [lit "SOI"; lit "APP0"; lit "SOS"].
Proof.
  intros (segs & Hrun & Hnames).
  assert (Hval : fst (segment_map (empty_state minimal_jpeg))
                 = Ret [(lit "APP0", 2); (lit "SOS", 20)])
    by (vm_compute; reflexivity).
  rewrite Hval in Hrun. inversion Hrun; subst segs.
  vm_compute in Hnames. discriminate.
Qed.

(** *** APP1 segments *)

Lemma assoc_elem_of {V} (key : bytes) (d : list (bytes * V)) (v : V) :
  assoc key d = Some v -> (key, v) ∈ d.
Proof.
  induction d as [|[k w] d IH]; simpl; [discriminate|].
  case_bool_decide as Hk.
  - intros [= ->]. subst k. apply elem_of_cons. by left.
  - intros H. apply elem_of_cons. right. by apply IH.
Qed.

Lemma hexname_length (mark : bytes) :
  length (concat (map hex02 mark)) = (2 * length mark)%nat.
Proof. induction mark as [|b mark IH]; simpl; [reflexivity | lia]. Qed.

(** Only the marker [ff e1] has the name APP1. *)
Lemma seginfo_app1 (mark : bytes) :
  length mark = 2%nat ->
  name (seginfo mark) = lit "APP1" <-> mark = [xff; xe1].
Proof.
  intros Hlen. split; [|intros ->; reflexivity].
  unfold seginfo. destruct (assoc mark segdata) as [info|] eqn:E.
  - apply assoc_elem_of in E. unfold segdata in E.
    rewrite !elem_of_cons, elem_of_nil in E.
    repeat (destruct E as [E | E];
            [inversion E; subst; intros H;
             first [reflexivity | vm_compute in H; discriminate]|]).
    destruct E.
  - simpl. intros H. apply (f_equal length) in H.
    rewrite length_app, hexname_length, Hlen in H.
    vm_compute in H. discriminate.
Qed.

Lemma take_take_le {A} (n m : nat) (l : list A) :
  (n <= m)%nat -> take n (take m l) = take n l.
Proof. intros H. rewrite take_take. f_equal. lia. Qed.

(** The four classes of the identification string exclude each other,
    so that the order of the tests of [app1_kind] does not matter. *)
Lemma app1_kind_spec (id_str : bytes) :
  (take 6 id_str = b_Exif00 -> app1_kind id_str = lit "APP1-Exif")
  /\ (take 29 id_str = b_xap -> app1_kind id_str = lit "APP1-XMP")
  /\ (take 35 id_str = b_xmpext -> app1_kind id_str = lit "APP1-XMPext")
  /\ (take 6 id_str ≠ b_Exif00 -> take 29 id_str ≠ b_xap ->
      take 35 id_str ≠ b_xmpext -> app1_kind id_str = lit "APP1-unknown").
Proof.
  unfold app1_kind. repeat split.
  - intros H. by rewrite bool_decide_eq_true_2 by exact H.
  - intros H.
    assert (H6 : take 6 id_str ≠ b_Exif00).
    { rewrite <- (take_take_le 6 29) by lia. rewrite H. vm_compute. discriminate. }
    rewrite (bool_decide_eq_false_2 _ H6).
    by rewrite bool_decide_eq_true_2 by exact H.
  - intros H.
    assert (H6 : take 6 id_str ≠ b_Exif00).
    { rewrite <- (take_take_le 6 35) by lia. rewrite H. vm_compute. discriminate. }
    assert (H29 : take 29 id_str ≠ b_xap).
    { rewrite <- (take_take_le 29 35) by lia. rewrite H. vm_compute. discriminate. }
    rewrite (bool_decide_eq_false_2 _ H6), (bool_decide_eq_false_2 _ H29).
    by rewrite bool_decide_eq_true_2 by exact H.
  - intros H6 H29 H35.
    by rewrite (bool_decide_eq_false_2 _ H6), (bool_decide_eq_false_2 _ H29),
      (bool_decide_eq_false_2 _ H35).
Qed.

(** C6: every segment that [segment_map] records was read at the
    recorded offset, where a 2-byte marker stands.  When that marker is
    the APP1 marker [ff e1], the recorded name is decided by the
    identification string, the (up to) 35 bytes that follow the marker
    and the 2-byte size: the 6-byte prefix [Exif\0\0] gives APP1-Exif,
    the 29-byte prefix [http://ns.adobe.com/xap/1.0/\0] gives APP1-XMP,
    the 35-byte prefix [http://ns.adobe.com/xmp/extension/\0] gives
    APP1-XMPext, and anything else gives APP1-unknown.  For any other
    marker the name is the one that [seginfo] gives. *)
Theorem app1_kind_by_prefix (st : state) (segs : list (str * Z))
    (kind : str) (offset : Z) :
  fst (segment_map st) = Ret segs ->
  (kind, offset) ∈ segs ->
  let marker := slice (fdata st) offset 2 in
  let probe := slice (fdata st) (offset + 4) 35 in
  0 <= offset /\ length marker = 2%nat
  /\ (marker = [xff; xe1] ->
      (take 6 probe = b_Exif00 -> kind = lit "APP1-Exif")
      /\ (take 29 probe = b_xap -> kind = lit "APP1-XMP")
      /\ (take 35 probe = b_xmpext -> kind = lit "APP1-XMPext")
      /\ (take 6 probe ≠ b_Exif00 -> take 29 probe ≠ b_xap ->
          take 35 probe ≠ b_xmpext -> kind = lit "APP1-unknown"))
  /\ (marker ≠ [xff; xe1] -> kind = name (seginfo marker)).
Proof.
  intros Hrun Hin marker probe.
  set (P := fun e : str * Z =>
    0 <= e.2 /\ length (slice (fdata st) e.2 2) = 2%nat
    /\ e.1 = if bool_decide (slice (fdata st) e.2 2 = [xff; xe1])
             then app1_kind (slice (fdata st) (e.2 + 4) 35)
             else name (seginfo (slice (fdata st) e.2 2))).
  assert (HP : Forall P segs).
  { rewrite segment_map_unfold in Hrun.
    destruct (segment_loop _ _ _) as [out st'] eqn:Hloop.
    simpl in Hrun. subst out.
    eapply (segment_loop_invariant P (fdata st));
      [| | | apply Forall_nil_2 | exact Hloop]; [|reflexivity|simpl; lia].
    intros st1 Hdata Hpos Hlen. unfold P. simpl.
    change (peek 2 st1) with (slice (fdata st1) (fpos st1) 2) in *.
    rewrite <- Hdata. repeat split; [exact Hpos | exact Hlen |].
    unfold seg_kind.
    rewrite (bool_decide_ext _ _ (seginfo_app1 _ Hlen)).
    reflexivity. }
  rewrite Forall_forall in HP. specialize (HP _ Hin).
  destruct HP as (Hoff & Hlen & Hkind). simpl in Hoff, Hlen, Hkind.
  fold marker in Hlen, Hkind. fold probe in Hkind.
  split; [exact Hoff|]. split; [exact Hlen|]. split.
  - intros Hm. rewrite (bool_decide_eq_true_2 _ Hm) in Hkind. subst kind.
    apply app1_kind_spec.
  - intros Hm. by rewrite (bool_decide_eq_false_2 _ Hm) in Hkind.
Qed.

Example segment_map_app1_jpeg :
  fst (segment_map (empty_state app1_jpeg)) = Ret app1_segments.
Proof. vm_compute. reflexivity. Qed.

Lemma app1_kind_by_prefix_witness :
  fst (segment_map (empty_state app1_jpeg)) = Ret app1_segments
  /\ slice app1_jpeg 12 2 = [xff; xe1]
  /\ take 29 (slice app1_jpeg (12 + 4) 35) = b_xap
  /\ (forall kind, (kind, 12) ∈ app1_segments -> kind = lit "APP1-XMP").
Proof.
  assert (Hrun : fst (segment_map (empty_state app1_jpeg)) = Ret app1_segments)
    by (vm_compute; reflexivity).
  split; [exact Hrun|]. split; [reflexivity|]. split; [reflexivity|].
  intros kind Hin.
  destruct (app1_kind_by_prefix (empty_state app1_jpeg) app1_segments kind 12
              Hrun Hin) as (_ & _ & Happ1 & _).
  destruct (Happ1 eq_refl) as (_ & Hxmp & _).
  exact (Hxmp eq_refl).
Defined.

(** ** Reading a directory *)

Lemma read_remaining (n : Z) (bs rest : bytes) (st : state) :
  remaining st = bs ++ rest -> n = Z.of_nat (length bs) ->
  read n st = (Ret bs, set_fpos (fpos st + n) st).
Proof.
  intros Hrem ->. rewrite read_peek by lia. unfold peek.
  fold (remaining st). rewrite Hrem, Nat2Z.id, take_app_length. reflexivity.
Qed.

Lemma remaining_advance (bs rest : bytes) (st : state) (n : Z) :
  0 <= fpos st -> remaining st = bs ++ rest -> n = Z.of_nat (length bs) ->
  remaining (set_fpos (fpos st + n) st) = rest.
Proof.
  intros Hpos Hrem ->. unfold remaining in *. simpl.
  rewrite Z2Nat.inj_add, Nat2Z.id by lia.
  rewrite <- drop_drop, Hrem. apply drop_app_length.
Qed.

Lemma uint_nonneg o bs : 0 <= uint o bs.
Proof. destruct o; [apply le_uint_nonneg | apply be_uint_nonneg]. Qed.

Lemma decode_bytes_len2 o bs st :
  length bs = 2%nat -> decode_bytes o bs st = (Ret (VInt (uint o bs)), st).
Proof.
  intros H. unfold decode_bytes, struct_unpack. rewrite H. bdec.
  destruct o; reflexivity.
Qed.

Lemma decode_bytes_len4 o bs st :
  length bs = 4%nat -> decode_bytes o bs st = (Ret (VInt (uint o bs)), st).
Proof.
  intros H. unfold decode_bytes, struct_unpack. rewrite H. bdec.
  destruct o; reflexivity.
Qed.

(** A value field of four bytes is rendered without any effect, unless
    the type is BYTE (1) or SBYTE (6), for which the renderer raises. *)
Lemma exifdata_tostring_4 (o : byteorder) (v : bytes) (ty : Z) :
  length v = 4%nat -> ty ≠ 1 -> ty ≠ 6 ->
  exists x, forall s, exifdata_tostring v (VInt ty) o s = (Ret x, s).
Proof.
  intros Hlen H1 H6.
  destruct v as [|a [|b [|c [|d [|]]]]]; try discriminate. clear Hlen.
  unfold exifdata_tostring, rational_tostring.
  destruct ty as [|p|p];
    [by exists (VStr (repr_bytes [a; b; c; d])) |
    | by exists (VStr (repr_bytes [a; b; c; d]))].
  repeat (destruct p as [p|p|]; try lia; try (by exists (VStr (repr_bytes [a; b; c; d]))));
    eexists; intros s; unfold bind; simpl;
    rewrite ?decode_bytes_2, ?decode_bytes_4, ?decode_bytes_empty;
    reflexivity.
Qed.

Lemma subifd_tags_spec (t : Z) :
  VInt t ∈ subifd_tags <-> t ∈ [34665; 34853; 40965].
Proof.
  unfold subifd_tags. rewrite !elem_of_cons, !elem_of_nil.
  split; intros [H | [H | [H | []]]]; inversion H; auto.
Qed.

Lemma entry_bytes_length (e : ifd_entry) :
  entry_wf e -> length (entry_bytes e) = 12%nat.
Proof.
  intros (H1 & H2 & H3 & H4). unfold entry_bytes.
  rewrite !length_app. lia.
Qed.

Section ReadIfd.

Variable EXIF_TAGS : gmap str str.

(** The four fields of an entry are read and decoded. *)
Lemma read_ifd_entry_fields (o : byteorder) (e : ifd_entry) (rest : bytes)
    (st : state) :
  0 <= fpos st -> remaining st = entry_bytes e ++ rest -> entry_wf e ->
  read_ifd_entry EXIF_TAGS o st
  = (let exif_tag_no := VInt (uint o (e_tag e)) in
     let data_type := VInt (uint o (e_type e)) in
     let number_of_values := VInt (uint o (e_count e)) in
     let tagdata := e_value e in
     if bool_decide (exif_tag_no ∈ subifd_tags) then
       let* offset := decode_bytes o tagdata in
       queue_append offset
     else
       let tagname := exiftag EXIF_TAGS exif_tag_no in
       let dict_key := lit "Exif|" ++ tagname in
       let* tagvalue := exifdata_tostring tagdata data_type o in
       dict_set dict_key
         (tagvalue, VStr (py_str exif_tag_no), data_type, number_of_values))
      (set_fpos (fpos st + 12) st).
Proof.
  intros Hpos Hrem (Htag & Htype & Hcount & Hvalue).
  unfold entry_bytes in Hrem. rewrite <- !app_assoc in Hrem.
  unfold read_ifd_entry.
  etrans; [eapply bind_Ret, read_remaining; [exact Hrem | by rewrite Htag]|].
  etrans; [eapply bind_Ret, decode_bytes_len2; exact Htag|].
  eapply remaining_advance in Hrem; [|exact Hpos | symmetry; by rewrite Htag].
  etrans; [eapply bind_Ret, read_remaining; [exact Hrem | by rewrite Htype]|].
  etrans; [eapply bind_Ret, decode_bytes_len2; exact Htype|].
  eapply remaining_advance in Hrem;
    [|simpl; lia | symmetry; by rewrite Htype].
  etrans; [eapply bind_Ret, read_remaining; [exact Hrem | by rewrite Hcount]|].
  etrans; [eapply bind_Ret, decode_bytes_len4; exact Hcount|].
  eapply remaining_advance in Hrem;
    [|simpl; lia | symmetry; by rewrite Hcount].
  etrans; [eapply bind_Ret, read_remaining; [exact Hrem | by rewrite Hvalue]|].
  simpl. replace (fpos st + 12) with (fpos st + 2 + 2 + 4 + 4) by lia.
  reflexivity.
Qed.

(** A pointer entry: its offset joins the queue; the dictionary is not
    touched. *)
Lemma read_ifd_entry_pointer (o : byteorder) (e : ifd_entry) (rest : bytes)
    (st : state) :
  0 <= fpos st -> remaining st = entry_bytes e ++ rest -> entry_wf e ->
  is_pointer o e ->
  read_ifd_entry EXIF_TAGS o st
  = (Ret tt,
     set_trace (trace st ++ [EvAppend (pointer_value o e)])
       (set_subifd_queue (subifd_queue st ++ [pointer_value o e])
          (set_fpos (fpos st + 12) st))).
Proof.
  intros Hpos Hrem Hwf Hptr.
  rewrite (read_ifd_entry_fields o e rest st Hpos Hrem Hwf). cbv zeta.
  rewrite bool_decide_eq_true_2 by (by apply subifd_tags_spec).
  destruct Hwf as (_ & _ & _ & Hvalue).
  etrans; [eapply bind_Ret, decode_bytes_len4; exact Hvalue|].
  reflexivity.
Qed.

(** Any other entry: one record is written; the queue is not touched. *)
Lemma read_ifd_entry_record (o : byteorder) (e : ifd_entry) (rest : bytes)
    (st : state) :
  0 <= fpos st -> remaining st = entry_bytes e ++ rest -> entry_wf e ->
  ~ is_pointer o e -> renderable o e ->
  exists x,
    rendered o e x
    /\ read_ifd_entry EXIF_TAGS o st
       = (Ret tt,
          set_meta_dict (<[entry_key EXIF_TAGS o e := entry_record o e x]> (meta_dict st))
            (set_fpos (fpos st + 12) st)).
Proof.
  intros Hpos Hrem Hwf Hptr [Hty1 Hty6].
  rewrite (read_ifd_entry_fields o e rest st Hpos Hrem Hwf). cbv zeta.
  rewrite bool_decide_eq_false_2 by (by rewrite subifd_tags_spec).
  destruct Hwf as (_ & _ & _ & Hvalue).
  destruct (exifdata_tostring_4 o (e_value e) _ Hvalue Hty1 Hty6) as [x Hx].
  exists x. split; [exact Hx|].
  etrans; [eapply bind_Ret, Hx|]. reflexivity.
Qed.

(** The [for] loop of [read_ifd] over the entries [es]. *)
Lemma read_ifd_entries (o : byteorder) (es : list ifd_entry) :
  forall (st : state) (rest : bytes),
    0 <= fpos st ->
    remaining st = concat (map entry_bytes es) ++ rest ->
    Forall entry_wf es ->
    Forall (fun e => is_pointer o e \/ renderable o e) es ->
    exists st' xs,
      for_range (length es) (read_ifd_entry EXIF_TAGS o) st = (Ret tt, st')
      /\ fdata st' = fdata st
      /\ fpos st' = fpos st + 12 * Z.of_nat (length es)
      /\ remaining st' = rest
      /\ stdout st' = stdout st
      /\ subifd_queue st'
         = subifd_queue st ++ map (pointer_value o) (filter (is_pointer o) es)
      /\ trace st'
         = trace st
           ++ map (fun e => EvAppend (pointer_value o e))
                (filter (is_pointer o) es)
      /\ Forall2 (rendered o) (filter (fun e => ~ is_pointer o e) es) xs
      /\ meta_dict st'
         = write_records EXIF_TAGS o (filter (fun e => ~ is_pointer o e) es) xs
             (meta_dict st).
Proof.
  induction es as [|e es IH]; intros st rest Hpos Hrem Hwf Hok.
  { exists st, []. simpl in *. rewrite !app_nil_r.
    repeat split; [lia | exact Hrem | constructor]. }
  apply Forall_cons in Hwf as [Hwf_e Hwf].
  apply Forall_cons in Hok as [Hok_e Hok].
  simpl in Hrem. rewrite <- app_assoc in Hrem.
  assert (Hrem' : remaining (set_fpos (fpos st + 12) st)
                  = concat (map entry_bytes es) ++ rest).
  { eapply remaining_advance; [exact Hpos | exact Hrem |].
    by rewrite entry_bytes_length. }
  destruct (decide (is_pointer o e)) as [Hptr | Hptr].
  - pose proof (read_ifd_entry_pointer o e _ st Hpos Hrem Hwf_e Hptr) as Hstep.
    set (st1 := set_trace _ _) in Hstep.
    destruct (IH st1 rest) as (st' & xs & Hrun & Hdata & Hfpos & Hrest
                               & Hout & Hq & Htr & Hxs & Hmeta);
      [simpl; lia | exact Hrem' | exact Hwf | exact Hok |].
    exists st', xs. simpl length.
    split. { simpl for_range. etrans; [eapply bind_Ret, Hstep|]. exact Hrun. }
    rewrite !filter_cons_True by exact Hptr.
    rewrite !filter_cons_False by tauto.
    simpl in *. rewrite <- !app_assoc in Hq, Htr.
    repeat split; try assumption. lia.
  - destruct Hok_e as [? | Hrend]; [contradiction|].
    destruct (read_ifd_entry_record o e _ st Hpos Hrem Hwf_e Hptr Hrend)
      as (x & Hx & Hstep).
    set (st1 := set_meta_dict _ _) in Hstep.
    destruct (IH st1 rest) as (st' & xs & Hrun & Hdata & Hfpos & Hrest
                               & Hout & Hq & Htr & Hxs & Hmeta);
      [simpl; lia | exact Hrem' | exact Hwf | exact Hok |].
    exists st', (x :: xs). simpl length.
    split. { simpl for_range. etrans; [eapply bind_Ret, Hstep|]. exact Hrun. }
    rewrite !filter_cons_False by exact Hptr.
    rewrite !filter_cons_True by exact Hptr.
    simpl in *.
    repeat split; try assumption; [lia | by constructor].
Qed.


End ReadIfd.


(** ** The order in which the directories of an Exif segment are read *)

(** *** What a call leaves of the trace and of the queue *)

Section Preserves.

Variable R : state -> state -> Prop.
Hypothesis R_refl : forall st, R st st.
Hypothesis R_trans : forall st1 st2 st3, R st1 st2 -> R st2 st3 -> R st1 st3.

Lemma preserves_ret {A} (a : A) : preserves R (ret a).
Proof. intros st. apply R_refl. Qed.

Lemma preserves_raise {A} (e : exn) : preserves R (@raise A e).
Proof. intros st. apply R_refl. Qed.

Lemma preserves_out_of_fuel {A} : preserves R (@out_of_fuel A).
Proof. intros st. apply R_refl. Qed.

Lemma preserves_bind {A B} (m : M A) (k : A -> M B) :
  preserves R m -> (forall a, preserves R (k a)) -> preserves R (bind m k).
Proof.
  intros Hm Hk st. unfold bind. specialize (Hm st).
  destruct (m st) as [[a| e |] st1]; simpl in *; [|exact Hm ..].
  eapply R_trans; [exact Hm | apply Hk].
Qed.

Lemma preserves_for_range (n : nat) (body : M unit) :
  preserves R body -> preserves R (for_range n body).
Proof.
  intros Hbody. induction n as [|n IH]; simpl.
  - apply preserves_ret.
  - apply preserves_bind; [exact Hbody | intros _; exact IH].
Qed.

End Preserves.

Lemma untouched_refl st : untouched st st.
Proof. by split. Qed.

Lemma untouched_trans st1 st2 st3 :
  untouched st1 st2 -> untouched st2 st3 -> untouched st1 st3.
Proof. intros [H1 H2] [H3 H4]. split; congruence. Qed.

Lemma appended_refl st : appended st st.
Proof. exists []. simpl. by rewrite !app_nil_r. Qed.

Lemma appended_trans st1 st2 st3 :
  appended st1 st2 -> appended st2 st3 -> appended st1 st3.
Proof.
  intros (vs & H1 & H2) (ws & H3 & H4). exists (vs ++ ws).
  rewrite H3, H1, H4, H2, map_app, !app_assoc. by split.
Qed.

Lemma untouched_appended st st' : untouched st st' -> appended st st'.
Proof. intros [H1 H2]. exists []. simpl. by rewrite !app_nil_r. Qed.

Lemma silent_appending {A} (m : M A) : silent m -> appending m.
Proof. intros H st. apply untouched_appended, H. Qed.

Lemma silent_read n : silent (read n).
Proof. intros st. unfold read. by repeat destruct (_ <? _). Qed.

Lemma silent_tell : silent tell.
Proof. by intros st. Qed.

Lemma silent_seek_set p : silent (seek_set p).
Proof. intros st. unfold seek_set. by destruct (_ <? _). Qed.

Lemma silent_print line : silent (print line).
Proof. by intros st. Qed.

Lemma silent_dict_set k v : silent (dict_set k v).
Proof. by intros st. Qed.

Lemma appending_queue_append v : appending (queue_append v).
Proof. intros st. by exists [v]. Qed.

(** Split a command along its binds and tests. *)
Ltac silent_step :=
  first
    [ apply preserves_ret; [apply untouched_refl]
    | apply preserves_raise; [apply untouched_refl]
    | apply preserves_bind; [apply untouched_trans | | intros ?]
    | apply silent_read | apply silent_tell | apply silent_seek_set
    | apply silent_print | apply silent_dict_set
    | match goal with
      | |- preserves _ (if ?b then _ else _) => destruct b
      | |- preserves _ (match ?x with _ => _ end) => destruct x
      end ].

Lemma silent_set_byteorder v f : silent (set_byteorder v f).
Proof. unfold set_byteorder. repeat silent_step. Qed.

Lemma silent_ExifDecoder v : silent (ExifDecoder v).
Proof. unfold ExifDecoder. silent_step; [apply silent_set_byteorder | silent_step]. Qed.

Lemma silent_decode_bytes o bs : silent (decode_bytes o bs).
Proof. unfold decode_bytes. repeat silent_step. Qed.

Lemma silent_first_byte bs : silent (first_byte bs).
Proof. unfold first_byte. repeat silent_step. Qed.

Lemma silent_rational_tostring bs o : silent (rational_tostring bs o).
Proof.
  unfold rational_tostring.
  repeat first [apply silent_decode_bytes | silent_step].
Qed.

Lemma silent_exifdata_tostring bs ty o : silent (exifdata_tostring bs ty o).
Proof.
  unfold exifdata_tostring.
  repeat first [apply silent_decode_bytes | apply silent_first_byte
               | apply silent_rational_tostring | silent_step].
Qed.

Lemma silent_verify_marker mt : silent (verify_marker mt).
Proof. unfold verify_marker. repeat silent_step. Qed.

Lemma silent_verify_exifheader : silent verify_exifheader.
Proof. unfold verify_exifheader. repeat silent_step. Qed.

Lemma silent_verify_tiffheader : silent verify_tiffheader.
Proof.
  unfold verify_tiffheader.
  repeat first [apply silent_decode_bytes | apply silent_ExifDecoder
               | silent_step].
Qed.

Ltac appending_step :=
  first
    [ apply preserves_ret; [apply appended_refl]
    | apply preserves_raise; [apply appended_refl]
    | apply preserves_bind; [apply appended_trans | | intros ?]
    | apply appending_queue_append
    | apply silent_appending;
      first [ apply silent_read | apply silent_dict_set
            | apply silent_decode_bytes | apply silent_exifdata_tostring
            | apply silent_ExifDecoder ]
    | match goal with
      | |- preserves _ (if ?b then _ else _) => destruct b
      | |- preserves _ (match ?x with _ => _ end) => destruct x
      end ].

(** *** The walk over the chains, as an automaton on the trace *)

Lemma walker_run_app (w : walker) (t1 t2 : list event) :
  walker_run w (t1 ++ t2)
  = match walker_run w t1 with
    | Some w' => walker_run w' t2
    | None => None
    end.
Proof.
  revert w. induction t1 as [|e t1 IH]; intros w; simpl; [reflexivity|].
  destruct (walker_step w e); [apply IH | reflexivity].
Qed.

Lemma walker_run_appends (pending vs : list pyval) :
  walker_run (Reading pending) (map EvAppend vs)
  = Some (Reading (pending ++ vs)).
Proof.
  revert pending. induction vs as [|v vs IH]; intros pending; simpl.
  - by rewrite app_nil_r.
  - rewrite IH. by rewrite <- app_assoc.
Qed.

Lemma walked_snoc w0 base st st' w w' e :
  walked w0 base st w -> trace st' = trace st ++ [e] ->
  walker_step w e = Some w' -> walked w0 base st' w'.
Proof.
  intros (t & Ht & Hrun) Htr Hstep. exists (t ++ [e]). split.
  - by rewrite Htr, Ht, app_assoc.
  - rewrite walker_run_app, Hrun. simpl. by rewrite Hstep.
Qed.

Lemma walked_appended w0 base st st' pending :
  walked w0 base st (Reading pending) -> appended st st' ->
  exists vs, subifd_queue st' = subifd_queue st ++ vs
             /\ walked w0 base st' (Reading (pending ++ vs)).
Proof.
  intros (t & Ht & Hrun) (vs & Htr & Hq). exists vs. split; [exact Hq|].
  exists (t ++ map EvAppend vs). split.
  - by rewrite Htr, Ht, app_assoc.
  - rewrite walker_run_app, Hrun. apply walker_run_appends.
Qed.

Section ExifOrder.

Variable EXIF_TAGS : gmap str str.

Lemma appending_read_ifd_entry o : appending (read_ifd_entry EXIF_TAGS o).
Proof. unfold read_ifd_entry. repeat appending_step. Qed.

Lemma appending_read_ifd bo : appending (read_ifd EXIF_TAGS bo).
Proof.
  unfold read_ifd, range_count.
  repeat first
    [ apply preserves_for_range;
      [apply appended_refl | apply appended_trans
      | apply appending_read_ifd_entry]
    | appending_step ].
Qed.

Lemma follow_chain_unfold fuel tiff_header byte_order offset_ifd :
  follow_chain EXIF_TAGS fuel tiff_header byte_order offset_ifd
  = (let* o := int_operand offset_ifd in
     if 0 <? o then
       match fuel with
       | O => out_of_fuel
       | S fuel' =>
           emit (EvReadIfd o) ;;;
           seek_set (tiff_header + o) ;;;
           let* next := read_ifd EXIF_TAGS byte_order in
           emit (EvNext next) ;;;
           follow_chain EXIF_TAGS fuel' tiff_header byte_order next
       end
     else ret tt).
Proof. destruct fuel; reflexivity. Qed.

Section Walk.

Variables (w0 : walker) (base : list event).
Variables (tiff_header : Z) (byte_order : pyval).

(** One chain: the run of the automaton goes on, and when the loop ends
    normally the chain has ended. *)
Lemma follow_chain_walked (fuel : nat) :
  forall offset_ifd st out st',
    walked w0 base st (Between offset_ifd (subifd_queue st)) ->
    follow_chain EXIF_TAGS fuel tiff_header byte_order offset_ifd st
    = (out, st') ->
    (exists w, walked w0 base st' w)
    /\ (out = Ret tt ->
        exists cur, chain_ended cur = true
                    /\ walked w0 base st' (Between cur (subifd_queue st'))).
Proof.
  induction fuel as [|fuel IH]; intros off st out st' Hw Hrun;
    rewrite follow_chain_unfold in Hrun;
    (destruct off as [|z|s|b];
     [ inversion Hrun; subst; split; [eauto | discriminate]
     | | inversion Hrun; subst; split; [eauto | discriminate] ..]);
    unfold bind at 1 in Hrun; simpl in Hrun;
    destruct (0 <? z) eqn:Hz;
    try (inversion Hrun; subst; split;
         [eauto | intros _; exists (VInt z); split;
                  [simpl; lia | exact Hw]]; fail).
  - inversion Hrun; subst. split; [eauto | discriminate].
  - unfold bind at 1 in Hrun. simpl in Hrun.
    set (st1 := set_trace (trace st ++ [EvReadIfd z]) st) in Hrun.
    assert (Hw1 : walked w0 base st1 (Reading (subifd_queue st))).
    { eapply walked_snoc; [exact Hw | reflexivity |].
      simpl. rewrite bool_decide_eq_true_2 by reflexivity. rewrite Hz.
      by destruct (subifd_queue st). }
    unfold bind at 1, seek_set in Hrun.
    destruct (tiff_header + z <? 0).
    { inversion Hrun; subst. split; [eauto | discriminate]. }
    set (st2 := set_fpos (tiff_header + z) st1) in Hrun.
    assert (Hw2 : walked w0 base st2 (Reading (subifd_queue st2))) by exact Hw1.
    unfold bind at 1 in Hrun.
    pose proof (appending_read_ifd byte_order st2) as Happ.
    destruct (read_ifd EXIF_TAGS byte_order st2) as [r st3].
    simpl in Happ.
    destruct (walked_appended _ _ _ _ _ Hw2 Happ) as (vs & Hq & Hw3).
    rewrite <- Hq in Hw3.
    destruct r as [next | e |];
      [| inversion Hrun; subst; split; [eauto | discriminate] ..].
    unfold bind at 1 in Hrun. simpl in Hrun.
    set (st4 := set_trace (trace st3 ++ [EvNext next]) st3) in Hrun.
    apply (IH next st4 out st'); [|exact Hrun].
    eapply walked_snoc; [exact Hw3 | reflexivity | reflexivity].
Qed.

Lemma drain_queue_unfold fuel st :
  drain_queue EXIF_TAGS fuel tiff_header byte_order st
  = match subifd_queue st with
    | [] => (Ret tt, st)
    | offset_ifd :: rest =>
        match fuel with
        | O => (OutOfFuel, st)
        | S fuel' =>
            (emit (EvPopleft offset_ifd) ;;;
             follow_chain EXIF_TAGS fuel' tiff_header byte_order offset_ifd ;;;
             drain_queue EXIF_TAGS fuel' tiff_header byte_order)
              (set_subifd_queue rest st)
        end
    end.
Proof. destruct fuel; reflexivity. Qed.

(** The queue: the run of the automaton goes on, and when the loop ends
    normally the last chain has ended and nothing is pending. *)
Lemma drain_queue_walked (fuel : nat) :
  forall cur st out st',
    chain_ended cur = true ->
    walked w0 base st (Between cur (subifd_queue st)) ->
    drain_queue EXIF_TAGS fuel tiff_header byte_order st = (out, st') ->
    (exists w, walked w0 base st' w)
    /\ (out = Ret tt ->
        exists cur', chain_ended cur' = true
                     /\ walked w0 base st' (Between cur' [])).
Proof.
  induction fuel as [|fuel IH]; intros cur st out st' Hcur Hw Hrun;
    rewrite drain_queue_unfold in Hrun;
    destruct (subifd_queue st) as [|v rest] eqn:Hq;
    try (inversion Hrun; subst; split;
         [eauto | intros _; exists cur; split; [exact Hcur | exact Hw]];
         fail).
  - inversion Hrun; subst. split; [eauto | discriminate].
  - unfold bind at 1 in Hrun. simpl in Hrun.
    set (st2 := set_trace (trace st ++ [EvPopleft v])
                  (set_subifd_queue rest st)) in Hrun.
    assert (Hw2 : walked w0 base st2 (Between v (subifd_queue st2))).
    { eapply walked_snoc; [exact Hw | reflexivity |].
      simpl. rewrite Hcur, bool_decide_eq_true_2 by reflexivity.
      by destruct cur. }
    unfold bind at 1 in Hrun.
    destruct (follow_chain EXIF_TAGS fuel tiff_header byte_order v st2)
      as [r st3] eqn:Hchain.
    destruct (follow_chain_walked fuel v st2 r st3 Hw2 Hchain)
      as [Hacc Hdone].
    destruct r as [[] | e |];
      [| inversion Hrun; subst; split; [exact Hacc | discriminate] ..].
    destruct (Hdone eq_refl) as (cur' & Hcur' & Hw3).
    exact (IH cur' st3 out st' Hcur' Hw3 Hrun).
Qed.

End Walk.

Lemma keeps_order_bind {A} (m : M A) (k : A -> M unit) :
  silent m -> (forall a, keeps_order (k a)) -> keeps_order (bind m k).
Proof.
  intros Hm Hk st Hq. unfold bind. destruct (Hm st) as [Htr Hq'].
  destruct (m st) as [[a | e |] st1]; simpl in *.
  - destruct (Hk a st1) as (ifd0 & t & w & H1 & H2 & H3); [congruence|].
    exists ifd0, t, w. rewrite <- Htr. auto.
  - exists VNone, [], (Between VNone []).
    rewrite app_nil_r. repeat split; [done | discriminate].
  - exists VNone, [], (Between VNone []).
    rewrite app_nil_r. repeat split; [done | discriminate].
Qed.

Lemma keeps_order_chains fuel tiff_header byte_order offset_ifd0 :
  keeps_order
    (follow_chain EXIF_TAGS fuel tiff_header byte_order offset_ifd0 ;;;
     drain_queue EXIF_TAGS fuel tiff_header byte_order).
Proof.
  intros st Hq. set (w0 := Between offset_ifd0 []).
  assert (Hw : walked w0 (trace st) st (Between offset_ifd0 (subifd_queue st))).
  { exists []. rewrite app_nil_r, Hq. by split. }
  unfold bind.
  destruct (follow_chain EXIF_TAGS fuel tiff_header byte_order offset_ifd0 st)
    as [r st1] eqn:Hchain.
  destruct (follow_chain_walked w0 (trace st) tiff_header byte_order fuel
              offset_ifd0 st r st1 Hw Hchain) as [Hacc Hdone].
  destruct r as [[] | e |].
  - destruct (Hdone eq_refl) as (cur & Hcur & Hw1).
    destruct (drain_queue EXIF_TAGS fuel tiff_header byte_order st1)
      as [out st2] eqn:Hdrain.
    destruct (drain_queue_walked w0 (trace st) tiff_header byte_order fuel
                cur st1 out st2 Hcur Hw1 Hdrain) as [[w (t & Ht & Hrun)] Hend].
    simpl. exists offset_ifd0, t, w. repeat split; [exact Ht | exact Hrun |].
    intros ->. destruct (Hend eq_refl) as (cur' & Hcur' & (t' & Ht' & Hrun')).
    exists cur'. split; [exact Hcur'|].
    rewrite Ht in Ht'. apply app_inv_head in Ht'. subst t'. congruence.
  - destruct Hacc as [w (t & Ht & Hrun)]. simpl.
    exists offset_ifd0, t, w. repeat split; [exact Ht | exact Hrun | discriminate].
  - destruct Hacc as [w (t & Ht & Hrun)]. simpl.
    exists offset_ifd0, t, w. repeat split; [exact Ht | exact Hrun | discriminate].
Qed.


End ExifOrder.

Example read_app1_exif_trace :
  let r := read_app1_exif ∅ 10 2 (empty_state exif_jpeg) in
  fst r = Ret tt
  /\ trace (snd r)
     = [ EvReadIfd 8; EvAppend (VInt 38); EvAppend (VInt 56); EvNext (VInt 0);
         EvPopleft (VInt 38); EvReadIfd 38; EvAppend (VInt 68);
         EvNext (VInt 0);
         EvPopleft (VInt 56); EvReadIfd 56; EvNext (VInt 62);
         EvReadIfd 62; EvNext (VInt 0);
         EvPopleft (VInt 68); EvReadIfd 68; EvNext (VInt 0) ]
  /\ walker_run (Between (VInt 8) []) (trace (snd r))
     = Some (Between (VInt 0) []).
Proof. vm_compute. repeat split. Qed.

(** ** The XMP extractor *)

Lemma search_ns_tag_dc_creator :
  search_ns_tag dc_creator
  = Some (lit "http://purl.org/dc/elements/1.1/", lit "creator").
Proof. vm_compute. reflexivity. Qed.

(** An element with text gives a record under the category of its
    namespace. *)
Example xmp_child_jane (st : state) :
  xmp_child (Elem dc_creator (Some (lit "Jane")) []) st
  = (Ret tt,
     set_meta_dict
       (<[lit "XMP-dcore|creator" := (VStr (lit "Jane"), VStr [], VStr [], VInt 1)]>
          (meta_dict st)) st).
Proof.
  unfold xmp_child, text, tag.
  rewrite search_ns_tag_dc_creator. bcomp. reflexivity.
Qed.

(** An element whose text is white space only gives no record. *)
Example xmp_child_blank (st : state) :
  xmp_child (Elem dc_creator (Some (lit "   ")) []) st = (Ret tt, st).
Proof. unfold xmp_child, text, tag. bcomp. reflexivity. Qed.

(** C7: an element without text, such as [<dc:creator/>], for which the
    parser gives the text [None], is not skipped: [str(None)] is the
    string "None", which is not empty, and a record with the value
    [None] is written. *)
Theorem xmp_child_without_text_recorded (st : state) :
  xmp_child (Elem dc_creator None []) st
  = (Ret tt,
     set_meta_dict
       (<[lit "XMP-dcore|creator" := (VNone, VStr [], VStr [], VInt 1)]>
          (meta_dict st)) st).
Proof.
  unfold xmp_child, text, tag.
  rewrite search_ns_tag_dc_creator. bcomp. reflexivity.
Qed.

Section XmpProperties.

Variable fromstring : str -> option Element.

(** C8 (as the code has it): for an APP1 segment at [seg_offset] with
    the declared size [datasize], whose payload, the bytes after the
    29-byte identifier, is valid UTF-8 and holds no closing
    [<?xpacket end="w"?>] instruction, [read_app1_xmp] returns
    normally, leaves the dictionary as it was and prints one error
    line. *)
Theorem read_app1_xmp_no_closing_tag (seg_offset : Z) (hi lo : byte)
    (payload_text : str) (st : state) :
  let datasize := uint16 BigEndian hi lo in
  let payload := slice (fdata st) (seg_offset + 33) (datasize - 31) in
  0 <= seg_offset ->
  slice (fdata st) seg_offset 4 = [xff; xe1; hi; lo] ->
  31 <= datasize ->
  utf8_decode payload = Some payload_text ->
  re_search closing_tag_re payload_text 0 = None ->
  let r := read_app1_xmp fromstring seg_offset st in
  fst r = Ret tt
  /\ meta_dict (snd r) = meta_dict st
  /\ stdout (snd r) = stdout st ++ [no_closing_tag].
Proof.
  intros datasize payload Hoff Hhead Hsize Hdecode Hsearch r.
  assert (Heq : exists p,
    read_app1_xmp fromstring seg_offset st
    = (Ret tt, set_stdout (stdout st ++ [no_closing_tag]) (set_fpos p st))).
  { eexists. unfold read_app1_xmp.
    unfold bind at 1, seek_set. destruct (seg_offset <? 0) eqn:E; [lia|]. clear E.
    set (st1 := set_fpos seg_offset st).
    unfold slice in Hhead. change (Z.to_nat 4) with 4%nat in Hhead.
    assert (Hmark : peek 2 st1 = [xff; xe1]).
    { unfold peek, st1. simpl.
      rewrite <- (take_take_le 2 4) by lia. by rewrite Hhead. }
    assert (Hvm : verify_marker (lit "APP1") st1
                  = (Ret tt, set_fpos (seg_offset + 2) st1)).
    { rewrite (verify_marker_app (lit "APP1") [xff; xe1] st1).
      - rewrite Hmark. by rewrite bool_decide_eq_true_2 by reflexivity.
      - unfold app_markers. rewrite !elem_of_cons. right. left. reflexivity. }
    etrans; [eapply bind_Ret, Hvm|].
    set (st2 := set_fpos (seg_offset + 2) st1).
    assert (Hsz : peek 2 st2 = [hi; lo]).
    { unfold peek, st2, st1. simpl.
      replace (Z.to_nat (seg_offset + 2)) with (Z.to_nat seg_offset + 2)%nat by lia.
      rewrite <- drop_drop.
      rewrite <- (take_drop 4 (drop (Z.to_nat seg_offset) (fdata st))) at 1.
      rewrite Hhead. reflexivity. }
    unfold bind at 1. rewrite read_peek by lia.
    change (Z.to_nat 2) with 2%nat. rewrite Hsz.
    assert (Hunpack : struct_unpack BigEndian FmtH [hi; lo] = Some datasize).
    { unfold struct_unpack, be_uint, datasize, uint16. simpl. f_equal. lia. }
    rewrite Hunpack.
    set (st3 := set_fpos _ st2).
    unfold bind at 1. rewrite read_peek by lia.
    change (Z.to_nat 29) with 29%nat.
    set (ident := peek 29 st3).
    set (st4 := set_fpos _ st3).
    unfold bind at 1. rewrite read_peek by lia.
    assert (Hpayload : peek (Z.to_nat (datasize - 29 - 2)) st4 = payload).
    { unfold payload, slice.
      replace (datasize - 29 - 2) with (datasize - 31) by lia.
      destruct (decide (length ident < 29)%nat) as [Hshort | Hfull].
      - pose proof (peek_short_eof 29 st3) as Heof. fold ident in Heof.
        rewrite peek_past_eof by (simpl in *; lia).
        rewrite drop_ge by (simpl in *; lia). by rewrite take_nil.
      - pose proof (peek_length_le 29 st3) as Hle. fold ident in Hle.
        unfold peek, st4. simpl.
        replace (length ident) with 29%nat by lia.
        do 3 f_equal. lia. }
    rewrite Hpayload, Hdecode, Hsearch.
    unfold print. simpl. reflexivity. }
  destruct Heq as [p Heq]. unfold r. rewrite Heq. simpl. auto.
Qed.

End XmpProperties.

Lemma read_app1_xmp_no_closing_tag_witness :
  let r := read_app1_xmp (fun _ => None) 2 (empty_state open_xmp_jpeg) in
  fst r = Ret tt
  /\ meta_dict (snd r) = ∅
  /\ stdout (snd r) = [] ++ [no_closing_tag].
Proof.
  apply (read_app1_xmp_no_closing_tag (fun _ => None) 2 x00 x24 (lit "hello")
           (empty_state open_xmp_jpeg)).
  - lia.
  - reflexivity.
  - vm_compute. discriminate.
  - reflexivity.
  - reflexivity.
Defined.

(** C8 as stated fails: the payload [ff] holds no closing instruction,
    and yet [read_app1_xmp] does not return: it raises
    [UnicodeDecodeError], and prints nothing. *)
Lemma read_app1_xmp_no_closing_tag_counterexample :
  let st := empty_state undecodable_xmp_jpeg in
  let r := read_app1_xmp (fun _ => None) 2 st in
  slice undecodable_xmp_jpeg 35 1 = [xff]
  /\ ~ closing_tag_found [xff]
  /\ ~ (fst r = Ret tt /\ meta_dict (snd r) = meta_dict st
        /\ stdout (snd r) ≠ stdout st)
  /\ fst r = Raise UnicodeDecodeError
  /\ stdout (snd r) = [].
Proof.
  assert (Hrun : fst (read_app1_xmp (fun _ => None) 2
                        (empty_state undecodable_xmp_jpeg))
                 = Raise UnicodeDecodeError) by (vm_compute; reflexivity).
  cbv zeta. split; [reflexivity|]. split.
  { intros (payload_text & start & Hdec & _). vm_compute in Hdec. discriminate. }
  split.
  { intros (Hret & _). rewrite Hrun in Hret. discriminate. }
  split; [exact Hrun | vm_compute; reflexivity].
Qed.

(** * Further properties *)

(** Decide a closed proposition by computation. *)
Ltac decide_closed := apply (bool_decide_unpack _); vm_compute; exact I.

(** ** The scanner, without a loop budget *)

Lemma stop_names_spec (n : str) :
  bool_decide (n = lit "EOI") || bool_decide (n = lit "SOS") = true
  <-> n ∈ stop_names.
Proof.
  unfold stop_names. rewrite !elem_of_cons, elem_of_nil, orb_true_iff.
  rewrite !bool_decide_eq_true. tauto.
Qed.

(** The loop records what [scans] describes. *)
Lemma segment_loop_scans (fuel : nat) :
  forall segs st out st',
    0 <= fpos st ->
    segment_loop fuel segs st = (Ret out, st') ->
    exists tail, out = segs ++ tail /\ scans st tail.
Proof.
  induction fuel as [|fuel IH]; intros segs st out st' Hpos Hrun.
  { discriminate. }
  rewrite segment_loop_step in Hrun by exact Hpos. unfold segment_step in Hrun.
  destruct (decide (length (peek 2 st) < 2)%nat) as [Hshort | Hfull].
  { rewrite bool_decide_eq_true_2 in Hrun by exact Hshort.
    inversion Hrun; subst. exists []. rewrite app_nil_r.
    split; [reflexivity | by apply scans_eof]. }
  rewrite bool_decide_eq_false_2 in Hrun by exact Hfull.
  assert (Hlen : length (peek 2 st) = 2%nat).
  { pose proof (peek_length_le 2 st). lia. }
  destruct (_ || _) eqn:Hstop.
  { inversion Hrun; subst. eexists. split; [reflexivity|].
    apply scans_stop; [exact Hlen | by apply stop_names_spec]. }
  assert (Hnot : name (seginfo (peek 2 st)) ∉ stop_names).
  { rewrite <- stop_names_spec, Hstop. discriminate. }
  destruct (decide (peek 2 st ∈ no_payload_markers)) as [Hbare | Hpay].
  { rewrite bool_decide_eq_true_2 in Hrun by exact Hbare.
    apply IH in Hrun as (tail & -> & Htail); [|simpl; lia].
    eexists. rewrite <- app_assoc. split; [reflexivity|].
    by apply scans_bare. }
  rewrite bool_decide_eq_false_2 in Hrun by exact Hpay.
  destruct (decide (length (peek 2 (set_fpos (fpos st + 2) st)) < 2)%nat)
    as [Hcut | Hsize].
  { rewrite bool_decide_eq_true_2 in Hrun by exact Hcut.
    inversion Hrun; subst. eexists. split; [reflexivity|].
    by apply scans_cut. }
  rewrite bool_decide_eq_false_2 in Hrun by exact Hsize.
  assert (Hlen2 : length (peek 2 (set_fpos (fpos st + 2) st)) = 2%nat).
  { pose proof (peek_length_le 2 (set_fpos (fpos st + 2) st)). lia. }
  pose proof (be_uint_nonneg (peek 2 (set_fpos (fpos st + 2) st))).
  apply IH in Hrun as (tail & -> & Htail); [|simpl; lia].
  eexists. rewrite <- app_assoc. split; [reflexivity|].
  by apply scans_framed.
Qed.

Lemma segment_map_scans (st : state) :
  exists out st',
    segment_map st = (Ret out, st') /\ scans (set_fpos 2 st) out.
Proof.
  destruct (segment_map_terminates st) as [out Hout].
  destruct (segment_map st) as [r st'] eqn:Hrun. simpl in Hout. subst r.
  exists out, st'. split; [reflexivity|].
  rewrite segment_map_unfold in Hrun.
  apply segment_loop_scans in Hrun as (tail & -> & Htail); [|simpl; lia].
  exact Htail.
Qed.

Lemma peek_full_room (n : nat) (st : state) :
  0 <= fpos st -> (0 < n)%nat -> length (peek n st) = n ->
  fpos st + Z.of_nat n <= Z.of_nat (length (fdata st)).
Proof.
  unfold peek. rewrite length_take, length_drop. lia.
Qed.

Lemma scans_offsets (st : state) (out : list (str * Z)) :
  scans st out -> 0 <= fpos st ->
  Forall (fun e => fpos st <= e.2 /\ e.2 + 2 <= Z.of_nat (length (fdata st))) out
  /\ StronglySorted Z.lt (map snd out).
Proof.
  induction 1 as [st Hshort | st Hlen Hstop | st out Hlen Hstop Hbare Hrest IH
                 | st Hlen Hstop Hpay Hcut
                 | st out Hlen Hstop Hpay Hsize Hrest IH]; intros Hpos;
    try (pose proof (peek_full_room 2 st Hpos ltac:(lia) Hlen) as Hroom;
         simpl in Hroom).
  - split; constructor.
  - split; repeat constructor; simpl; lia.
  - destruct IH as [Hall Hsorted]; [simpl; lia|]. simpl in Hall.
    split.
    + constructor; [simpl; lia|].
      eapply Forall_impl; [exact Hall|]. simpl. intros e He. lia.
    + simpl. apply SSorted_cons; [exact Hsorted|].
      apply Forall_map. eapply Forall_impl; [exact Hall|].
      simpl. intros e He. lia.
  - split; repeat constructor; simpl; lia.
  - pose proof (be_uint_nonneg (peek 2 (set_fpos (fpos st + 2) st))) as Hds.
    destruct IH as [Hall Hsorted]; [simpl; lia|]. simpl in Hall.
    split.
    + constructor; [simpl; lia|].
      eapply Forall_impl; [exact Hall|]. simpl. intros e He. lia.
    + simpl. apply SSorted_cons; [exact Hsorted|].
      apply Forall_map. eapply Forall_impl; [exact Hall|].
      simpl. intros e He. lia.
Qed.

(** X1: [segment_map] returns a list for every content of the file and
    every position of the handle: the loop [while True] always comes to
    an end, and nothing in it raises. *)
Theorem segment_map_always_returns (st : state) :
  exists segs st', segment_map st = (Ret segs, st').
Proof.
  destruct (segment_map_scans st) as (out & st' & Hrun & _). eauto.
Qed.

(** X2: the offsets recorded by [segment_map] start at 2 or later, are
    strictly increasing, and each of them has its two marker bytes
    inside the file. *)
Theorem segment_map_offsets (st : state) (segs : list (str * Z)) :
  fst (segment_map st) = Ret segs ->
  Forall (fun e => 2 <= e.2 /\ e.2 + 2 <= Z.of_nat (length (fdata st))) segs
  /\ StronglySorted Z.lt (map snd segs).
Proof.
  intros Hrun. destruct (segment_map_scans st) as (out & st' & Heq & Hscan).
  rewrite Heq in Hrun. simpl in Hrun. inversion Hrun; subst out.
  apply scans_offsets in Hscan; [exact Hscan | simpl; lia].
Qed.

Lemma segment_map_offsets_witness :
  StronglySorted Z.lt (map snd app1_segments)
  /\ Forall (fun e => 2 <= e.2 /\ e.2 + 2 <= Z.of_nat (length app1_jpeg))
       app1_segments.
Proof.
  destruct (segment_map_offsets (empty_state app1_jpeg) app1_segments)
    as [Hall Hsorted].
  - vm_compute. reflexivity.
  - split; [exact Hsorted | exact Hall].
Defined.

Lemma app1_kind_cases (id_str : bytes) :
  app1_kind id_str ∈ [lit "APP1-Exif"; lit "APP1-XMP"; lit "APP1-XMPext";
                      lit "APP1-unknown"].
Proof.
  unfold app1_kind. rewrite !elem_of_cons.
  repeat (destruct (bool_decide _); [tauto|]). tauto.
Qed.

Lemma seg_kind_not_stop (st : state) (mark : bytes) :
  name (seginfo mark) ∉ stop_names -> seg_kind st mark ∉ stop_names.
Proof.
  intros Hname. unfold seg_kind. destruct (bool_decide _); [|exact Hname].
  pose proof (app1_kind_cases (peek 35 (set_fpos (fpos st + 4) st))) as Hk.
  intros Hstop. unfold stop_names in Hstop.
  rewrite !elem_of_cons in Hk. rewrite !elem_of_cons in Hstop.
  destruct Hk as [Hk|[Hk|[Hk|[Hk|Hk]]]];
    [rewrite Hk in Hstop;
     destruct Hstop as [H|[H|H]];
     [vm_compute in H; discriminate ..| by apply elem_of_nil in H] ..
    | by apply elem_of_nil in Hk].
Qed.

Lemma scans_stop_last (st : state) (out : list (str * Z)) :
  scans st out ->
  forall pre e post, out = pre ++ e :: post -> post ≠ [] ->
                     e.1 ∉ stop_names.
Proof.
  induction 1 as [st Hshort | st Hlen Hstop | st out Hlen Hstop Hbare Hrest IH
                 | st Hlen Hstop Hpay Hcut
                 | st out Hlen Hstop Hpay Hsize Hrest IH];
    intros pre e post Heq Hpost.
  - by destruct pre.
  - destruct pre as [|? [|]]; inversion Heq; subst; congruence.
  - destruct pre as [|p pre]; inversion Heq; subst.
    + by apply seg_kind_not_stop.
    + by eapply IH.
  - destruct pre as [|? [|]]; inversion Heq; subst; congruence.
  - destruct pre as [|p pre]; inversion Heq; subst.
    + by apply seg_kind_not_stop.
    + by eapply IH.
Qed.

(** X3: in the list that [segment_map] returns, a segment named SOS or
    EOI can only be the last one: the scan stops there. *)
Theorem segment_map_stops_at_sos_eoi (st : state)
    (pre post : list (str * Z)) (e : str * Z) :
  fst (segment_map st) = Ret (pre ++ e :: post) ->
  e.1 = lit "SOS" \/ e.1 = lit "EOI" ->
  post = [].
Proof.
  intros Hrun Hname.
  destruct (segment_map_scans st) as (out & st' & Heq & Hscan).
  rewrite Heq in Hrun. simpl in Hrun. inversion Hrun; subst out.
  destruct post as [|p post]; [reflexivity|]. exfalso.
  eapply (scans_stop_last _ _ Hscan pre e (p :: post)); [reflexivity | done |].
  unfold stop_names. rewrite !elem_of_cons. tauto.
Qed.

Lemma segment_map_stops_at_sos_eoi_witness :
  drop 2 (match fst (segment_map (empty_state minimal_jpeg)) with
          | Ret segs => segs
          | _ => []
          end)
  = [].
Proof.
  apply (segment_map_stops_at_sos_eoi (empty_state minimal_jpeg)
           [(lit "APP0", 2)] _ (lit "SOS", 20)).
  - vm_compute. reflexivity.
  - left. reflexivity.
Defined.

(** ** The scanner on a well-formed file *)

Lemma peek_remaining (n : nat) (st : state) : peek n st = take n (remaining st).
Proof. reflexivity. Qed.

Lemma scans_functional (st : state) (out1 : list (str * Z)) :
  scans st out1 -> forall out2, scans st out2 -> out1 = out2.
Proof.
  induction 1 as [st Hshort | st Hlen Hstop | st out Hlen Hstop Hbare Hrest IH
                 | st Hlen Hstop Hpay Hcut
                 | st out Hlen Hstop Hpay Hsize Hrest IH];
    intros out2 H2; inversion H2; subst;
    try reflexivity; try lia; try contradiction.
  - f_equal. by apply IH.
  - f_equal. by apply IH.
Qed.

Lemma stop_not_app1 (mark : bytes) :
  name (seginfo mark) ∈ stop_names -> name (seginfo mark) ≠ lit "APP1".
Proof.
  unfold stop_names. rewrite !elem_of_cons, elem_of_nil.
  intros [H | [H | []]] Happ; rewrite Happ in H; vm_compute in H; discriminate.
Qed.

Lemma bare_not_app1 (mark : bytes) :
  mark ∈ no_payload_markers -> name (seginfo mark) ≠ lit "APP1".
Proof.
  unfold no_payload_markers. rewrite !elem_of_cons, elem_of_nil.
  intros H. repeat (destruct H as [-> | H]; [vm_compute; discriminate|]).
  destruct H.
Qed.

Lemma scans_wellformed (tail : bytes) (segs : list segment) :
  forall st,
    0 <= fpos st ->
    remaining st = concat (map segment_bytes segs) ++ tail ->
    Forall segment_wf segs -> tail_ok tail ->
    scans st
      (segment_entries (fpos st) segs tail
       ++ tail_entries
            (fpos st + Z.of_nat (length (concat (map segment_bytes segs))))
            tail).
Proof.
  induction segs as [|s segs IH]; intros st Hpos Hrem Hwf Htail.
  - simpl in *. rewrite Z.add_0_r.
    destruct Htail as [Hshort | Hstop].
    + assert (Hte : tail_entries (fpos st) tail = []).
      { destruct tail as [|a [|b tail]]; simpl in *; [done | done | lia]. }
      rewrite Hte. apply scans_eof. rewrite peek_remaining, Hrem, length_take. lia.
    + destruct Hstop as (a & b & rest & -> & Hstop).
      simpl tail_entries.
      assert (Hpeek : peek 2 st = [a; b]) by (by rewrite peek_remaining, Hrem).
      replace (name (seginfo [a; b])) with (seg_kind st (peek 2 st)).
      * apply scans_stop; rewrite Hpeek; [reflexivity | exact Hstop].
      * rewrite Hpeek. unfold seg_kind.
        by rewrite bool_decide_eq_false_2 by (by apply stop_not_app1).
  - apply Forall_cons in Hwf as [(Hlen & Hnostop & Hs) Hwf].
    simpl map in *. simpl concat in *. rewrite <- app_assoc in Hrem.
    rewrite length_app, Nat2Z.inj_add, Z.add_assoc.
    destruct s as [marker | marker hi lo body]; simpl in Hlen, Hnostop, Hs.
    + simpl segment_bytes in *.
      assert (Hpeek : peek 2 st = marker).
      { rewrite peek_remaining, Hrem, <- Hlen. apply take_app_length. }
      simpl segment_entries. simpl segment_name. rewrite Hlen.
      replace (name (seginfo marker)) with (seg_kind st (peek 2 st)).
      2:{ rewrite Hpeek. unfold seg_kind.
          by rewrite bool_decide_eq_false_2 by (by apply bare_not_app1). }
      apply scans_bare; rewrite ?Hpeek; try done.
      apply (IH (set_fpos (fpos st + 2) st)); try done; [simpl; lia|].
      eapply remaining_advance; [exact Hpos | exact Hrem | by rewrite Hlen].
    + destruct Hs as [Hpay Hsize].
      assert (Hbe : be_uint [hi; lo] = Z.of_nat (length body) + 2).
      { rewrite <- Hsize. unfold be_uint, uint16. simpl. lia. }
      assert (Hnext : fpos st
                      + Z.of_nat (length (segment_bytes (Framed marker hi lo body)))
                      = fpos st + 2 + be_uint [hi; lo]).
      { rewrite Hbe. simpl. rewrite length_app, Hlen. simpl. lia. }
      cbn [segment_entries]. rewrite <- app_comm_cons, !Hnext.
      simpl segment_bytes in Hrem. rewrite <- !app_assoc in Hrem.
      assert (Hpeek : peek 2 st = marker).
      { rewrite peek_remaining, Hrem, <- Hlen. apply take_app_length. }
      pose proof (remaining_advance _ _ st 2 Hpos Hrem
                    ltac:(by rewrite Hlen)) as Hrem2.
      simpl in Hrem2.
      assert (Hpeek2 : peek 2 (set_fpos (fpos st + 2) st) = [hi; lo]).
      { by rewrite peek_remaining, Hrem2. }
      pose proof (remaining_advance [hi; lo] _ (set_fpos (fpos st + 2) st) 2
                    ltac:(simpl; lia) Hrem2 eq_refl) as Hrem4.
      simpl in Hrem4.
      change (remaining (set_fpos (fpos st + 2 + 2) st)
              = body ++ concat (map segment_bytes segs) ++ tail) in Hrem4.
      replace (segment_name (Framed marker hi lo body)
                 (concat (map segment_bytes segs) ++ tail))
        with (seg_kind st (peek 2 st)).
      2:{ rewrite Hpeek. unfold seg_kind, segment_name.
          rewrite (bool_decide_ext _ _ (seginfo_app1 marker Hlen)).
          destruct (bool_decide _); [|reflexivity].
          f_equal. rewrite peek_remaining.
          replace (fpos st + 4) with (fpos st + 2 + 2) by lia.
          by rewrite Hrem4. }
      rewrite <- Hpeek2.
      pose proof (be_uint_nonneg (peek 2 (set_fpos (fpos st + 2) st))) as Hnn.
      apply scans_framed; rewrite ?Hpeek, ?Hpeek2; try done.
      rewrite <- Hpeek2.
      apply (IH (set_fpos
                   (fpos st + 2 + be_uint (peek 2 (set_fpos (fpos st + 2) st)))
                   st)); try done; [simpl; lia|].
      rewrite Hpeek2, Hbe.
      replace (fpos st + 2 + (Z.of_nat (length body) + 2))
        with (fpos (set_fpos (fpos st + 2 + 2) st)
              + Z.of_nat (length body)) by (simpl; lia).
      eapply (remaining_advance body _ (set_fpos (fpos st + 2 + 2) st));
        [simpl; lia | exact Hrem4 | reflexivity].
Qed.

(** X4: on a file made of two leading bytes, any number of well-formed
    segments (markers without payload alone, the others with a
    big-endian size that counts itself and the body) and then either the
    end of the file or an SOS or EOI marker, [segment_map] returns one
    entry per segment, in order, with the offset of its marker, and one
    entry for the SOS or EOI marker; what comes after that marker is not
    looked at.  An APP1 segment is named after the first 35 bytes that
    follow its size, which may reach into the next segments. *)
Theorem segment_map_wellformed (soi tail : bytes) (segs : list segment)
    (st : state) :
  length soi = 2%nat ->
  fdata st = soi ++ concat (map segment_bytes segs) ++ tail ->
  Forall segment_wf segs ->
  tail_ok tail ->
  fst (segment_map st)
  = Ret (segment_entries 2 segs tail
         ++ tail_entries
              (2 + Z.of_nat (length (concat (map segment_bytes segs)))) tail).
Proof.
  intros Hsoi Hdata Hwf Htail.
  destruct (segment_map_scans st) as (out & st' & Hrun & Hscan).
  rewrite Hrun. simpl. f_equal.
  eapply scans_functional; [exact Hscan|].
  apply (scans_wellformed tail segs (set_fpos 2 st)); try done.
  unfold remaining. simpl. rewrite Hdata.
  change (Z.to_nat 2) with 2%nat. rewrite <- Hsoi. apply drop_app_length.
Qed.

Lemma segment_map_wellformed_witness :
  fst (segment_map (empty_state sample_jpeg))
  = Ret [(lit "DQT", 2); (lit "RST0", 8); (lit "APP1-Exif", 10);
         (lit "SOS", 20)].
Proof.
  apply (segment_map_wellformed [xff; xd8] [xff; xda; x00; x02]
           sample_segments (empty_state sample_jpeg)).
  - reflexivity.
  - reflexivity.
  - unfold sample_segments.
    repeat (apply Forall_cons; split;
            [unfold segment_wf; simpl; repeat split; decide_closed|]).
    apply Forall_nil_2.
  - right. exists xff, xda, [x00; x02]. split; [reflexivity|].
    unfold stop_names. rewrite !elem_of_cons. right. left. reflexivity.
Defined.

(** X5: a file of fewer than four bytes, such as one cut off right
    after the SOI marker, gives the empty list of segments. *)
Theorem segment_map_short_file (st : state) :
  (length (fdata st) < 4)%nat ->
  fst (segment_map st) = Ret [].
Proof.
  intros Hlen.
  destruct (segment_map_scans st) as (out & st' & Hrun & Hscan).
  rewrite Hrun. simpl. f_equal.
  eapply scans_functional; [exact Hscan|].
  apply scans_eof. unfold peek. simpl.
  rewrite length_take, length_drop. change (Z.to_nat 2) with 2%nat. lia.
Qed.

Lemma segment_map_short_file_witness :
  fst (segment_map (empty_state [xff; xd8; xff])) = Ret [].
Proof.
  apply segment_map_short_file. simpl. lia.
Defined.

(** ** The table of [seginfo] *)

Lemma seginfo_known (marker : bytes) (info : segment_info) :
  assoc marker segdata = Some info -> seginfo marker = info.
Proof. intros H. unfold seginfo. by rewrite H. Qed.

Lemma seginfo_unknown (marker : bytes) :
  assoc marker segdata = None ->
  seginfo marker
  = SegInfo (concat (map hex02 marker) ++ lit "?") false false.
Proof. intros H. unfold seginfo. by rewrite H. Qed.

(** Go through the rows of the table. *)
Ltac table_rows H tac :=
  unfold segdata in H; rewrite !elem_of_cons, elem_of_nil in H;
  repeat (destruct H as [H | H]; [inversion H; subst; clear H; tac|]);
  destruct H.

(** X6: for the markers of its table, [seginfo] says "no payload"
    ([has_data] is [False]) exactly for the markers that [segment_map]
    lists as having none.  The two functions part on a marker outside
    the table: [seginfo] gives it [has_data = False], but it is not in
    the list of [segment_map], which therefore reads a size after it. *)
Theorem seginfo_payload_table (marker : bytes) :
  (assoc marker segdata ≠ None ->
   (has_data (seginfo marker) = false <-> marker ∈ no_payload_markers))
  /\ (assoc marker segdata = None ->
      has_data (seginfo marker) = false /\ marker ∉ no_payload_markers).
Proof.
  split.
  - destruct (assoc marker segdata) as [info|] eqn:E; [intros _ | done].
    rewrite (seginfo_known _ _ E). apply assoc_elem_of in E.
    table_rows E
      ltac:(simpl; split; intros H;
            first [ reflexivity | decide_closed | discriminate
                  | exfalso; revert H; decide_closed ]).
  - intros E. rewrite (seginfo_unknown _ E). split; [reflexivity|].
    intros Hin. unfold no_payload_markers in Hin.
    rewrite !elem_of_cons, elem_of_nil in Hin.
    repeat (destruct Hin as [-> | Hin]; [vm_compute in E; discriminate|]).
    destruct Hin.
Qed.

Lemma seginfo_payload_table_witness :
  (has_data (seginfo [xff; xd8]) = false <-> [xff; xd8] ∈ no_payload_markers)
  /\ has_data (seginfo [xff; x02]) = false
  /\ [xff; x02] ∉ no_payload_markers.
Proof.
  split.
  - apply (proj1 (seginfo_payload_table [xff; xd8])). vm_compute. discriminate.
  - apply (proj2 (seginfo_payload_table [xff; x02])). vm_compute. reflexivity.
Defined.

Lemma byte_val_inj (a b : byte) : byte_val a = byte_val b -> a = b.
Proof.
  unfold byte_val. intros H. apply N2Z.inj in H.
  pose proof (Byte.of_to_N a) as Ha. pose proof (Byte.of_to_N b) as Hb.
  rewrite H in Ha. congruence.
Qed.

(** X7: the segments that [seginfo] marks as carrying metadata are
    exactly the sixteen application segments: the markers [ff e0] to
    [ff ef], named APP0 to APP15; each of them also has a payload. *)
Theorem seginfo_has_meta (marker : bytes) :
  has_meta (seginfo marker) = true
  <-> exists b, marker = [xff; b] /\ 224 <= byte_val b <= 239
                /\ name (seginfo marker)
                   = lit "APP" ++ str_of_int (byte_val b - 224)
                /\ has_data (seginfo marker) = true.
Proof.
  split.
  - destruct (assoc marker segdata) as [info|] eqn:E.
    + rewrite (seginfo_known _ _ E). apply assoc_elem_of in E.
      table_rows E
        ltac:(simpl; intros H;
              first [ discriminate
                    | eexists; split; [reflexivity|];
                      split; [vm_compute; split; discriminate|];
                      split; reflexivity ]).
    + rewrite (seginfo_unknown _ E). discriminate.
  - intros (b & -> & Hb & _).
    assert (Hcases : b ∈ [xe0; xe1; xe2; xe3; xe4; xe5; xe6; xe7;
                          xe8; xe9; xea; xeb; xec; xed; xee; xef]).
    { destruct b; unfold byte_val in Hb; simpl in Hb; try lia;
        rewrite !elem_of_cons; tauto. }
    rewrite !elem_of_cons, elem_of_nil in Hcases.
    repeat (destruct Hcases as [-> | Hcases]; [reflexivity|]).
    destruct Hcases.
Qed.

Lemma seginfo_has_meta_witness :
  has_meta (seginfo [xff; xed]) = true
  /\ name (seginfo [xff; xed]) = lit "APP13".
Proof.
  split; [reflexivity|].
  destruct (proj1 (seginfo_has_meta [xff; xed]) eq_refl)
    as (b & Hb & _ & Hname & _).
  inversion Hb; subst b. exact Hname.
Defined.

Lemma digit_char_inj (d e : Z) :
  0 <= d < 16 -> 0 <= e < 16 -> digit_char d = digit_char e -> d = e.
Proof.
  unfold digit_char. intros Hd He.
  destruct (d <? 10) eqn:E1; destruct (e <? 10) eqn:E2; lia.
Qed.

Lemma hex02_inj (a b : byte) : hex02 a = hex02 b -> a = b.
Proof.
  unfold hex02. intros H. inversion H as [[Hhi Hlo]].
  assert (Hq : forall c : byte, 0 <= byte_val c / 16 < 16).
  { intros c. pose proof (byte_val_range c).
    split; [apply Z.div_pos | apply Z.div_lt_upper_bound]; lia. }
  assert (Hr : forall c : byte, 0 <= byte_val c mod 16 < 16).
  { intros c. apply Z.mod_pos_bound. lia. }
  apply digit_char_inj in Hhi; [|apply Hq ..].
  apply digit_char_inj in Hlo; [|apply Hr ..].
  apply byte_val_inj.
  rewrite (Z.div_mod (byte_val a) 16), (Z.div_mod (byte_val b) 16) by lia.
  by rewrite Hhi, Hlo.
Qed.

Lemma hexname_inj (m1 : bytes) :
  forall m2, concat (map hex02 m1) = concat (map hex02 m2) -> m1 = m2.
Proof.
  induction m1 as [|a m1 IH]; intros [|b m2] H; simpl in H;
    try reflexivity; try discriminate.
  inversion H as [[H1 H2 H3]]. f_equal.
  - apply hex02_inj. unfold hex02. by rewrite H1, H2.
  - by apply IH.
Qed.

Lemma known_name_no_question (marker : bytes) (info : segment_info) :
  (marker, info) ∈ segdata -> last (name info) ≠ Some 63.
Proof.
  intros E. table_rows E ltac:(vm_compute; discriminate).
Qed.

Lemma known_names_distinct (m1 m2 : bytes) (i1 i2 : segment_info) :
  (m1, i1) ∈ segdata -> (m2, i2) ∈ segdata -> name i1 = name i2 -> m1 = m2.
Proof.
  intros E1 E2 Hname.
  assert (Hnodup : NoDup (map (fun r => name r.2) segdata)) by decide_closed.
  apply list_elem_of_lookup in E1 as [k1 Hk1].
  apply list_elem_of_lookup in E2 as [k2 Hk2].
  assert (k1 = k2).
  { eapply (NoDup_lookup _ k1 k2 (name i1)); [exact Hnodup | |].
    - by rewrite list_lookup_fmap, Hk1.
    - by rewrite list_lookup_fmap, Hk2, Hname. }
  subst k2. congruence.
Qed.

(** X8: the name that [seginfo] gives identifies the marker: two byte
    strings with the same name are equal.  The names of the table are
    all different and none ends in a question mark; the name of any
    other byte string is its hexadecimal form followed by a question
    mark. *)
Theorem seginfo_name_inj (m1 m2 : bytes) :
  name (seginfo m1) = name (seginfo m2) -> m1 = m2.
Proof.
  destruct (assoc m1 segdata) as [i1|] eqn:E1;
    destruct (assoc m2 segdata) as [i2|] eqn:E2;
    rewrite ?(seginfo_known _ _ E1), ?(seginfo_known _ _ E2),
      ?(seginfo_unknown _ E1), ?(seginfo_unknown _ E2); simpl; intros H.
  - apply assoc_elem_of in E1, E2. by eapply known_names_distinct.
  - apply assoc_elem_of in E1. exfalso.
    apply (known_name_no_question _ _ E1). rewrite H.
    change (lit "?") with [63]. by rewrite last_snoc.
  - apply assoc_elem_of in E2. exfalso.
    apply (known_name_no_question _ _ E2). rewrite <- H.
    change (lit "?") with [63]. by rewrite last_snoc.
  - apply app_inv_tail in H. by apply hexname_inj.
Qed.

Lemma seginfo_name_inj_witness :
  name (seginfo (take 2 [xff; xda; x00])) = name (seginfo [xff; xda])
  /\ take 2 [xff; xda; x00] = [xff; xda].
Proof.
  split; [reflexivity|].
  apply seginfo_name_inj. reflexivity.
Defined.

(** ** The renderer *)

(** Compute the slices of explicit byte strings. *)
Ltac eval_slices :=
  repeat match goal with
    | |- context [slice ?l ?a ?n] =>
        let v := eval cbv [slice Z.to_nat Pos.to_nat Pos.iter_op Init.Nat.add
                             firstn skipn] in (slice l a n) in
        progress change (slice l a n) with v
    end.


(** X10: RATIONAL (type 5) and SRATIONAL (type 10) values are shown as
    "numerator/denominator", two unsigned 32-bit numbers taken from
    bytes 0-3 and 4-7.  When the field has only four bytes, as every
    field that [read_ifd] passes has, the denominator is decoded from an
    empty byte string and the text ends in "/0". *)
Theorem exifdata_tostring_rational (o : byteorder) (st : state) (ty : Z) :
  ty = 5 \/ ty = 10 ->
  (forall b0 b1 b2 b3 b4 b5 b6 b7 rest,
     exifdata_tostring (b0 :: b1 :: b2 :: b3 :: b4 :: b5 :: b6 :: b7 :: rest)
       (VInt ty) o st
     = (Ret (VStr (str_of_int (uint32 o b0 b1 b2 b3) ++ lit "/"
                   ++ str_of_int (uint32 o b4 b5 b6 b7))), st))
  /\ (forall b0 b1 b2 b3,
        exifdata_tostring [b0; b1; b2; b3] (VInt ty) o st
        = (Ret (VStr (str_of_int (uint32 o b0 b1 b2 b3) ++ lit "/0")), st)).
Proof.
  intros [-> | ->]; unfold exifdata_tostring, rational_tostring, bind;
    split; intros; eval_slices;
    rewrite ?decode_bytes_4, ?decode_bytes_empty; reflexivity.
Qed.

Lemma exifdata_tostring_rational_witness :
  exifdata_tostring [x48; x00; x00; x00; x01; x00; x00; x00] (VInt 5)
    LittleEndian (empty_state [])
  = (Ret (VStr (lit "72/1")), empty_state [])
  /\ exifdata_tostring [x48; x00; x00; x00] (VInt 5) LittleEndian
       (empty_state [])
     = (Ret (VStr (lit "72/0")), empty_state []).
Proof.
  destruct (exifdata_tostring_rational LittleEndian (empty_state []) 5
              (or_introl eq_refl)) as [H8 H4].
  split; [apply H8 | apply H4].
Defined.

(** X11: ASCII (type 2) values: every byte gives one character, the
    byte with its top bit cleared, so all characters are below 128 and
    bytes below 128 are kept; the terminating null byte, if any, is kept
    as a character too. *)
Theorem exifdata_tostring_ascii (o : byteorder) (stored_bytes : bytes)
    (st : state) :
  exists s,
    exifdata_tostring stored_bytes (VInt 2) o st = (Ret (VStr s), st)
    /\ length s = length stored_bytes
    /\ forall i b, stored_bytes !! i = Some b ->
                   s !! i = Some (byte_val b mod 128)
                   /\ (byte_val b < 128 -> s !! i = Some (byte_val b)).
Proof.
  eexists. split; [reflexivity|]. split; [by rewrite length_map|].
  intros i b Hb. rewrite list_lookup_fmap, Hb. simpl.
  change 127 with (Z.ones 7). rewrite Z.land_ones by lia.
  change (2 ^ 7) with 128. split; [reflexivity|].
  intros Hlt. pose proof (byte_val_range b).
  by rewrite Z.mod_small by lia.
Qed.

(** X12: BYTE (type 1) values are rendered only when the field has
    exactly one byte; any other length raises [struct.error].  SBYTE
    (type 6) never renders: an empty field raises [IndexError], any
    other one [TypeError].  UNDEFINED (type 7) gives the first byte as a
    number, not as a string, and [IndexError] for an empty field. *)
Theorem exifdata_tostring_byte_types (o : byteorder) (stored_bytes : bytes)
    (st : state) :
  exifdata_tostring stored_bytes (VInt 1) o st
  = (match stored_bytes with
     | [b] => Ret (VStr (str_of_int (byte_val b)))
     | _ => Raise StructError
     end, st)
  /\ exifdata_tostring stored_bytes (VInt 6) o st
     = (match stored_bytes with
        | [] => Raise IndexError
        | _ => Raise TypeError
        end, st)
  /\ exifdata_tostring stored_bytes (VInt 7) o st
     = (match stored_bytes with
        | [] => Raise IndexError
        | b :: _ => Ret (VInt (byte_val b))
        end, st).
Proof.
  unfold exifdata_tostring, first_byte, bind, struct_unpack.
  destruct stored_bytes as [|b [|c rest]]; repeat split; simpl.
  unfold ret. replace (byte_val b + 256 * 0) with (byte_val b) by lia. reflexivity.
Qed.

(** X13: for a type that is none of 1 to 10, and for [None] (a type
    field that could not be decoded), the field is shown as the [repr]
    of its bytes, [b'...'], without any decoding. *)
Theorem exifdata_tostring_unknown_type (o : byteorder) (stored_bytes : bytes)
    (datatype : pyval) (st : state) :
  (forall ty, datatype = VInt ty -> ty < 1 \/ 10 < ty) ->
  exifdata_tostring stored_bytes datatype o st
  = (Ret (VStr (repr_bytes stored_bytes)), st).
Proof.
  intros Hty. unfold exifdata_tostring.
  destruct datatype as [|ty|s|b]; try reflexivity.
  specialize (Hty ty eq_refl).
  destruct ty as [|p|p]; try reflexivity.
  repeat (destruct p as [p|p|]; try reflexivity; try lia).
Qed.

Lemma exifdata_tostring_unknown_type_witness :
  exifdata_tostring [x41; x00] VNone BigEndian (empty_state [])
  = (Ret (VStr (lit "b'A\x00'")), empty_state []).
Proof.
  apply exifdata_tostring_unknown_type. discriminate.
Defined.

Lemma exifdata_tostring_ascii_witness :
  exists s,
    exifdata_tostring [x41; xc1; x00] (VInt 2) LittleEndian (empty_state [])
    = (Ret (VStr s), empty_state [])
    /\ s !! 1%nat = Some 65.
Proof.
  destruct (exifdata_tostring_ascii LittleEndian [x41; xc1; x00]
              (empty_state [])) as (s & Hrun & _ & Hchars).
  exists s. split; [exact Hrun|].
  destruct (Hchars 1%nat xc1 eq_refl) as [Hmod _]. exact Hmod.
Defined.

(** ** Directories at the end of the file *)

Lemma read_at_eof (n : Z) (st : state) :
  0 <= n -> Z.of_nat (length (fdata st)) <= fpos st ->
  read n st = (Ret [], st).
Proof.
  intros Hn Heof. rewrite read_peek by exact Hn.
  rewrite peek_past_eof by exact Heof. simpl.
  destruct st. unfold set_fpos. simpl. f_equal. f_equal. lia.
Qed.

Section IfdEdges.

Variable EXIF_TAGS : gmap str str.

(** The state after [ExifDecoder(bo)]: a warning is printed for a byte
    order that is neither [b'II'] nor [b'MM']. *)
Lemma ExifDecoder_order (bo : bytes) (st : state) :
  exists st0,
    ExifDecoder (VBytes bo) st = (Ret (order_of bo), st0)
    /\ fdata st0 = fdata st /\ fpos st0 = fpos st
    /\ meta_dict st0 = meta_dict st /\ subifd_queue st0 = subifd_queue st
    /\ trace st0 = trace st
    /\ stdout st0
       = stdout st ++ (if bool_decide (bo = b_II \/ bo = b_MM) then []
                       else [invalid_endian bo]).
Proof.
  rewrite ExifDecoder_bytes, set_byteorder_bytes. eexists. split; [reflexivity|].
  destruct (bool_decide (bo = b_II \/ bo = b_MM)); simpl;
    rewrite ?app_nil_r; repeat split.
Qed.

(** X14: a directory offset at or past the end of the file is read as an
    empty directory without successor: [read_ifd] returns 0 there and
    changes neither the dictionary nor the queue, so the chain that led
    there ends without any error. *)
Theorem read_ifd_past_eof (bo : bytes) (st : state) :
  Z.of_nat (length (fdata st)) <= fpos st ->
  exists st',
    read_ifd EXIF_TAGS (VBytes bo) st = (Ret (VInt 0), st')
    /\ meta_dict st' = meta_dict st
    /\ subifd_queue st' = subifd_queue st
    /\ fpos st' = fpos st
    /\ forall fuel tiff_header,
         follow_chain EXIF_TAGS fuel tiff_header (VBytes bo) (VInt 0) st'
         = (Ret tt, st').
Proof.
  intros Heof.
  destruct (ExifDecoder_order bo st)
    as (st0 & Hinit & Hdata & Hpos & Hmeta & Hq & _ & _).
  exists st0. split.
  - unfold read_ifd.
    etrans; [eapply bind_Ret, Hinit|].
    etrans; [eapply bind_Ret, read_at_eof; [lia | by rewrite Hdata, Hpos]|].
    etrans; [eapply bind_Ret, decode_bytes_empty|].
    etrans; [eapply bind_Ret; reflexivity|]. simpl for_range.
    etrans; [eapply bind_Ret; reflexivity|].
    etrans; [eapply bind_Ret, read_at_eof; [lia | by rewrite Hdata, Hpos]|].
    apply decode_bytes_empty.
  - repeat split; try assumption. intros fuel th. by destruct fuel.
Qed.

(** X15: when exactly one byte of the directory is left in the file,
    the count cannot be decoded: the decoder prints its message and
    gives [None], and [range(None)] raises [TypeError]; nothing is
    written. *)
Theorem read_ifd_one_byte_left (bo : bytes) (b : byte) (st : state) :
  0 <= fpos st ->
  remaining st = [b] ->
  exists st',
    read_ifd EXIF_TAGS (VBytes bo) st = (Raise TypeError, st')
    /\ meta_dict st' = meta_dict st
    /\ subifd_queue st' = subifd_queue st
    /\ last (stdout st') = Some (invalid_byte_string [b]).
Proof.
  intros Hpos Hrem.
  destruct (ExifDecoder_order bo st)
    as (st0 & Hinit & Hdata & Hpos0 & Hmeta & Hq & _ & _).
  assert (Hread : read 2 st0 = (Ret [b], set_fpos (fpos st0 + 1) st0)).
  { rewrite read_peek by lia. unfold peek.
    change (drop (Z.to_nat (fpos st0)) (fdata st0)) with (remaining st0).
    replace (remaining st0) with (remaining st)
      by (unfold remaining; by rewrite Hdata, Hpos0).
    rewrite Hrem. reflexivity. }
  eexists. split.
  - unfold read_ifd.
    etrans; [eapply bind_Ret, Hinit|].
    etrans; [eapply bind_Ret, Hread|].
    etrans; [eapply bind_Ret, decode_bytes_other; simpl; lia|].
    reflexivity.
  - simpl. repeat split; try assumption. by rewrite last_snoc.
Qed.

End IfdEdges.

Lemma read_ifd_past_eof_witness :
  exists st',
    read_ifd ∅ (VBytes b_MM) (mkState [xff; xd8] 100 [] ∅ [] [])
    = (Ret (VInt 0), st')
    /\ meta_dict st' = ∅.
Proof.
  destruct (read_ifd_past_eof ∅ b_MM (mkState [xff; xd8] 100 [] ∅ [] []))
    as (st' & Hrun & Hmeta & _).
  - simpl. lia.
  - exists st'. split; [exact Hrun | exact Hmeta].
Defined.

Lemma read_ifd_one_byte_left_witness :
  exists st',
    read_ifd ∅ (VBytes b_II) (mkState [x00; x00; x07] 2 [] ∅ [] [])
    = (Raise TypeError, st')
    /\ last (stdout st') = Some (invalid_byte_string [x07]).
Proof.
  destruct (read_ifd_one_byte_left ∅ b_II x07 (mkState [x00; x00; x07] 2 [] ∅ [] []))
    as (st' & Hrun & _ & _ & Hout).
  - simpl. lia.
  - reflexivity.
  - exists st'. split; [exact Hrun | exact Hout].
Defined.

(** ** Directories that the file holds in full, cut off, or in a cycle *)

Section IfdChains.

Variable EXIF_TAGS : gmap str str.

(** [read_ifd] on a directory that the file holds in full returns the
    trailing offset and leaves the content of the file as it is. *)
Lemma read_ifd_returns (bo count_bytes : bytes) (es : list ifd_entry)
    (next_bytes rest : bytes) (st : state) :
  let o := order_of bo in
  0 <= fpos st ->
  remaining st
  = count_bytes ++ concat (map entry_bytes es) ++ next_bytes ++ rest ->
  length count_bytes = 2%nat ->
  uint o count_bytes = Z.of_nat (length es) ->
  Forall entry_wf es ->
  Forall (fun e => is_pointer o e \/ renderable o e) es ->
  length next_bytes = 4%nat ->
  exists st',
    read_ifd EXIF_TAGS (VBytes bo) st = (Ret (VInt (uint o next_bytes)), st')
    /\ fdata st' = fdata st.
Proof.
  intros o Hpos Hrem Hcount Hn Hwf Hok Hnext.
  destruct (ExifDecoder_order bo st)
    as (st0 & Hinit & Hdata0 & Hpos0 & _).
  assert (Hr0 : remaining st0 = remaining st)
    by (unfold remaining; by rewrite Hdata0, Hpos0).
  rewrite <- Hr0 in Hrem. rewrite <- Hpos0 in Hpos.
  destruct (read_ifd_entries EXIF_TAGS o es (set_fpos (fpos st0 + 2) st0)
              (next_bytes ++ rest))
    as (st1 & xs & Hrun & Hdata & _ & Hrest & _);
    [simpl; lia
    | eapply remaining_advance; [exact Hpos | exact Hrem | by rewrite Hcount]
    | exact Hwf | exact Hok |].
  exists (set_fpos (fpos st1 + 4) st1). split.
  - unfold read_ifd.
    etrans; [eapply bind_Ret, Hinit|].
    etrans; [eapply bind_Ret, read_remaining;
             [exact Hrem | by rewrite Hcount]|].
    etrans; [eapply bind_Ret, decode_bytes_len2; exact Hcount|].
    fold o. rewrite Hn. unfold range_count.
    etrans; [eapply bind_Ret; reflexivity|]. rewrite Nat2Z.id.
    etrans; [eapply bind_Ret, Hrun|].
    etrans; [eapply bind_Ret, read_remaining;
             [exact Hrest | by rewrite Hnext]|].
    by apply decode_bytes_len4.
  - simpl. by rewrite Hdata, <- Hdata0.
Qed.

(** X16: nothing guards the walk along the next-directory offsets
    against a cycle.  When the directory at [offset] names [offset] as
    its successor, the loop of [read_app1_exif] reads the same directory
    again and again: no number of iterations is enough for it to end. *)
Theorem follow_chain_cycle (data : bytes) (tiff_header offset : Z)
    (bo count_bytes : bytes) (es : list ifd_entry) (next_bytes rest : bytes) :
  let o := order_of bo in
  0 <= tiff_header -> 0 < offset ->
  drop (Z.to_nat (tiff_header + offset)) data
  = count_bytes ++ concat (map entry_bytes es) ++ next_bytes ++ rest ->
  length count_bytes = 2%nat ->
  uint o count_bytes = Z.of_nat (length es) ->
  Forall entry_wf es ->
  Forall (fun e => is_pointer o e \/ renderable o e) es ->
  length next_bytes = 4%nat ->
  uint o next_bytes = offset ->
  forall fuel st,
    fdata st = data ->
    fst (follow_chain EXIF_TAGS fuel tiff_header (VBytes bo) (VInt offset) st)
    = OutOfFuel.
Proof.
  intros o Hth Hoff Hdir Hcount Hn Hwf Hok Hnext Hcycle fuel.
  induction fuel as [|fuel IH]; intros st Hdata.
  - rewrite follow_chain_unfold.
    etrans; [apply f_equal; eapply bind_Ret; reflexivity|].
    destruct (0 <? offset) eqn:E; [reflexivity | apply Z.ltb_ge in E; lia].
  - rewrite follow_chain_unfold.
    etrans; [apply f_equal; eapply bind_Ret; reflexivity|].
    destruct (0 <? offset) eqn:E; [|apply Z.ltb_ge in E; lia].
    set (st1 := set_fpos (tiff_header + offset)
                  (set_trace (trace st ++ [EvReadIfd offset]) st)).
    destruct (read_ifd_returns bo count_bytes es next_bytes rest st1)
      as (st2 & Hrun & Hdata2); try assumption.
    { simpl. lia. }
    { unfold remaining. simpl. by rewrite Hdata. }
    fold o in Hrun. rewrite Hcycle in Hrun.
    etrans; [apply f_equal; eapply bind_Ret; reflexivity|].
    etrans; [apply f_equal; eapply bind_Ret|].
    { unfold seek_set.
      destruct (tiff_header + offset <? 0) eqn:E2;
        [apply Z.ltb_lt in E2; lia | reflexivity]. }
    fold st1.
    etrans; [apply f_equal; eapply bind_Ret, Hrun|].
    etrans; [apply f_equal; eapply bind_Ret; reflexivity|].
    apply IH. simpl. by rewrite Hdata2, <- Hdata.
Qed.

(** A directory entry read at or past the end of the file: every field
    is read as empty, so the tag, the type and the count are 0 and the
    value is the [repr] of the empty byte string. *)
Lemma read_ifd_entry_past_eof (o : byteorder) (st : state) :
  Z.of_nat (length (fdata st)) <= fpos st ->
  read_ifd_entry EXIF_TAGS o st
  = (Ret tt,
     set_meta_dict
       (<[lit "Exif|" ++ exiftag EXIF_TAGS (VInt 0) :=
            (VStr (lit "b''"), VStr (lit "0"), VInt 0, VInt 0)]> (meta_dict st))
       st).
Proof.
  intros Heof. unfold read_ifd_entry.
  etrans; [eapply bind_Ret, read_at_eof; [lia | exact Heof]|].
  etrans; [eapply bind_Ret, decode_bytes_empty|].
  etrans; [eapply bind_Ret, read_at_eof; [lia | exact Heof]|].
  etrans; [eapply bind_Ret, decode_bytes_empty|].
  etrans; [eapply bind_Ret, read_at_eof; [lia | exact Heof]|].
  etrans; [eapply bind_Ret, decode_bytes_empty|].
  etrans; [eapply bind_Ret, read_at_eof; [lia | exact Heof]|].
  reflexivity.
Qed.

Lemma for_range_past_eof (o : byteorder) (n : nat) (st : state) :
  Z.of_nat (length (fdata st)) <= fpos st ->
  for_range (S n) (read_ifd_entry EXIF_TAGS o) st
  = (Ret tt,
     set_meta_dict
       (<[lit "Exif|" ++ exiftag EXIF_TAGS (VInt 0) :=
            (VStr (lit "b''"), VStr (lit "0"), VInt 0, VInt 0)]> (meta_dict st))
       st).
Proof.
  revert st. induction n as [|n IH]; intros st Heof.
  - simpl for_range.
    etrans; [eapply bind_Ret, read_ifd_entry_past_eof, Heof|]. reflexivity.
  - change (for_range (S (S n)) (read_ifd_entry EXIF_TAGS o))
      with (read_ifd_entry EXIF_TAGS o ;;;
            for_range (S n) (read_ifd_entry EXIF_TAGS o)).
    etrans; [eapply bind_Ret, read_ifd_entry_past_eof, Heof|].
    rewrite IH by exact Heof. simpl.
    destruct st. unfold set_meta_dict. simpl. f_equal. f_equal.
    apply insert_insert_eq.
Qed.


End IfdChains.

Lemma follow_chain_cycle_witness :
  fst (follow_chain ∅ 1000 0 (VBytes b_MM) (VInt 2)
         (empty_state [x00; x00; x00; x00; x00; x00; x00; x02]))
  = OutOfFuel.
Proof.
  apply (follow_chain_cycle ∅ [x00; x00; x00; x00; x00; x00; x00; x02] 0 2
           b_MM [x00; x00] [] [x00; x00; x00; x02] []);
    try reflexivity; try lia; constructor.
Defined.


(** ** The entries of the scanner, as the segment readers find them *)

Lemma set_fpos_id (st : state) : set_fpos (fpos st) st = st.
Proof. by destruct st. Qed.

Lemma peek_ext (n : nat) (st1 st2 : state) :
  fdata st1 = fdata st2 -> fpos st1 = fpos st2 -> peek n st1 = peek n st2.
Proof. unfold peek. by intros -> ->. Qed.

Lemma peek_length (n : nat) (st : state) :
  0 <= fpos st -> fpos st + Z.of_nat n <= Z.of_nat (length (fdata st)) ->
  length (peek n st) = n.
Proof.
  intros Hpos Hroom. unfold peek. rewrite length_take, length_drop. lia.
Qed.

Lemma read_exact (n : Z) (st : state) :
  0 <= n -> length (peek (Z.to_nat n) st) = Z.to_nat n ->
  read n st = (Ret (peek (Z.to_nat n) st), set_fpos (fpos st + n) st).
Proof.
  intros Hn Hlen. rewrite read_peek by exact Hn. rewrite Hlen.
  by rewrite Z2Nat.id by exact Hn.
Qed.

(** The state of a run is the state [st] at the position [p]. *)
Ltac at_position p st :=
  lazymatch goal with
  | |- ?m ?s = _ =>
      replace s with (set_fpos p st)
        by (destruct st; unfold set_fpos; simpl; f_equal; lia)
  end.

Lemma seg_kind_ext (st1 st2 : state) (mark : bytes) :
  fdata st1 = fdata st2 -> fpos st1 = fpos st2 ->
  seg_kind st1 mark = seg_kind st2 mark.
Proof.
  intros Hd Hp. unfold seg_kind.
  rewrite (peek_ext 35 (set_fpos (fpos st1 + 4) st1)
             (set_fpos (fpos st2 + 4) st2)); [reflexivity | exact Hd|].
  simpl. by rewrite Hp.
Qed.

Lemma scans_entries (st : state) (out : list (str * Z)) :
  scans st out -> 0 <= fpos st ->
  Forall (fun e => fpos st <= e.2
                   /\ length (peek 2 (set_fpos e.2 st)) = 2%nat
                   /\ e.1 = seg_kind (set_fpos e.2 st) (peek 2 (set_fpos e.2 st)))
    out.
Proof.
  assert (Hhead : forall s, length (peek 2 s) = 2%nat ->
            fpos s <= fpos s
            /\ length (peek 2 (set_fpos (fpos s) s)) = 2%nat
            /\ seg_kind s (peek 2 s)
               = seg_kind (set_fpos (fpos s) s) (peek 2 (set_fpos (fpos s) s))).
  { intros s Hs. rewrite set_fpos_id. repeat split; [lia | exact Hs]. }
  induction 1 as [st Hshort | st Hlen Hstop | st out Hlen Hgo Hbare Hrest IH
                 | st Hlen Hgo Hframed Hcut
                 | st out Hlen Hgo Hframed Hsize Hrest IH]; intros Hpos.
  - constructor.
  - constructor; [by apply Hhead | constructor].
  - constructor; [by apply Hhead|].
    eapply Forall_impl; [apply IH; simpl; lia|].
    intros e (He1 & He2 & He3). simpl in He1. split; [lia|].
    split; [exact He2 | exact He3].
  - constructor; [by apply Hhead | constructor].
  - constructor; [by apply Hhead|].
    assert (Hds : 0 <= be_uint (peek 2 (set_fpos (fpos st + 2) st))).
    { destruct (peek 2 (set_fpos (fpos st + 2) st)) as [|a [|b [|]]];
        try discriminate.
      pose proof (byte_val_range a). pose proof (byte_val_range b).
      unfold be_uint. simpl. lia. }
    eapply Forall_impl; [apply IH; simpl; lia|].
    intros e (He1 & He2 & He3). simpl in He1. split; [lia|].
    split; [exact He2 | exact He3].
Qed.

Lemma segment_map_entries (st : state) (segs : list (str * Z)) (st' : state) :
  segment_map st = (Ret segs, st') -> Forall (entry_of (fdata st)) segs.
Proof.
  intros Hrun.
  destruct (segment_map_scans st) as (out & st'' & Hrun' & Hscans).
  rewrite Hrun in Hrun'. inversion Hrun'; subst out st''.
  eapply Forall_impl; [apply (scans_entries _ _ Hscans); simpl; lia|].
  intros e (He1 & He2 & He3). simpl in He1. unfold entry_of.
  rewrite (peek_ext 2 (set_fpos e.2 (empty_state (fdata st)))
             (set_fpos e.2 (set_fpos 2 st))) by reflexivity.
  rewrite (seg_kind_ext (set_fpos e.2 (empty_state (fdata st)))
             (set_fpos e.2 (set_fpos 2 st))) by reflexivity.
  repeat split; [lia | exact He2 | exact He3].
Qed.

Lemma seginfo_name_table (m0 : bytes) (i0 : segment_info) (mark : bytes) :
  (m0, i0) ∈ segdata -> name (seginfo mark) = name i0 -> mark = m0.
Proof.
  intros Hin. destruct (assoc mark segdata) as [i|] eqn:E.
  - rewrite (seginfo_known _ _ E). apply assoc_elem_of in E.
    by eapply known_names_distinct.
  - rewrite (seginfo_unknown _ E). simpl. intros H. exfalso.
    apply (known_name_no_question _ _ Hin). rewrite <- H.
    change (lit "?") with [63]. by rewrite last_snoc.
Qed.

Lemma seginfo_name_not_app1_kind (mark : bytes) :
  name (seginfo mark) ∉ app1_kinds.
Proof.
  destruct (assoc mark segdata) as [i|] eqn:E.
  - rewrite (seginfo_known _ _ E). apply assoc_elem_of in E.
    assert (Hall : Forall (fun r => name r.2 ∉ app1_kinds) segdata)
      by decide_closed.
    rewrite Forall_forall in Hall. apply (Hall _ E).
  - rewrite (seginfo_unknown _ E). simpl. intros Hin.
    assert (Hlast : Forall (fun k => last k ≠ Some 63) app1_kinds)
      by decide_closed.
    rewrite Forall_forall in Hlast. apply (Hlast _ Hin).
    change (lit "?") with [63]. by rewrite last_snoc.
Qed.

(** An entry with the name of a marker of the table other than APP1
    lies on that marker. *)
Lemma seg_kind_table (st : state) (mark m0 : bytes) (i0 : segment_info) :
  (m0, i0) ∈ segdata -> seg_kind st mark = name i0 -> mark = m0.
Proof.
  intros Hin. unfold seg_kind. case_bool_decide as Happ1.
  - intros H. exfalso.
    assert (Hall : Forall (fun r => name r.2 ∉ app1_kinds) segdata)
      by decide_closed.
    rewrite Forall_forall in Hall. apply (Hall _ Hin). simpl.
    rewrite <- H. apply app1_kind_cases.
  - by apply seginfo_name_table.
Qed.

(** An entry named APP1-Exif lies on the marker ff e1, and the six
    bytes after the size are the Exif identifier. *)
Lemma seg_kind_exif (st : state) (mark : bytes) :
  length mark = 2%nat -> seg_kind st mark = lit "APP1-Exif" ->
  mark = [xff; xe1] /\ peek 6 (set_fpos (fpos st + 4) st) = b_Exif00.
Proof.
  intros Hlen. unfold seg_kind. case_bool_decide as Happ1.
  - intros H. split; [by apply seginfo_app1|].
    unfold app1_kind in H. case_bool_decide as H6.
    + rewrite <- H6. unfold peek. by rewrite take_take.
    + exfalso. repeat case_bool_decide; vm_compute in H; discriminate.
  - intros H. exfalso. apply (seginfo_name_not_app1_kind mark).
    rewrite H. unfold app1_kinds. apply elem_of_cons. by left.
Qed.

Section ExifSegment.

Variable EXIF_TAGS : gmap str str.

(** X18: on every entry that [segment_map] names APP1-Exif,
    [read_app1_exif] passes its marker check and its Exif header check
    without a message and without exit, and goes on with the TIFF header
    ten bytes after the offset of the entry.  The scanner has already
    seen the marker ff e1 and the identifier that these checks look
    for. *)
Theorem read_app1_exif_entry (st0 st0' : state) (segs : list (str * Z))
    (seg_offset : Z) (fuel : nat) (st : state) :
  segment_map st0 = (Ret segs, st0') ->
  (lit "APP1-Exif", seg_offset) ∈ segs ->
  fdata st = fdata st0 ->
  read_app1_exif EXIF_TAGS fuel seg_offset st
  = exif_ifds EXIF_TAGS fuel
      (set_fpos (seg_offset + 10) (set_subifd_queue [] st)).
Proof.
  intros Hmap Hin Hdata.
  pose proof (segment_map_entries _ _ _ Hmap) as Hall.
  rewrite Forall_forall in Hall. destruct (Hall _ Hin) as (Hoff & Hlen & Hkind).
  simpl in Hoff, Hlen, Hkind. symmetry in Hkind.
  apply seg_kind_exif in Hkind as [Hmark Hexif]; [|exact Hlen].
  simpl in Hexif.
  set (st1 := set_fpos seg_offset (set_subifd_queue [] st)).
  assert (Hp2 : peek 2 st1 = [xff; xe1]).
  { rewrite <- Hmark. apply peek_ext; [by rewrite <- Hdata | reflexivity]. }
  assert (Hp6 : peek 6 (set_fpos (seg_offset + 4) st1) = b_Exif00).
  { rewrite <- Hexif. apply peek_ext; [by rewrite <- Hdata | reflexivity]. }
  assert (Hroom : seg_offset + 4 + 6 <= Z.of_nat (length (fdata st1))).
  { apply (peek_full_room 6 (set_fpos (seg_offset + 4) st1));
      [simpl; lia | lia | by rewrite Hp6]. }
  assert (Hsize : length (peek 2 (set_fpos (seg_offset + 2) st1)) = 2%nat).
  { apply peek_length; simpl; simpl in Hroom; lia. }
  unfold read_app1_exif.
  etrans; [eapply bind_Ret; reflexivity|].
  etrans; [eapply bind_Ret|].
  { unfold seek_set. destruct (seg_offset <? 0) eqn:E;
      [apply Z.ltb_lt in E; lia | reflexivity]. }
  fold st1.
  etrans; [eapply bind_Ret, (verify_marker_app (lit "APP1") [xff; xe1]);
           unfold app_markers; rewrite !elem_of_cons; right; left; reflexivity|].
  simpl. rewrite Hp2. rewrite bool_decide_eq_true_2 by reflexivity.
  change (set_fpos (seg_offset + Z.of_nat (length [xff; xe1])) st1)
    with (set_fpos (seg_offset + 2) st1).
  etrans; [eapply bind_Ret, read_exact; [lia | exact Hsize]|].
  at_position (seg_offset + 4) st1.
  unfold verify_exifheader.
  etrans; [eapply bind_Ret|].
  { etrans; [eapply bind_Ret, read_exact;
             [lia | change (Z.to_nat 6) with 6%nat; by rewrite Hp6]|].
    change (Z.to_nat 6) with 6%nat. rewrite Hp6.
    rewrite bool_decide_eq_false_2 by (intros H; by apply H). reflexivity. }
  at_position (seg_offset + 10) (set_subifd_queue [] st).
  reflexivity.
Qed.

End ExifSegment.

Lemma read_app1_exif_entry_witness :
  read_app1_exif ∅ 9 2 (empty_state exif_jpeg)
  = exif_ifds ∅ 9 (set_fpos 12 (empty_state exif_jpeg)).
Proof.
  apply (read_app1_exif_entry ∅ (empty_state exif_jpeg)
           (snd (segment_map (empty_state exif_jpeg)))
           [(lit "APP1-Exif", 2)]).
  - vm_compute. reflexivity.
  - apply list_elem_of_singleton. reflexivity.
  - reflexivity.
Defined.

(** X19: [verify_tiffheader] on a TIFF header that the file holds in
    full.  The only test is on the sample: the call returns the position
    of the header, the byte-order mark and the offset of the first
    directory when the two bytes after the mark read 42 in the byte
    order that the mark selects, and exits otherwise.  The mark itself is
    not checked: one that is neither [b'II'] nor [b'MM'] only adds the
    decoder's warning, and the header is accepted as big-endian. *)
Theorem verify_tiffheader_sample (bo sample ifd0 rest : bytes) (st : state) :
  let o := order_of bo in
  0 <= fpos st ->
  remaining st = bo ++ sample ++ ifd0 ++ rest ->
  length bo = 2%nat -> length sample = 2%nat -> length ifd0 = 4%nat ->
  exists st',
    verify_tiffheader st
    = (if bool_decide (uint o sample = 42)
       then Ret (fpos st, VBytes bo, VInt (uint o ifd0))
       else Raise SystemExit, st')
    /\ meta_dict st' = meta_dict st
    /\ stdout st'
       = stdout st
         ++ (if bool_decide (bo = b_II \/ bo = b_MM) then []
             else [invalid_endian bo])
         ++ (if bool_decide (uint o sample = 42) then []
             else [lit "Sample encoded value: INCORRECT "
                   ++ str_of_int (uint o sample)])
    /\ (uint o sample = 42 -> fpos st' = fpos st + 8).
Proof.
  intros o Hpos Hrem Hbo Hsample Hifd0.
  destruct (ExifDecoder_order bo (set_fpos (fpos st + 2) st))
    as (st0 & Hinit & Hdata0 & Hpos0 & Hmeta0 & _ & _ & Hout0).
  fold o in Hinit. simpl in Hdata0, Hpos0, Hmeta0, Hout0.
  assert (Hrem0 : remaining st0 = sample ++ ifd0 ++ rest).
  { unfold remaining. rewrite Hdata0, Hpos0.
    apply (remaining_advance bo _ st); [exact Hpos | exact Hrem | lia]. }
  assert (Hrem1 : remaining (set_fpos (fpos st0 + 2) st0) = ifd0 ++ rest).
  { apply (remaining_advance sample); [lia | exact Hrem0 | lia]. }
  assert (Hne : VInt (uint o sample) ≠ VInt 42 <-> uint o sample ≠ 42)
    by (split; congruence).
  unfold verify_tiffheader.
  destruct (decide (uint o sample = 42)) as [H42 | H42].
  - rewrite (bool_decide_eq_true_2 _ H42).
    eexists. split; [|split; [|split]].
    + etrans; [eapply bind_Ret; reflexivity|].
      etrans; [eapply bind_Ret, read_remaining; [exact Hrem | lia]|].
      etrans; [eapply bind_Ret, Hinit|].
      etrans; [eapply bind_Ret, read_remaining; [exact Hrem0 | lia]|].
      etrans; [eapply bind_Ret, decode_bytes_len2; exact Hsample|].
      rewrite bool_decide_eq_false_2 by (rewrite Hne; intros H; by apply H).
      etrans; [eapply bind_Ret; reflexivity|].
      etrans; [eapply bind_Ret, read_remaining; [exact Hrem1 | lia]|].
      etrans; [eapply bind_Ret, decode_bytes_len4; exact Hifd0|].
      reflexivity.
    + simpl. exact Hmeta0.
    + simpl. by rewrite Hout0, app_nil_r.
    + intros _. simpl. lia.
  - rewrite (bool_decide_eq_false_2 _ H42).
    eexists. split; [|split; [|split]].
    + etrans; [eapply bind_Ret; reflexivity|].
      etrans; [eapply bind_Ret, read_remaining; [exact Hrem | lia]|].
      etrans; [eapply bind_Ret, Hinit|].
      etrans; [eapply bind_Ret, read_remaining; [exact Hrem0 | lia]|].
      etrans; [eapply bind_Ret, decode_bytes_len2; exact Hsample|].
      rewrite bool_decide_eq_true_2 by (by rewrite Hne).
      reflexivity.
    + simpl. exact Hmeta0.
    + simpl. by rewrite Hout0, <- app_assoc.
    + intros H. by destruct H42.
Qed.

Lemma verify_tiffheader_sample_witness :
  exists st',
    verify_tiffheader
      (empty_state (blit "XX" ++ [x00; x2a; x00; x00; x00; x08]))
    = (Ret (0, VBytes (blit "XX"), VInt 8), st')
    /\ stdout st' = [invalid_endian (blit "XX")].
Proof.
  destruct (verify_tiffheader_sample (blit "XX") [x00; x2a]
              [x00; x00; x00; x08] []
              (empty_state (blit "XX" ++ [x00; x2a; x00; x00; x00; x08])))
    as (st' & Hrun & _ & Hout & _); try reflexivity; try (simpl; lia).
  exists st'. split; [exact Hrun | exact Hout].
Defined.

(** ** The JFIF reader *)

Lemma bind_Raise {A B} (m : M A) (k : A -> M B) (st st' : state) (e : exn) :
  m st = (Raise e, st') -> bind m k st = (Raise e, st').
Proof. unfold bind. by intros ->. Qed.

(** A read of [n] bytes in a file whose content from [off] on is [L],
    when the position is [K] bytes after [off]. *)
Lemma read_from (off : Z) (L : bytes) (K : nat) (n : Z) (v : bytes)
    (st : state) :
  0 <= off -> drop (Z.to_nat off) (fdata st) = L ->
  fpos st = off + Z.of_nat K -> 0 <= n ->
  take (Z.to_nat n) (drop K L) = v ->
  read n st = (Ret v, set_fpos (off + Z.of_nat (K + length v)) st).
Proof.
  intros Hoff Hdrop Hpos Hn Hv. rewrite read_peek by exact Hn.
  assert (Hpeek : peek (Z.to_nat n) st = v).
  { unfold peek. rewrite Hpos, <- Hv, <- Hdrop, drop_drop.
    do 2 f_equal. lia. }
  rewrite Hpeek. do 2 f_equal. lia.
Qed.

Ltac run_read off L Hoff Hdrop K n :=
  etrans;
  [eapply bind_Ret, (read_from off L K n);
   [exact Hoff | exact Hdrop | simpl; lia | lia | cbv; reflexivity]|].

Lemma seek_set_to (offset : Z) (st : state) :
  0 <= offset -> seek_set offset st = (Ret tt, set_fpos offset st).
Proof.
  intros H. unfold seek_set.
  destruct (offset <? 0) eqn:E; [apply Z.ltb_lt in E; lia | reflexivity].
Qed.

Lemma unpack_B_one (x : byte) (st : state) :
  unpack_B [x] st = (Ret (byte_val x), st).
Proof.
  unfold unpack_B, struct_unpack. simpl. unfold ret.
  do 3 f_equal. lia.
Qed.

(** [verify_marker] for APP0 when the two bytes of a marker are there:
    the position moves past them, and the only effect of a wrong marker
    is a message. *)
Lemma verify_marker_app0 (m0 m1 : byte) (st : state) :
  peek 2 st = [m0; m1] ->
  verify_marker (lit "APP0") st
  = (Ret tt,
     set_stdout
       (stdout st ++ (if bool_decide ([m0; m1] = [xff; xe0]) then []
                      else [not_found (lit "APP0") [m0; m1]]))
       (set_fpos (fpos st + 2) st)).
Proof.
  intros Hp.
  rewrite (verify_marker_app (lit "APP0") [xff; xe0])
    by (unfold app_markers; rewrite !elem_of_cons; left; reflexivity).
  simpl. rewrite Hp. f_equal.
  destruct (bool_decide ([m0; m1] = [xff; xe0])); simpl.
  - destruct st. unfold set_stdout, set_fpos. simpl. by rewrite app_nil_r.
  - reflexivity.
Qed.

(** The run of [read_app0_jfif] on a segment that the file holds up to
    the two thumbnail sizes. *)
Lemma read_app0_jfif_run (seg_offset : Z) (mark size hdr skip : bytes)
    (x y : byte) (rest : bytes) (st : state) :
  let valid := bool_decide (hdr ∈ [b_JFIF0; b_JFXX0]) in
  0 <= seg_offset ->
  drop (Z.to_nat seg_offset) (fdata st)
  = mark ++ size ++ hdr ++ skip ++ [x; y] ++ rest ->
  length mark = 2%nat -> length size = 2%nat ->
  length hdr = 5%nat -> length skip = 7%nat ->
  exists st',
    read_app0_jfif seg_offset st
    = (if valid then Ret tt else Raise SystemExit, st')
    /\ meta_dict st'
       = (if valid then jfif_records hdr x y (meta_dict st) else meta_dict st)
    /\ stdout st'
       = stdout st
         ++ (if bool_decide (mark = [xff; xe0]) then []
             else [not_found (lit "APP0") mark])
         ++ (if valid then [] else [invalid_jfif hdr]).
Proof.
  intros valid Hoff Hdrop Hmark Hsize Hhdr Hskip.
  destruct mark as [|m0 [|m1 [|]]]; try discriminate.
  destruct size as [|s0 [|s1 [|]]]; try discriminate.
  destruct hdr as [|h0 [|h1 [|h2 [|h3 [|h4 [|]]]]]]; try discriminate.
  destruct skip as [|k0 [|k1 [|k2 [|k3 [|k4 [|k5 [|k6 [|]]]]]]]];
    try discriminate.
  simpl in Hdrop.
  set (L := m0 :: m1 :: s0 :: s1 :: h0 :: h1 :: h2 :: h3 :: h4 :: k0 :: k1
            :: k2 :: k3 :: k4 :: k5 :: k6 :: x :: y :: rest) in Hdrop.
  set (hdr := [h0; h1; h2; h3; h4]) in *.
  assert (Hp2 : peek 2 (set_fpos seg_offset st) = [m0; m1]).
  { unfold peek. simpl fpos. simpl fdata. by rewrite Hdrop. }
  destruct valid eqn:Hvalid; subst valid; eexists; (split; [|split]).
  - unfold read_app0_jfif.
    etrans; [eapply bind_Ret, seek_set_to, Hoff|].
    etrans; [eapply bind_Ret, verify_marker_app0, Hp2|].
    run_read seg_offset L Hoff Hdrop 2%nat 2.
    etrans; [eapply bind_Ret|].
    { unfold verify_jfifheader.
      run_read seg_offset L Hoff Hdrop 4%nat 5.
      fold hdr. rewrite Hvalid. reflexivity. }
    etrans; [eapply bind_Ret; reflexivity|].
    run_read seg_offset L Hoff Hdrop 9%nat 7.
    run_read seg_offset L Hoff Hdrop 16%nat 1.
    etrans; [eapply bind_Ret, unpack_B_one|].
    etrans; [eapply bind_Ret; reflexivity|].
    run_read seg_offset L Hoff Hdrop 17%nat 1.
    etrans; [eapply bind_Ret, unpack_B_one|].
    reflexivity.
  - reflexivity.
  - simpl. by rewrite app_nil_r.
  - unfold read_app0_jfif.
    etrans; [eapply bind_Ret, seek_set_to, Hoff|].
    etrans; [eapply bind_Ret, verify_marker_app0, Hp2|].
    run_read seg_offset L Hoff Hdrop 2%nat 2.
    eapply bind_Raise.
    unfold verify_jfifheader.
    run_read seg_offset L Hoff Hdrop 4%nat 5.
    fold hdr. rewrite Hvalid. reflexivity.
  - reflexivity.
  - simpl. by rewrite <- app_assoc.
Qed.

(** X20: [read_app0_jfif] on a segment that the file holds up to the
    two thumbnail sizes.  With the identifier [JFIF\0] or [JFXX\0] it
    writes three records: the identifier as bytes, and the bytes 12 and
    13 of the payload as decimal strings.  With any other identifier it
    prints the identifier and exits, and writes nothing.  A marker other
    than ff e0 at the offset only adds a message. *)
Theorem read_app0_jfif_fields (seg_offset : Z) (mark size hdr skip : bytes)
    (x y : byte) (rest : bytes) (st : state) :
  let valid := bool_decide (hdr ∈ [b_JFIF0; b_JFXX0]) in
  0 <= seg_offset ->
  drop (Z.to_nat seg_offset) (fdata st)
  = mark ++ size ++ hdr ++ skip ++ [x; y] ++ rest ->
  length mark = 2%nat -> length size = 2%nat ->
  length hdr = 5%nat -> length skip = 7%nat ->
  exists st',
    read_app0_jfif seg_offset st
    = (if valid then Ret tt else Raise SystemExit, st')
    /\ meta_dict st'
       = (if valid then jfif_records hdr x y (meta_dict st) else meta_dict st)
    /\ stdout st'
       = stdout st
         ++ (if bool_decide (mark = [xff; xe0]) then []
             else [not_found (lit "APP0") mark])
         ++ (if valid then [] else [invalid_jfif hdr]).
Proof. apply read_app0_jfif_run. Qed.

Lemma read_app0_jfif_fields_witness :
  exists st',
    read_app0_jfif 2 (empty_state minimal_jpeg) = (Ret tt, st')
    /\ meta_dict st' = jfif_records b_JFIF0 x00 x00 ∅
    /\ stdout st' = [].
Proof.
  destruct (read_app0_jfif_fields 2 [xff; xe0] [x00; x10] b_JFIF0
              [x01; x01; x00; x00; x48; x00; x48] x00 x00
              [xff; xda; x00; x02; xff; xd9] (empty_state minimal_jpeg))
    as (st' & Hrun & Hmeta & Hout); try reflexivity; try lia.
  exists st'. split; [exact Hrun | split; [exact Hmeta | exact Hout]].
Defined.

(** X21: an APP0 segment with a valid identifier that ends before the
    two thumbnail sizes.  [read_app0_jfif] has already written the
    identifier record (and the record of the first size, when that byte
    is there) when [struct.unpack] raises on the missing byte: the
    dictionary is left with a part of the segment's records. *)
Theorem read_app0_jfif_truncated (seg_offset : Z) (size hdr short : bytes)
    (st : state) :
  0 <= seg_offset ->
  drop (Z.to_nat seg_offset) (fdata st) = [xff; xe0] ++ size ++ hdr ++ short ->
  length size = 2%nat -> hdr ∈ [b_JFIF0; b_JFXX0] ->
  (length short <= 8)%nat ->
  exists st',
    read_app0_jfif seg_offset st = (Raise StructError, st')
    /\ meta_dict st'
       = match drop 7 short with
         | [] => <[lit "JFIF|Identifier" := plain_record (VBytes hdr)]>
                   (meta_dict st)
         | x :: _ =>
             <[lit "JFIF|Xthumbnail" :=
                 plain_record (VStr (str_of_int (byte_val x)))]>
               (<[lit "JFIF|Identifier" := plain_record (VBytes hdr)]>
                  (meta_dict st))
         end
    /\ stdout st' = stdout st.
Proof.
  intros Hoff Hdrop Hsize Hvalid Hshort.
  assert (Hhdr : length hdr = 5%nat).
  { rewrite !elem_of_cons in Hvalid.
    destruct Hvalid as [-> | [-> | H]]; [reflexivity | reflexivity |].
    by apply elem_of_nil in H. }
  destruct size as [|s0 [|s1 [|]]]; try discriminate.
  destruct hdr as [|h0 [|h1 [|h2 [|h3 [|h4 [|]]]]]]; try discriminate.
  simpl in Hdrop.
  set (L := xff :: xe0 :: s0 :: s1 :: h0 :: h1 :: h2 :: h3 :: h4 :: short)
    in Hdrop.
  set (hdr := [h0; h1; h2; h3; h4]) in *.
  assert (Hp2 : peek 2 (set_fpos seg_offset st) = [xff; xe0]).
  { unfold peek. simpl fpos. simpl fdata. by rewrite Hdrop. }
  assert (Hhead : forall k : unit -> M unit,
            (seek_set seg_offset ;;;
             verify_marker (lit "APP0") ;;;
             let* _ := read 2 in
             let* jfifheader := verify_jfifheader in
             dict_set (lit "JFIF|Identifier")
               (plain_record (VBytes jfifheader)) ;;;
             k tt) st
            = k tt
                (set_meta_dict
                   (<[lit "JFIF|Identifier" := plain_record (VBytes hdr)]>
                      (meta_dict st))
                   (set_fpos (seg_offset + 9) st))).
  { intros k.
    etrans; [eapply bind_Ret, seek_set_to, Hoff|].
    etrans; [eapply bind_Ret, verify_marker_app0, Hp2|].
    run_read seg_offset L Hoff Hdrop 2%nat 2.
    etrans; [eapply bind_Ret|].
    { unfold verify_jfifheader.
      run_read seg_offset L Hoff Hdrop 4%nat 5.
      fold hdr. rewrite bool_decide_eq_true_2 by exact Hvalid. reflexivity. }
    etrans; [eapply bind_Ret; reflexivity|].
    f_equal. destruct st. unfold set_meta_dict, set_fpos, set_stdout. simpl.
    f_equal. by rewrite app_nil_r. }
  unfold read_app0_jfif.
  rewrite (Hhead (fun _ =>
    let* _ := read 7 in
    let* xthumb_bytestr := read 1 in
    let* xthumb_int := unpack_B xthumb_bytestr in
    dict_set (lit "JFIF|Xthumbnail")
      (plain_record (VStr (str_of_int xthumb_int))) ;;;
    let* ythumb_bytestr := read 1 in
    let* ythumb_int := unpack_B ythumb_bytestr in
    dict_set (lit "JFIF|Ythumbnail")
      (plain_record (VStr (str_of_int ythumb_int))))).
  destruct (decide (length short <= 7)%nat) as [Hle | Hgt].
  - rewrite (drop_ge short 7) by exact Hle.
    eexists. split; [|split].
    + etrans; [eapply bind_Ret, (read_from seg_offset L 9 7 short);
               [exact Hoff | exact Hdrop | simpl; lia | lia
               | apply take_ge; simpl; lia]|].
      etrans; [eapply bind_Ret,
                 (read_from seg_offset L (9 + length short) 1 []);
               [exact Hoff | exact Hdrop | simpl; lia | lia|]|].
      { change (drop (9 + length short) L) with (drop (length short) short).
        by rewrite drop_all. }
      reflexivity.
    + reflexivity.
    + reflexivity.
  - do 9 (destruct short as [|? short]; [simpl in Hgt, Hshort; try lia|]);
      [|simpl in Hshort; lia].
    eexists. split; [|split].
    + run_read seg_offset L Hoff Hdrop 9%nat 7.
      run_read seg_offset L Hoff Hdrop 16%nat 1.
      etrans; [eapply bind_Ret, unpack_B_one|].
      etrans; [eapply bind_Ret; reflexivity|].
      run_read seg_offset L Hoff Hdrop 17%nat 1.
      reflexivity.
    + reflexivity.
    + reflexivity.
Qed.

Lemma read_app0_jfif_truncated_witness :
  exists st',
    read_app0_jfif 2
      (empty_state ([xff; xd8; xff; xe0; x00; x10] ++ b_JFIF0 ++ [x01; x01]))
    = (Raise StructError, st')
    /\ meta_dict st'
       = {[ lit "JFIF|Identifier" := plain_record (VBytes b_JFIF0) ]}.
Proof.
  destruct (read_app0_jfif_truncated 2 [x00; x10] b_JFIF0 [x01; x01]
              (empty_state
                 ([xff; xd8; xff; xe0; x00; x10] ++ b_JFIF0 ++ [x01; x01])))
    as (st' & Hrun & Hmeta & _); try reflexivity; try (simpl; lia).
  - apply elem_of_cons. by left.
  - exists st'. split; [exact Hrun | exact Hmeta].
Defined.

(** ** [readmeta]: from the file to the dictionary *)

(** The scanner moves the handle and changes nothing else. *)
Lemma segment_loop_frame (fuel : nat) :
  forall segs st out st',
    0 <= fpos st -> segment_loop fuel segs st = (out, st') ->
    exists p, st' = set_fpos p st.
Proof.
  induction fuel as [|fuel IH]; intros segs st out st' Hpos Hrun.
  - inversion Hrun; subst. exists (fpos st'). by rewrite set_fpos_id.
  - rewrite segment_loop_step in Hrun by exact Hpos.
    unfold segment_step in Hrun.
    destruct (bool_decide (length (peek 2 st) < 2)%nat);
      [inversion Hrun; by eexists|].
    destruct (_ || _); [inversion Hrun; by eexists|].
    destruct (bool_decide (peek 2 st ∈ no_payload_markers)).
    { apply IH in Hrun as [p ->]; [by eexists | simpl; lia]. }
    destruct (bool_decide _); [inversion Hrun; by eexists|].
    pose proof (be_uint_nonneg (peek 2 (set_fpos (fpos st + 2) st))).
    apply IH in Hrun as [p ->]; [by eexists | simpl; lia].
Qed.

Lemma segment_map_frame (st : state) (out : outcome (list (str * Z)))
    (st' : state) :
  segment_map st = (out, st') -> exists p, st' = set_fpos p st.
Proof.
  rewrite segment_map_unfold. intros Hrun.
  apply segment_loop_frame in Hrun as [p ->]; [by eexists | simpl; lia].
Qed.

(** The scanner on a file made of well-formed segments. *)
Lemma segment_map_segments (soi tail : bytes) (segs : list segment)
    (st : state) :
  length soi = 2%nat ->
  fdata st = soi ++ concat (map segment_bytes segs) ++ tail ->
  Forall segment_wf segs -> tail_ok tail ->
  exists p,
    segment_map st
    = (Ret (segment_entries 2 segs tail
            ++ tail_entries
                 (2 + Z.of_nat (length (concat (map segment_bytes segs))))
                 tail),
       set_fpos p st).
Proof.
  intros Hsoi Hdata Hwf Htail.
  destruct (segment_map_scans st) as (out & st' & Hrun & Hscan).
  destruct (segment_map_frame _ _ _ Hrun) as [p ->].
  exists p. rewrite Hrun. do 2 f_equal.
  eapply scans_functional; [exact Hscan|].
  apply (scans_wellformed tail segs (set_fpos 2 st)); try done.
  unfold remaining. simpl. rewrite Hdata.
  change (Z.to_nat 2) with 2%nat. rewrite <- Hsoi. apply drop_app_length.
Qed.

Lemma segment_entries_app (tail : bytes) (a : list segment) :
  forall pos b,
    segment_entries pos (a ++ b) tail
    = segment_entries pos a (concat (map segment_bytes b) ++ tail)
      ++ segment_entries
           (pos + Z.of_nat (length (concat (map segment_bytes a)))) b tail.
Proof.
  induction a as [|s a IH]; intros pos b.
  - simpl. f_equal. lia.
  - cbn [segment_entries app map concat]. rewrite IH.
    rewrite map_app, concat_app, <- !app_assoc, length_app.
    do 3 f_equal. lia.
Qed.

Lemma for_each_app {A} (xs ys : list A) (body : A -> M unit) (st : state) :
  for_each (xs ++ ys) body st = (for_each xs body ;;; for_each ys body) st.
Proof.
  revert st. induction xs as [|x xs IH]; intros st; simpl.
  - reflexivity.
  - unfold bind. destruct (body x st) as [[[]| |] st1]; try reflexivity.
    rewrite IH. reflexivity.
Qed.

Lemma seginfo_name_dispatched (mark : bytes) :
  name (seginfo mark) ∈ dispatched -> mark ∈ metadata_markers.
Proof.
  unfold dispatched, metadata_markers. rewrite !elem_of_cons.
  intros [H | [H | [H | [H | [H | [H | H]]]]]].
  - left. apply (seginfo_name_table [xff; xe0] (seginfo [xff; xe0]));
      [by apply assoc_elem_of | exact H].
  - exfalso. apply (seginfo_name_not_app1_kind mark). rewrite H.
    unfold app1_kinds. rewrite !elem_of_cons. by left.
  - exfalso. apply (seginfo_name_not_app1_kind mark). rewrite H.
    unfold app1_kinds. rewrite !elem_of_cons. right. by left.
  - exfalso. apply (seginfo_name_not_app1_kind mark). rewrite H.
    unfold app1_kinds. rewrite !elem_of_cons. right. right. by left.
  - right. right. left.
    apply (seginfo_name_table [xff; xec] (seginfo [xff; xec]));
      [by apply assoc_elem_of | exact H].
  - right. right. right. left.
    apply (seginfo_name_table [xff; xed] (seginfo [xff; xed]));
      [by apply assoc_elem_of | exact H].
  - by apply elem_of_nil in H.
Qed.

Lemma segment_name_quiet (s : segment) (following : bytes) :
  quiet s -> segment_name s following ∉ dispatched.
Proof.
  unfold quiet. intros Hq Hin. apply Hq.
  destruct s as [marker | marker hi lo body]; simpl in *.
  - by apply seginfo_name_dispatched.
  - case_bool_decide as He1.
    + subst marker. unfold metadata_markers. rewrite !elem_of_cons.
      right. by left.
    + by apply seginfo_name_dispatched.
Qed.

Lemma segment_entries_quiet (tail : bytes) (segs : list segment) :
  forall pos,
    Forall quiet segs ->
    Forall (fun e => e.1 ∉ dispatched) (segment_entries pos segs tail).
Proof.
  induction segs as [|s segs IH]; intros pos Hq; simpl; [constructor|].
  inversion Hq; subst. constructor; [by apply segment_name_quiet | by apply IH].
Qed.

Lemma tail_entries_quiet (pos : Z) (tail : bytes) :
  tail_ok tail -> Forall (fun e => e.1 ∉ dispatched) (tail_entries pos tail).
Proof.
  intros [Hshort | (a & b & rest & -> & Hstop)].
  - destruct tail as [|a [|b rest]]; simpl in *; [constructor | constructor | lia].
  - simpl. constructor; [|constructor]. simpl. intros Hin.
    unfold stop_names in Hstop. rewrite !elem_of_cons in Hstop.
    unfold dispatched in Hin. rewrite !elem_of_cons in Hin.
    destruct Hstop as [H | [H | H]]; [| |by apply elem_of_nil in H];
      rewrite H in Hin;
      repeat (destruct Hin as [Hin | Hin]; [vm_compute in Hin; discriminate|]);
      by apply elem_of_nil in Hin.
Qed.

Section ReadmetaRuns.

Variable EXIF_TAGS : gmap str str.
Variable fromstring : str -> option Element.

Lemma readmeta_segment_quiet (fuel : nat) (e : str * Z) (st : state) :
  e.1 ∉ dispatched ->
  readmeta_segment EXIF_TAGS fromstring fuel e st = (Ret tt, st).
Proof.
  destruct e as [k off]. simpl. unfold dispatched. rewrite !elem_of_cons.
  intros Hk. unfold readmeta_segment.
  rewrite !bool_decide_eq_false_2 by (intros ->; apply Hk; tauto).
  reflexivity.
Qed.

Lemma for_each_quiet (fuel : nat) (es : list (str * Z)) (st : state) :
  Forall (fun e => e.1 ∉ dispatched) es ->
  for_each es (readmeta_segment EXIF_TAGS fromstring fuel) st = (Ret tt, st).
Proof.
  induction 1 as [|e es He Hes IH]; simpl; [reflexivity|].
  etrans; [eapply bind_Ret, readmeta_segment_quiet, He|]. exact IH.
Qed.

(** X22: a file made of well-formed segments none of which is an APP0,
    APP1, APP12 or APP13 segment has no metadata for [readmeta]: the
    call returns the empty dictionary and prints nothing, whatever the
    dictionary and the position were before. *)
Theorem readmeta_no_metadata (fuel : nat) (soi tail : bytes)
    (segs : list segment) (st : state) :
  length soi = 2%nat ->
  Forall segment_wf segs -> Forall quiet segs -> tail_ok tail ->
  exists st',
    readmeta EXIF_TAGS fromstring fuel
      (soi ++ concat (map segment_bytes segs) ++ tail) st
    = (Ret ∅, st')
    /\ stdout st' = stdout st.
Proof.
  intros Hsoi Hwf Hq Htail.
  set (jpg_file := soi ++ concat (map segment_bytes segs) ++ tail).
  destruct (segment_map_segments soi tail segs (opened jpg_file st))
    as [p Hmap]; try done.
  eexists. split.
  - unfold readmeta.
    etrans; [eapply bind_Ret; reflexivity|].
    etrans; [eapply bind_Ret; reflexivity|].
    etrans; [eapply bind_Ret, Hmap|].
    etrans; [eapply bind_Ret, for_each_quiet|].
    { apply Forall_app. split;
        [by apply segment_entries_quiet | by apply tail_entries_quiet]. }
    reflexivity.
  - reflexivity.
Qed.

(** X23: a file made of well-formed segments with one APP0 segment, a
    valid JFIF identifier in it, and no APP1, APP12 or APP13 segment.
    [readmeta] returns exactly the three JFIF records of that segment,
    wherever the segment lies among the others, and prints nothing. *)
Theorem readmeta_jfif (fuel : nat) (soi tail : bytes)
    (pre post : list segment) (hi lo : byte) (hdr skip : bytes) (x y : byte)
    (more : bytes) (st : state) :
  let app0 := Framed [xff; xe0] hi lo (hdr ++ skip ++ [x; y] ++ more) in
  length soi = 2%nat ->
  Forall segment_wf (pre ++ app0 :: post) ->
  Forall quiet pre -> Forall quiet post -> tail_ok tail ->
  hdr ∈ [b_JFIF0; b_JFXX0] -> length skip = 7%nat ->
  exists st',
    readmeta EXIF_TAGS fromstring fuel
      (soi ++ concat (map segment_bytes (pre ++ app0 :: post)) ++ tail) st
    = (Ret (jfif_records hdr x y ∅), st')
    /\ stdout st' = stdout st.
Proof.
  intros app0 Hsoi Hwf Hpre Hpost Htail Hvalid Hskip.
  set (jpg_file := soi ++ concat (map segment_bytes (pre ++ app0 :: post))
                   ++ tail).
  destruct (segment_map_segments soi tail (pre ++ app0 :: post)
              (opened jpg_file st)) as [p Hmap]; try done.
  set (s1 := set_fpos p (opened jpg_file st)) in Hmap.
  set (seg_offset := 2 + Z.of_nat (length (concat (map segment_bytes pre)))).
  assert (Hhdr : length hdr = 5%nat).
  { rewrite !elem_of_cons in Hvalid.
    destruct Hvalid as [-> | [-> | H]]; [reflexivity | reflexivity |].
    by apply elem_of_nil in H. }
  destruct (read_app0_jfif_run seg_offset [xff; xe0] [hi; lo] hdr skip x y
              (more ++ concat (map segment_bytes post) ++ tail) s1)
    as (s2 & Hjfif & Hmeta & Hout); try done.
  { unfold seg_offset. lia. }
  { unfold seg_offset, s1, jpg_file. simpl fdata.
    rewrite map_app, concat_app. cbn [map concat segment_bytes app0].
    rewrite Z2Nat.inj_add, Nat2Z.id by lia.
    change (Z.to_nat 2) with 2%nat. rewrite <- drop_drop.
    rewrite <- Hsoi at 1. rewrite drop_app_length.
    rewrite <- !app_assoc. rewrite drop_app_length.
    reflexivity. }
  rewrite (bool_decide_eq_true_2 _ Hvalid) in Hjfif, Hmeta, Hout.
  rewrite bool_decide_eq_true_2 in Hout by reflexivity.
  exists s2. split; [|by rewrite Hout, !app_nil_r].
  unfold readmeta.
  etrans; [eapply bind_Ret; reflexivity|].
  etrans; [eapply bind_Ret; reflexivity|].
  etrans; [eapply bind_Ret, Hmap|].
  rewrite segment_entries_app. cbn [segment_entries].
  rewrite <- !app_assoc, <- app_comm_cons.
  etrans; [eapply bind_Ret|].
  { rewrite for_each_app.
    etrans; [eapply bind_Ret, for_each_quiet, segment_entries_quiet, Hpre|].
    cbn [for_each].
    etrans; [eapply bind_Ret|].
    { unfold readmeta_segment. cbn [segment_name app0].
      rewrite (bool_decide_eq_false_2 ([xff; xe0] = [xff; xe1]))
        by discriminate.
      change (name (seginfo [xff; xe0])) with (lit "APP0").
      rewrite bool_decide_eq_true_2 by reflexivity.
      etrans; [eapply bind_Ret, Hjfif|].
      rewrite !bool_decide_eq_false_2 by lit_neq. reflexivity. }
    apply for_each_quiet. apply Forall_app. split;
      [by apply segment_entries_quiet | by apply tail_entries_quiet]. }
  by rewrite Hmeta.
Qed.

End ReadmetaRuns.

Lemma readmeta_no_metadata_witness :
  exists st',
    readmeta ∅ (fun _ => None) 0
      ([xff; xd8; xff; xdb; x00; x04; x01; x02; xff; xd0; xff; xda])
      (empty_state [])
    = (Ret ∅, st')
    /\ stdout st' = [].
Proof.
  apply (readmeta_no_metadata ∅ (fun _ => None) 0 [xff; xd8] [xff; xda]
           quiet_segments (empty_state [])).
  - reflexivity.
  - unfold quiet_segments.
    repeat (apply Forall_cons; split;
            [unfold segment_wf; simpl; repeat split; decide_closed|]).
    apply Forall_nil_2.
  - unfold quiet_segments.
    repeat (apply Forall_cons; split; [unfold quiet; simpl; decide_closed|]).
    apply Forall_nil_2.
  - right. exists xff, xda, []. split; [reflexivity|].
    unfold stop_names. rewrite !elem_of_cons. right. left. reflexivity.
Defined.

Lemma readmeta_jfif_witness :
  exists st',
    readmeta ∅ (fun _ => None) 0
      ([xff; xd8]
       ++ [xff; xdb; x00; x04; x01; x02; xff; xd0]
       ++ ([xff; xe0; x00; x10] ++ b_JFIF0
           ++ [x01; x01; x00; x00; x48; x00; x48; x03; x04])
       ++ [xff; xfe; x00; x03; x41]
       ++ [xff; xd9])
      (empty_state [])
    = (Ret (jfif_records b_JFIF0 x03 x04 ∅), st')
    /\ stdout st' = [].
Proof.
  apply (readmeta_jfif ∅ (fun _ => None) 0 [xff; xd8] [xff; xd9]
           quiet_segments [comment_segment] x00 x10 b_JFIF0
           [x01; x01; x00; x00; x48; x00; x48] x03 x04 [] (empty_state [])).
  - reflexivity.
  - unfold quiet_segments, comment_segment.
    repeat (apply Forall_cons; split;
            [unfold segment_wf; simpl; repeat split; decide_closed|]).
    apply Forall_nil_2.
  - unfold quiet_segments.
    repeat (apply Forall_cons; split; [unfold quiet; simpl; decide_closed|]).
    apply Forall_nil_2.
  - unfold comment_segment.
    repeat (apply Forall_cons; split; [unfold quiet; simpl; decide_closed|]).
    apply Forall_nil_2.
  - right. exists xff, xd9, []. split; [reflexivity|].
    unfold stop_names. rewrite !elem_of_cons. left. reflexivity.
  - apply elem_of_cons. by left.
  - reflexivity.
Defined.

(** ** The readers that only leave a note *)

Lemma verify_marker_app_frame (mt : str) (expected : bytes) (st : state) :
  (mt, expected) ∈ app_markers ->
  exists st',
    verify_marker mt st = (Ret tt, st') /\ meta_dict st' = meta_dict st.
Proof.
  intros Hin. rewrite (verify_marker_app mt expected) by exact Hin.
  eexists. split; [reflexivity|]. simpl. by destruct (bool_decide _).
Qed.

Lemma read_frame (n : Z) (st : state) :
  0 <= n ->
  exists bs st', read n st = (Ret bs, st') /\ meta_dict st' = meta_dict st.
Proof.
  intros Hn. rewrite read_peek by exact Hn. by eexists _, _.
Qed.

Lemma placeholder_run (reader : Z -> M unit) (key : str) (seg_offset : Z)
    (st : state) :
  (reader, key) ∈ placeholder_readers -> 0 <= seg_offset ->
  exists st',
    reader seg_offset st = (Ret tt, st')
    /\ meta_dict st'
       = <[key := plain_record (offset_text seg_offset)]> (meta_dict st).
Proof.
  intros Hin Hoff. unfold placeholder_readers in Hin.
  rewrite !elem_of_cons in Hin.
  destruct Hin as [[= -> ->] | [[= -> ->] | [[= -> ->] | Hin]]];
    [| | |by apply elem_of_nil in Hin].
  - destruct (verify_marker_app_frame (lit "APP1") [xff; xe1]
                (set_fpos seg_offset st)) as (s1 & Hv & Hm1).
    { unfold app_markers. rewrite !elem_of_cons. right. by left. }
    destruct (read_frame 2 s1) as (b2 & s2 & Hr2 & Hm2); [lia|].
    destruct (read_frame 35 s2) as (b35 & s3 & Hr3 & Hm3); [lia|].
    eexists. split.
    + unfold read_app1_xmpext.
      etrans; [eapply bind_Ret, seek_set_to, Hoff|].
      etrans; [eapply bind_Ret, Hv|].
      etrans; [eapply bind_Ret, Hr2|].
      etrans; [eapply bind_Ret, Hr3|].
      reflexivity.
    + simpl. by rewrite Hm3, Hm2, Hm1.
  - destruct (verify_marker_app_frame (lit "APP12") [xff; xec]
                (set_fpos seg_offset st)) as (s1 & Hv & Hm1).
    { unfold app_markers. rewrite !elem_of_cons. do 4 right. by left. }
    eexists. split.
    + unfold read_app12.
      etrans; [eapply bind_Ret, seek_set_to, Hoff|].
      etrans; [eapply bind_Ret, Hv|].
      reflexivity.
    + simpl. by rewrite Hm1.
  - destruct (verify_marker_app_frame (lit "APP13") [xff; xed]
                (set_fpos seg_offset st)) as (s1 & Hv & Hm1).
    { unfold app_markers. rewrite !elem_of_cons. do 5 right. by left. }
    eexists. split.
    + unfold read_app13.
      etrans; [eapply bind_Ret, seek_set_to, Hoff|].
      etrans; [eapply bind_Ret, Hv|].
      reflexivity.
    + simpl. by rewrite Hm1.
Qed.

(** X24: [read_app1_xmpext], [read_app12] and [read_app13] never fail
    and never look at the payload: whatever bytes lie at the offset,
    each returns and leaves one record under its own fixed key, holding
    the text "offset = N".  The key does not depend on the segment, so of
    several segments of one kind only the last one is left in the
    dictionary. *)
Theorem placeholder_last_wins (reader : Z -> M unit) (key : str)
    (offset1 offset2 : Z) (st : state) :
  (reader, key) ∈ placeholder_readers ->
  0 <= offset1 -> 0 <= offset2 ->
  exists st1 st2,
    reader offset1 st = (Ret tt, st1)
    /\ meta_dict st1
       = <[key := plain_record (offset_text offset1)]> (meta_dict st)
    /\ reader offset2 st1 = (Ret tt, st2)
    /\ meta_dict st2
       = <[key := plain_record (offset_text offset2)]> (meta_dict st).
Proof.
  intros Hin H1 H2.
  destruct (placeholder_run reader key offset1 st Hin H1) as (st1 & Hr1 & Hm1).
  destruct (placeholder_run reader key offset2 st1 Hin H2) as (st2 & Hr2 & Hm2).
  exists st1, st2. repeat split; try assumption.
  rewrite Hm2, Hm1. apply insert_insert_eq.
Qed.

Lemma placeholder_last_wins_witness :
  exists st1 st2,
    read_app13 2 (empty_state [xff; xd8]) = (Ret tt, st1)
    /\ read_app13 40 st1 = (Ret tt, st2)
    /\ meta_dict st2
       = {[ lit "APP13|///ToDo" := plain_record (VStr (lit "offset = 40")) ]}.
Proof.
  destruct (placeholder_last_wins read_app13 (lit "APP13|///ToDo") 2 40
              (empty_state [xff; xd8]))
    as (st1 & st2 & Hr1 & _ & Hr2 & Hm2); try lia.
  - unfold placeholder_readers. rewrite !elem_of_cons. right. right. by left.
  - exists st1, st2. split; [exact Hr1 | split; [exact Hr2|]].
    rewrite Hm2. reflexivity.
Defined.

(** ** [jpegsegments.py]: the list of segment dictionaries *)

Lemma seginfo_short (marker : bytes) :
  length marker ≠ 2%nat ->
  seginfo marker = SegInfo (concat (map hex02 marker) ++ lit "?") false false.
Proof.
  intros Hlen. apply seginfo_unknown.
  destruct (assoc marker segdata) as [info|] eqn:E; [|reflexivity].
  apply assoc_elem_of in E.
  assert (Hall : Forall (fun r => length r.1 = 2%nat) segdata)
    by decide_closed.
  rewrite Forall_forall in Hall. specialize (Hall _ E). simpl in Hall. lia.
Qed.

Lemma last_names_question (s : str) : s ++ lit "?" ∉ last_names.
Proof.
  unfold last_names. rewrite !elem_of_cons. intros [H | [H | H]].
  - apply (f_equal last) in H. change (lit "?") with [63] in H.
    rewrite last_snoc in H. vm_compute in H. discriminate.
  - apply (f_equal last) in H. change (lit "?") with [63] in H.
    rewrite last_snoc in H. vm_compute in H. discriminate.
  - by apply elem_of_nil in H.
Qed.

Lemma last_names_stop (n : str) : n ∈ last_names <-> n ∈ stop_names.
Proof.
  unfold last_names, stop_names. rewrite !elem_of_cons, !elem_of_nil. tauto.
Qed.

(** At a marker named SOS or EOI: the dictionary has no next segment. *)
Lemma segment_read_stop (a b : byte) (rest : bytes) (st : state) :
  0 <= fpos st -> remaining st = a :: b :: rest ->
  name (seginfo [a; b]) ∈ last_names ->
  segment_read st = (Ret (stop_dict (fpos st) [a; b]), set_fpos (fpos st + 2) st).
Proof.
  intros Hpos Hrem Hstop. unfold segment_read.
  etrans; [eapply bind_Ret; reflexivity|].
  etrans; [eapply bind_Ret, (read_remaining 2 [a; b] rest);
           [exact Hrem | reflexivity]|].
  cbv zeta. fold last_names.
  rewrite bool_decide_eq_true_2 by exact Hstop. reflexivity.
Qed.

(** With fewer than two bytes left: the marker is not in the table, so
    the dictionary names the position two bytes further as the next
    segment. *)
Lemma segment_read_short (st : state) :
  0 <= fpos st -> (length (remaining st) < 2)%nat ->
  exists d,
    segment_read st
    = (Ret d, set_fpos (fpos st + Z.of_nat (length (remaining st))) st)
    /\ sd_next_segment d = Some (fpos st + 2).
Proof.
  intros Hpos Hshort. unfold segment_read.
  assert (Hpeek : peek 2 st = remaining st).
  { rewrite peek_remaining. apply take_ge. lia. }
  eexists. split.
  - etrans; [eapply bind_Ret; reflexivity|].
    etrans; [eapply bind_Ret, read_peek; lia|].
    change (Z.to_nat 2) with 2%nat. rewrite Hpeek. cbv zeta.
    rewrite seginfo_short by lia. cbn [name has_data has_meta]. fold last_names.
    rewrite bool_decide_eq_false_2 by apply last_names_question.
    reflexivity.
  - reflexivity.
Qed.

(** At a segment that the file holds in full. *)
Lemma segment_read_segment (s : segment) (rest : bytes) (st : state) :
  0 <= fpos st -> remaining st = segment_bytes s ++ rest ->
  segment_known s ->
  segment_read st
  = (Ret (segment_dict (fpos st) s),
     set_fpos (fpos st + Z.of_nat (length (segment_bytes s))) st).
Proof.
  intros Hpos Hrem ((Hlen & Hgo & Hshape) & Hdata).
  rewrite <- last_names_stop in Hgo.
  unfold segment_read.
  etrans; [eapply bind_Ret; reflexivity|].
  destruct s as [marker | marker hi lo body]; simpl in *.
  - etrans; [eapply bind_Ret, (read_remaining 2 marker rest);
             [exact Hrem | by rewrite Hlen]|].
    cbv zeta. fold last_names.
    rewrite bool_decide_eq_false_2 by exact Hgo.
    rewrite Hdata. simpl. unfold ret, segment_dict. simpl.
    by rewrite Hdata, Hlen.
  - destruct Hshape as [Hframed Hsize].
    rewrite <- app_assoc in Hrem.
    etrans; [eapply bind_Ret, (read_remaining 2 marker);
             [exact Hrem | by rewrite Hlen]|].
    cbv zeta. fold last_names.
    rewrite bool_decide_eq_false_2 by exact Hgo.
    rewrite Hdata. cbn [negb].
    assert (Hrem2 : remaining (set_fpos (fpos st + 2) st)
                    = [hi; lo] ++ body ++ rest).
    { eapply remaining_advance; [exact Hpos | exact Hrem | by rewrite Hlen]. }
    etrans; [eapply bind_Ret, (read_remaining 2 [hi; lo]);
             [exact Hrem2 | reflexivity]|].
    assert (Hunpack : struct_unpack BigEndian FmtH [hi; lo]
                      = Some (Z.of_nat (length body) + 2)).
    { unfold struct_unpack. simpl. rewrite <- Hsize.
      f_equal. unfold be_uint. cbv [rev app le_uint]. lia. }
    rewrite Hunpack.
    replace (Z.of_nat (length body) + 2 - 2) with (Z.of_nat (length body))
      by lia.
    assert (Hrem4 : remaining (set_fpos (fpos st + 2 + 2) st) = body ++ rest).
    { apply (remaining_advance [hi; lo] _ (set_fpos (fpos st + 2) st));
        [simpl; lia | exact Hrem2 | reflexivity]. }
    unfold segment_dict. simpl. rewrite Hdata.
    destruct (has_meta (seginfo marker)).
    + etrans; [eapply bind_Ret, (read_remaining _ body rest);
               [exact Hrem4 | reflexivity]|].
      etrans; [eapply bind_Ret; reflexivity|].
      unfold ret. simpl. rewrite !length_app, Hlen. simpl.
      replace (fpos st + Z.of_nat (S (S (S (S (length body))))))
        with (fpos st + 2 + 2 + Z.of_nat (length body)) by lia.
      reflexivity.
    + etrans; [eapply bind_Ret|].
      { unfold seek_cur. simpl.
        destruct (_ <? 0) eqn:E; [apply Z.ltb_lt in E; lia | reflexivity]. }
      etrans; [eapply bind_Ret; reflexivity|].
      unfold ret. simpl. rewrite !length_app, Hlen. simpl.
      replace (fpos st + Z.of_nat (S (S (S (S (length body))))))
        with (fpos st + 2 + 2 + Z.of_nat (length body)) by lia.
      reflexivity.
Qed.

Lemma segment_list_loop_next (fuel : nat) (acc : list segdict) (st st1 : state)
    (d : segdict) (n : Z) :
  segment_read st = (Ret d, st1) -> sd_next_segment d = Some n -> 0 < n ->
  segment_list_loop (S fuel) acc st
  = segment_list_loop fuel (acc ++ [d]) (set_fpos n st1).
Proof.
  intros Hread Hnext Hn.
  change (segment_list_loop (S fuel) acc)
    with (let* seg := segment_read in
          let seg_list := acc ++ [seg] in
          let nextseg := sd_next_segment seg in
          if truthy nextseg then
            match nextseg with
            | Some pos => seek_set pos ;;; segment_list_loop fuel seg_list
            | None => ret seg_list
            end
          else ret seg_list).
  etrans; [eapply bind_Ret, Hread|]. cbv zeta. rewrite Hnext. simpl.
  destruct (n =? 0) eqn:E; [apply Z.eqb_eq in E; lia|]. simpl.
  etrans; [eapply bind_Ret, seek_set_to; lia|]. reflexivity.
Qed.

Lemma segment_list_loop_last (fuel : nat) (acc : list segdict) (st st1 : state)
    (d : segdict) :
  segment_read st = (Ret d, st1) -> sd_next_segment d = None ->
  segment_list_loop (S fuel) acc st = (Ret (acc ++ [d]), st1).
Proof.
  intros Hread Hnext.
  change (segment_list_loop (S fuel) acc)
    with (let* seg := segment_read in
          let seg_list := acc ++ [seg] in
          let nextseg := sd_next_segment seg in
          if truthy nextseg then
            match nextseg with
            | Some pos => seek_set pos ;;; segment_list_loop fuel seg_list
            | None => ret seg_list
            end
          else ret seg_list).
  etrans; [eapply bind_Ret, Hread|]. cbv zeta. rewrite Hnext. reflexivity.
Qed.

(** Once the handle is at the end of the file, the loop goes on for
    ever: every read gives a marker that is not in the table, for which
    the next segment is two bytes further. *)
Lemma segment_list_loop_eof (fuel : nat) :
  forall acc st,
    0 <= fpos st -> (length (remaining st) < 2)%nat ->
    fst (segment_list_loop fuel acc st) = OutOfFuel.
Proof.
  induction fuel as [|fuel IH]; intros acc st Hpos Hshort; [reflexivity|].
  destruct (segment_read_short st Hpos Hshort) as (d & Hread & Hnext).
  rewrite (segment_list_loop_next fuel acc st _ d (fpos st + 2) Hread Hnext)
    by lia.
  apply IH; [simpl; lia|].
  unfold remaining in *. simpl. rewrite length_drop in *. lia.
Qed.

Lemma segment_known_length (s : segment) :
  segment_known s -> (2 <= length (segment_bytes s))%nat.
Proof.
  intros ((Hlen & _) & _). destruct s; simpl in *; [lia|].
  rewrite length_app. lia.
Qed.

(** The loop over segments that the file holds in full. *)
Lemma segment_list_loop_segments (tail : bytes) (segs : list segment) :
  forall fuel acc st,
    0 <= fpos st ->
    remaining st = concat (map segment_bytes segs) ++ tail ->
    Forall segment_known segs ->
    segment_list_loop (length segs + fuel) acc st
    = segment_list_loop fuel (acc ++ segment_dicts (fpos st) segs)
        (set_fpos
           (fpos st + Z.of_nat (length (concat (map segment_bytes segs)))) st).
Proof.
  induction segs as [|s segs IH]; intros fuel acc st Hpos Hrem Hknown.
  - simpl. rewrite app_nil_r, Z.add_0_r. by rewrite set_fpos_id.
  - inversion Hknown as [|? ? Hs Hrest]; subst.
    simpl in Hrem. rewrite <- app_assoc in Hrem.
    pose proof (segment_known_length s Hs) as Hlen.
    cbn [length Nat.add].
    rewrite (segment_list_loop_next _ acc st _ _
               (fpos st + Z.of_nat (length (segment_bytes s)))
               (segment_read_segment s _ st Hpos Hrem Hs) eq_refl) by lia.
    change (set_fpos (fpos st + Z.of_nat (length (segment_bytes s)))
              (set_fpos (fpos st + Z.of_nat (length (segment_bytes s))) st))
      with (set_fpos (fpos st + Z.of_nat (length (segment_bytes s))) st).
    rewrite IH; [|simpl; lia| |exact Hrest].
    + cbn [segment_dicts map concat fpos set_fpos]. rewrite <- app_assoc.
      rewrite length_app. f_equal.
      destruct st. unfold set_fpos. simpl. f_equal. lia.
    + eapply remaining_advance; [exact Hpos | exact Hrem | reflexivity].
Qed.

Lemma segment_list_loop_diverges (tail : bytes) (segs : list segment) :
  forall fuel acc st,
    0 <= fpos st ->
    remaining st = concat (map segment_bytes segs) ++ tail ->
    Forall segment_known segs -> (length tail < 2)%nat ->
    fst (segment_list_loop fuel acc st) = OutOfFuel.
Proof.
  induction segs as [|s segs IH]; intros fuel acc st Hpos Hrem Hknown Htail.
  - apply segment_list_loop_eof; [exact Hpos|]. by rewrite Hrem.
  - destruct fuel as [|fuel]; [reflexivity|].
    inversion Hknown as [|? ? Hs Hrest]; subst.
    simpl in Hrem. rewrite <- app_assoc in Hrem.
    pose proof (segment_known_length s Hs) as Hlen.
    rewrite (segment_list_loop_next _ acc st _ _
               (fpos st + Z.of_nat (length (segment_bytes s)))
               (segment_read_segment s _ st Hpos Hrem Hs) eq_refl) by lia.
    apply IH; [simpl; lia | | exact Hrest | exact Htail].
    apply (remaining_advance (segment_bytes s) _ st);
      [exact Hpos | exact Hrem | reflexivity].
Qed.

(** X25: [segment_list] on a file made of segments that it can step
    over, followed by a marker named SOS or EOI.  The list has one
    dictionary per segment, in the order of the file and starting with
    the SOI marker at offset 0, and ends with the dictionary of the SOS
    or EOI marker, which has no next segment.  The payload of a segment
    with metadata is its body, byte for byte; the other segments have no
    payload. *)
Theorem segment_list_wellformed (fuel : nat) (segs : list segment)
    (a b : byte) (rest : bytes) (st : state) :
  Forall segment_known segs ->
  name (seginfo [a; b]) ∈ last_names ->
  (length segs < fuel)%nat ->
  fst (segment_list fuel
         (concat (map segment_bytes segs) ++ a :: b :: rest) st)
  = Ret (segment_dicts 0 segs
         ++ [stop_dict (Z.of_nat (length (concat (map segment_bytes segs))))
               [a; b]]).
Proof.
  intros Hknown Hstop Hfuel.
  set (filename := concat (map segment_bytes segs) ++ a :: b :: rest).
  unfold segment_list.
  etrans; [apply f_equal; eapply bind_Ret; reflexivity|].
  set (s0 := mkState filename 0 (stdout st) (meta_dict st) (subifd_queue st)
               (trace st)).
  replace fuel with (length segs + S (fuel - S (length segs)))%nat by lia.
  rewrite (segment_list_loop_segments (a :: b :: rest) segs _ [] s0);
    [|simpl; lia | reflexivity | exact Hknown].
  erewrite segment_list_loop_last;
    [reflexivity | apply (segment_read_stop a b rest) | reflexivity].
  - simpl. lia.
  - unfold remaining. simpl fpos. simpl fdata. unfold filename.
    rewrite Z.add_0_l, Nat2Z.id. apply drop_app_length.
  - exact Hstop.
Qed.

(** X26: [segment_list] has no test for the end of the file.  On a file
    made of segments that it can step over and that ends without a
    marker named SOS or EOI (at most one stray byte follows the
    segments), the loop never ends: at the end of the file every read
    gives a marker that is not in the table and the position two bytes
    further as the next segment.  [segment_map] returns on the same
    file. *)
Theorem segment_list_no_stop_marker (fuel : nat) (segs : list segment)
    (tail : bytes) (st : state) :
  Forall segment_known segs -> (length tail < 2)%nat ->
  fst (segment_list fuel (concat (map segment_bytes segs) ++ tail) st)
  = OutOfFuel.
Proof.
  intros Hknown Htail. unfold segment_list.
  etrans; [apply f_equal; eapply bind_Ret; reflexivity|].
  apply (segment_list_loop_diverges tail segs);
    [simpl; lia | reflexivity | exact Hknown | exact Htail].
Qed.

Lemma listed_segments_known : Forall segment_known listed_segments.
Proof.
  unfold listed_segments.
  repeat (apply Forall_cons; split;
          [unfold segment_known, segment_wf; simpl; repeat split;
           first [reflexivity | decide_closed]|]).
  apply Forall_nil_2.
Qed.

Lemma segment_list_wellformed_witness :
  exists l,
    fst (segment_list 4
           [xff; xd8; xff; xe0; x00; x04; x41; x42; xff; xdb; x00; x03; x07;
            xff; xd9]
           (empty_state []))
    = Ret l
    /\ map sd_payload l = [None; Some [x41; x42]; None; None]
    /\ map sd_offset l = [0; 2; 8; 13].
Proof.
  eexists. split.
  - apply (segment_list_wellformed 4 listed_segments xff xd9 []
             (empty_state [])).
    + exact listed_segments_known.
    + unfold last_names. rewrite !elem_of_cons. right. by left.
    + simpl. lia.
  - split; reflexivity.
Defined.

Lemma segment_list_no_stop_marker_witness :
  fst (segment_list 1000
         [xff; xd8; xff; xe0; x00; x04; x41; x42; xff; xdb; x00; x03; x07]
         (empty_state []))
  = OutOfFuel.
Proof.
  apply (segment_list_no_stop_marker 1000 listed_segments [] (empty_state [])).
  - exact listed_segments_known.
  - simpl. lia.
Defined.

(** What [segment_read] says about the next segment, on any file: none
    at a marker named SOS or EOI, and otherwise a position after the
    start of the file. *)
Lemma segment_read_next (st st1 : state) (d : segdict) :
  0 <= fpos st -> segment_read st = (Ret d, st1) ->
  0 <= fpos st1
  /\ ((sd_segtype d ∈ last_names /\ sd_next_segment d = None)
      \/ ((sd_segtype d ∉ last_names)
          /\ exists n, sd_next_segment d = Some n /\ 0 < n)).
Proof.
  intros Hpos. unfold segment_read.
  unfold bind at 1, tell at 1. unfold bind at 1.
  rewrite read_peek by lia. change (Z.to_nat 2) with 2%nat.
  set (mark := peek 2 st). cbv zeta. fold last_names.
  set (st2 := set_fpos (fpos st + Z.of_nat (length mark)) st).
  destruct (decide (name (seginfo mark) ∈ last_names)) as [Hstop | Hgo].
  { rewrite bool_decide_eq_true_2 by exact Hstop.
    intros [= <- <-]. simpl. split; [lia|]. left. by split. }
  rewrite bool_decide_eq_false_2 by exact Hgo.
  destruct (has_data (seginfo mark)) eqn:Hdata; cbn [negb].
  2:{ intros [= <- <-]. simpl. split; [lia|]. right. split; [exact Hgo|].
      eexists. split; [reflexivity | lia]. }
  assert (Hmark : length mark = 2%nat).
  { destruct (decide (length mark = 2%nat)) as [H | H]; [exact H|].
    rewrite (seginfo_short _ H) in Hdata. discriminate. }
  unfold bind at 1. rewrite read_peek by lia. change (Z.to_nat 2) with 2%nat.
  set (ds := peek 2 st2).
  unfold struct_unpack. case_bool_decide as Hds; [|discriminate].
  simpl in Hds. pose proof (be_uint_nonneg ds) as Hsize.
  destruct (has_meta (seginfo mark)).
  - unfold bind at 1, read at 1.
    destruct (be_uint ds - 2 <? -1); [discriminate|].
    unfold bind, tell, ret. intros [= <- <-]. simpl.
    split; [lia|]. right. split; [exact Hgo|].
    eexists. split; [reflexivity | lia].
  - unfold bind at 1, seek_cur at 1. simpl fpos.
    destruct (_ <? 0) eqn:E; [discriminate|].
    unfold bind, tell, ret. intros [= <- <-]. simpl.
    split; [lia|]. right. split; [exact Hgo|].
    eexists. split; [reflexivity | lia].
Qed.

Lemma segment_list_loop_ends (fuel : nat) :
  forall acc st l st',
    0 <= fpos st ->
    Forall (fun e => sd_segtype e ∉ last_names) acc ->
    segment_list_loop fuel acc st = (Ret l, st') ->
    exists front d,
      l = front ++ [d]
      /\ sd_segtype d ∈ last_names /\ sd_next_segment d = None
      /\ Forall (fun e => sd_segtype e ∉ last_names) front.
Proof.
  induction fuel as [|fuel IH]; intros acc st l st' Hpos Hacc Hrun;
    [discriminate|].
  destruct (segment_read st) as [[d| |] st1] eqn:Hread.
  - destruct (segment_read_next st st1 d Hpos Hread)
      as (Hpos1 & [[Hstop Hnone] | (Hgo & n & Hnext & Hn)]).
    + rewrite (segment_list_loop_last fuel acc st st1 d Hread Hnone) in Hrun.
      inversion Hrun; subst. by exists acc, d.
    + rewrite (segment_list_loop_next fuel acc st st1 d n Hread Hnext Hn)
        in Hrun.
      apply IH in Hrun; [exact Hrun | simpl; lia|].
      apply Forall_app. split; [exact Hacc | by constructor].
  - simpl in Hrun. unfold bind in Hrun. rewrite Hread in Hrun. discriminate.
  - simpl in Hrun. unfold bind in Hrun. rewrite Hread in Hrun. discriminate.
Qed.

(** X27: whatever the file is, [segment_list] returns only at a marker
    named SOS or EOI: the last dictionary of a returned list is the one
    of such a marker and has no next segment, and no dictionary before
    it has such a name. *)
Theorem segment_list_ends_at_stop (fuel : nat) (filename : bytes)
    (st : state) (l : list segdict) (st' : state) :
  segment_list fuel filename st = (Ret l, st') ->
  exists front d,
    l = front ++ [d]
    /\ sd_segtype d ∈ last_names /\ sd_next_segment d = None
    /\ Forall (fun e => sd_segtype e ∉ last_names) front.
Proof.
  unfold segment_list. intros Hrun.
  rewrite (bind_Ret (open_rb filename) _ st _ tt eq_refl) in Hrun.
  eapply (segment_list_loop_ends fuel []); [| constructor | exact Hrun].
  simpl. lia.
Qed.

Lemma segment_list_ends_at_stop_witness :
  exists front d,
    fst (segment_list 2 [xff; xd8; xff; xd9; xff; xe0] (empty_state []))
    = Ret (front ++ [d])
    /\ sd_offset d = 2 /\ sd_segtype d = lit "EOI".
Proof.
  destruct (segment_list_ends_at_stop 2 [xff; xd8; xff; xd9; xff; xe0]
              (empty_state [])
              [segment_dict 0 (Bare [xff; xd8]); stop_dict 2 [xff; xd9]]
              (mkState [xff; xd8; xff; xd9; xff; xe0] 4 [] ∅ [] []))
    as (front & d & Hl & _).
  - vm_compute. reflexivity.
  - exists front, d. rewrite <- Hl. repeat split.
    + apply (f_equal (last)) in Hl. rewrite last_snoc in Hl.
      injection Hl as <-. reflexivity.
    + apply (f_equal (last)) in Hl. rewrite last_snoc in Hl.
      injection Hl as <-. reflexivity.
Defined.

(** ** The elements of an XMP packet *)

Lemma dot_run_id (s : str) : 10 ∉ s -> dot_run s = s.
Proof.
  induction s as [|c s IH]; intros Hnl; [reflexivity|]. simpl.
  rewrite not_elem_of_cons in Hnl. destruct Hnl as [Hc Hs].
  destruct (c =? 10) eqn:E; [apply Z.eqb_eq in E; congruence|].
  by rewrite IH.
Qed.

Lemma split_ns_tag_last_brace (ns name : str) (n : nat) :
  ns ≠ [] -> name ≠ [] -> 125 ∉ name ->
  (length ns <= n)%nat ->
  split_ns_tag n (ns ++ 125 :: name) = Some (ns, name).
Proof.
  intros Hns Hname Hbrace. induction n as [|n IH]; intros Hn.
  - destruct ns; [congruence | simpl in Hn; lia].
  - cbn [split_ns_tag].
    destruct (decide (S n = length ns)) as [Heq | Hne].
    + rewrite Heq.
      rewrite bool_decide_eq_true_2
        by (by rewrite list_lookup_middle).
      rewrite bool_decide_eq_true_2
        by (rewrite length_app; destruct name; [congruence | simpl; lia]).
      cbn [andb]. rewrite take_app_length.
      replace (ns ++ 125 :: name) with ((ns ++ [125]) ++ name)
        by (by rewrite <- app_assoc).
      rewrite drop_app_length' by (rewrite length_app; simpl; lia).
      reflexivity.
    + rewrite bool_decide_eq_false_2; [cbn [andb]; apply IH; lia|].
      intros Hlook. apply Hbrace.
      rewrite lookup_app_r in Hlook by lia.
      destruct (S n - length ns)%nat as [|k] eqn:Ek; [lia|].
      simpl in Hlook. by apply list_elem_of_lookup_2 in Hlook.
Qed.

(** The regular expression of [read_app1_xmp] on a qualified tag gives
    the namespace and the name back. *)
Lemma search_ns_tag_qualified (ns name : str) :
  ns ≠ [] -> name ≠ [] -> 10 ∉ ns -> 10 ∉ name -> 125 ∉ name ->
  search_ns_tag (qualified ns name) = Some (ns, name).
Proof.
  intros Hns Hname Hnl1 Hnl2 Hbrace. unfold qualified.
  cbn [search_ns_tag]. change (123 =? 123) with true. cbv iota.
  rewrite dot_run_id.
  - rewrite split_ns_tag_last_brace; try done.
    rewrite length_app. lia.
  - rewrite not_elem_of_app, not_elem_of_cons. repeat split; [done | lia | done].
Qed.

Lemma lstrip_nil (s : str) : lstrip s = [] <-> forallb isspace s = true.
Proof.
  induction s as [|c s IH]; simpl; [done|].
  destruct (isspace c); simpl; [exact IH|]. split; discriminate.
Qed.

Lemma lstrip_keeps (s : str) (c : Z) :
  c ∈ s -> isspace c = false -> lstrip s ≠ [].
Proof.
  intros Hin Hc Hnil. apply lstrip_nil in Hnil.
  rewrite forallb_forall in Hnil.
  apply list_elem_of_In in Hin. rewrite (Hnil _ Hin) in Hc. discriminate.
Qed.

(** [strip] gives the empty string exactly for a string of white
    space. *)
Lemma strip_nil (s : str) : strip s = [] <-> forallb isspace s = true.
Proof.
  rewrite <- lstrip_nil. unfold strip. split.
  - intros H. destruct (lstrip s) as [|c r] eqn:E; [reflexivity|]. exfalso.
    assert (Hc : isspace c = false).
    { destruct s as [|a s]; [discriminate|].
      revert E. clear. revert a. induction s as [|b s IH]; intros a; simpl.
      - destruct (isspace a) eqn:Ea; [discriminate | congruence].
      - destruct (isspace a) eqn:Ea; [apply IH | congruence]. }
    apply (f_equal (@rev Z)) in H. rewrite rev_involutive in H. simpl in H.
    revert H. apply (lstrip_keeps _ c); [|exact Hc].
    rewrite elem_of_app, list_elem_of_singleton. by right.
  - intros ->. reflexivity.
Qed.

(** The run of the loop body of [read_app1_xmp] on an element with a
    text and a qualified tag. *)
Lemma xmp_child_run (ns name t : str) (children : list Element)
    (st : state) :
  ns ≠ [] -> name ≠ [] -> 10 ∉ ns -> 10 ∉ name -> 125 ∉ name ->
  xmp_child (Elem (qualified ns name) (Some t) children) st
  = (Ret tt,
     if forallb isspace t then st
     else set_meta_dict
            (<[xmpns_tagtype ns ++ lit "|" ++ name := xmp_record t]>
               (meta_dict st)) st).
Proof.
  intros Hns Hname Hnl1 Hnl2 Hbrace. unfold xmp_child, text, tag.
  cbn [opt_str py_str].
  destruct (forallb isspace t) eqn:Ht.
  - rewrite bool_decide_eq_true_2 by (by apply strip_nil). reflexivity.
  - rewrite bool_decide_eq_false_2
      by (rewrite strip_nil; congruence).
    by rewrite search_ns_tag_qualified.
Qed.

(** X28: what [read_app1_xmp] does with one element that has a text
    and a qualified tag [{ns}name] (the name without a closing brace,
    neither part empty or with a newline).  A text of white space only
    is skipped; any other text is recorded as it is, not stripped, under
    the key made of the category of the namespace, a bar and the name,
    with the constant fields ['', '', 1]. *)
Theorem xmp_child_qualified (ns name t : str) (children : list Element)
    (st : state) :
  ns ≠ [] -> name ≠ [] -> 10 ∉ ns -> 10 ∉ name -> 125 ∉ name ->
  xmp_child (Elem (qualified ns name) (Some t) children) st
  = (Ret tt,
     if forallb isspace t then st
     else set_meta_dict
            (<[xmpns_tagtype ns ++ lit "|" ++ name := xmp_record t]>
               (meta_dict st)) st).
Proof. apply xmp_child_run. Qed.

Lemma xmp_child_qualified_witness :
  xmp_child
    (Elem (qualified (lit "http://ns.adobe.com/tiff/1.0/") (lit "Make"))
       (Some (lit " Canon ")) [])
    (empty_state [])
  = (Ret tt,
     set_meta_dict {[ lit "XMP-tiff|Make" := xmp_record (lit " Canon ") ]}
       (empty_state [])).
Proof.
  rewrite xmp_child_qualified; [reflexivity | | | | |];
    first [discriminate | decide_closed].
Defined.

(** X29: the key of an XMP record keeps the category of the namespace,
    not the namespace, and [xmpns_tagtype] gives one category to more
    than one namespace (XMP-xap to [xap/1.0/] and to [xap/1.0/mm/]).  For
    two elements with the same name whose namespaces have the same
    category, the record of the first is overwritten by the second. *)
Theorem xmp_same_category_overwrites (ns1 ns2 name t1 t2 : str)
    (c1 c2 : list Element) (st : state) :
  ns1 ≠ [] -> ns2 ≠ [] -> name ≠ [] ->
  10 ∉ ns1 -> 10 ∉ ns2 -> 10 ∉ name -> 125 ∉ name ->
  forallb isspace t1 = false -> forallb isspace t2 = false ->
  xmpns_tagtype ns1 = xmpns_tagtype ns2 ->
  for_each [Elem (qualified ns1 name) (Some t1) c1;
            Elem (qualified ns2 name) (Some t2) c2] xmp_child st
  = (Ret tt,
     set_meta_dict
       (<[xmpns_tagtype ns2 ++ lit "|" ++ name := xmp_record t2]>
          (meta_dict st)) st).
Proof.
  intros Hns1 Hns2 Hname Hnl1 Hnl2 Hnl Hbrace Ht1 Ht2 Hcat.
  cbn [for_each].
  etrans; [eapply bind_Ret, xmp_child_run; assumption|].
  etrans; [eapply bind_Ret, xmp_child_run; assumption|].
  rewrite Ht1, Ht2, Hcat. unfold ret. f_equal.
  destruct st. unfold set_meta_dict. simpl. f_equal.
  apply insert_insert_eq.
Qed.

Lemma xmp_same_category_overwrites_witness :
  xap_ns ≠ xap_mm_ns
  /\ for_each [Elem (qualified xap_ns (lit "Label")) (Some (lit "a")) [];
               Elem (qualified xap_mm_ns (lit "Label")) (Some (lit "b")) []]
       xmp_child (empty_state [])
     = (Ret tt,
        set_meta_dict {[ lit "XMP-xap|Label" := xmp_record (lit "b") ]}
          (empty_state [])).
Proof.
  split; [discriminate|].
  rewrite xmp_same_category_overwrites; [reflexivity | | | | | | | | | |];
    first [discriminate | reflexivity | decide_closed].
Defined.

(** ** Directories with a BYTE or SBYTE entry *)

Lemma for_range_add (a b : nat) (body : M unit) (st : state) :
  for_range (a + b) body st = (for_range a body ;;; for_range b body) st.
Proof.
  revert st. induction a as [|a IH]; intros st; simpl; [reflexivity|].
  unfold bind. destruct (body st) as [[[]| |] st1]; try reflexivity.
  rewrite IH. reflexivity.
Qed.

Section ByteEntry.

Variable EXIF_TAGS : gmap str str.

(** The renderer on the four bytes of a value field of type BYTE or
    SBYTE. *)
Lemma exifdata_tostring_byte_field (o : byteorder) (value : bytes)
    (ty : Z) (st : state) :
  length value = 4%nat -> ty = 1 \/ ty = 6 ->
  exifdata_tostring value (VInt ty) o st
  = (Raise (if bool_decide (ty = 1) then StructError else TypeError), st).
Proof.
  intros Hlen Hty.
  destruct value as [|a [|b [|c [|d [|]]]]]; try discriminate.
  destruct Hty as [-> | ->]; reflexivity.
Qed.

(** X30: a directory entry of type BYTE (1) or SBYTE (6) that is not a
    sub-IFD pointer ends [read_ifd] with an exception, [struct.error]
    for BYTE and [TypeError] for SBYTE: the value field always has four
    bytes, and the renderer takes one byte only for BYTE and none for
    SBYTE.  The records and the queued offsets of the entries before it
    stay; the entry itself and the entries after it leave nothing. *)
Theorem read_ifd_byte_entry (bo count_bytes : bytes) (pre : list ifd_entry)
    (e : ifd_entry) (rest : bytes) (st : state) :
  let o := order_of bo in
  0 <= fpos st ->
  remaining st
  = count_bytes ++ concat (map entry_bytes pre) ++ entry_bytes e ++ rest ->
  length count_bytes = 2%nat ->
  Z.of_nat (length pre) < uint o count_bytes ->
  Forall entry_wf pre ->
  Forall (fun e => is_pointer o e \/ renderable o e) pre ->
  entry_wf e -> ~ is_pointer o e ->
  uint o (e_type e) = 1 \/ uint o (e_type e) = 6 ->
  exists st' xs,
    read_ifd EXIF_TAGS (VBytes bo) st
    = (Raise (if bool_decide (uint o (e_type e) = 1) then StructError
              else TypeError), st')
    /\ Forall2 (rendered o) (filter (fun e => ~ is_pointer o e) pre) xs
    /\ meta_dict st'
       = write_records EXIF_TAGS o (filter (fun e => ~ is_pointer o e) pre) xs
           (meta_dict st)
    /\ subifd_queue st'
       = subifd_queue st ++ map (pointer_value o) (filter (is_pointer o) pre).
Proof.
  intros o Hpos Hrem Hcount Hn Hwf Hok Hewf Hptr Hty.
  destruct (ExifDecoder_order bo st)
    as (st0 & Hinit & Hdata0 & Hpos0 & Hmeta0 & Hq0 & _).
  fold o in Hinit.
  assert (Hr0 : remaining st0 = remaining st)
    by (unfold remaining; by rewrite Hdata0, Hpos0).
  rewrite <- Hr0 in Hrem. rewrite <- Hpos0 in Hpos.
  destruct (read_ifd_entries EXIF_TAGS o pre (set_fpos (fpos st0 + 2) st0)
              (entry_bytes e ++ rest))
    as (st1 & xs & Hrun & _ & Hfpos & Hrest & _ & Hq & _ & Hxs & Hmeta);
    [simpl; lia
    | eapply remaining_advance; [exact Hpos | exact Hrem | by rewrite Hcount]
    | exact Hwf | exact Hok |].
  simpl in Hfpos, Hq, Hmeta.
  exists (set_fpos (fpos st1 + 12) st1), xs. split; [|split; [exact Hxs|]].
  - unfold read_ifd.
    etrans; [eapply bind_Ret, Hinit|].
    etrans; [eapply bind_Ret, read_remaining;
             [exact Hrem | by rewrite Hcount]|].
    etrans; [eapply bind_Ret, decode_bytes_len2; exact Hcount|].
    unfold range_count.
    etrans; [eapply bind_Ret; reflexivity|].
    replace (Z.to_nat (uint o count_bytes))
      with (length pre + S (Z.to_nat (uint o count_bytes) - S (length pre)))%nat
      by lia.
    eapply bind_Raise. rewrite for_range_add.
    etrans; [eapply bind_Ret, Hrun|].
    cbn [for_range]. eapply bind_Raise.
    rewrite (read_ifd_entry_fields EXIF_TAGS o e rest st1);
      [|lia | exact Hrest | exact Hewf].
    cbv zeta.
    rewrite bool_decide_eq_false_2 by (by rewrite subifd_tags_spec).
    eapply bind_Raise.
    destruct Hewf as (_ & _ & _ & Hvalue).
    by apply exifdata_tostring_byte_field.
  - simpl. rewrite Hmeta, Hq, Hmeta0, Hq0. by split.
Qed.

End ByteEntry.

Lemma read_ifd_byte_entry_witness :
  exists st',
    read_ifd ∅ (VBytes b_MM)
      (empty_state
         ([x00; x01] ++ [x00; x00; x00; x01; x00; x00; x00; x04;
                         x02; x03; x00; x00] ++ [x00; x00; x00; x00]))
    = (Raise StructError, st')
    /\ meta_dict st' = ∅.
Proof.
  destruct (read_ifd_byte_entry ∅ b_MM [x00; x01] []
              (IfdEntry [x00; x00] [x00; x01] [x00; x00; x00; x04]
                 [x02; x03; x00; x00])
              [x00; x00; x00; x00]
              (empty_state
                 ([x00; x01] ++ [x00; x00; x00; x01; x00; x00; x00; x04;
                                 x02; x03; x00; x00] ++ [x00; x00; x00; x00])))
    as (st' & xs & Hrun & Hxs & Hmeta & _).
  - simpl. lia.
  - reflexivity.
  - reflexivity.
  - reflexivity.
  - constructor.
  - constructor.
  - repeat split.
  - decide_closed.
  - left. reflexivity.
  - exists st'. split; [exact Hrun|].
    inversion Hxs; subst. exact Hmeta.
Defined.
